(** * Sgm: the per-tile semi-global matching engine of the depth map stage

    A shallow embedding of [aliceVision/depthMap/Sgm.cpp]: the engine's
    constructor, its memory accounting and the per-tile pipeline [sgmRc]
    (depth upload, similarity volume fusion, optional volume optimization,
    best depth retrieval).

    Conventions.
    - [int] values are integers of [Z]; where the source overflows a signed
      [int] or indexes outside an array the model answers [Undefined].
    - [size_t] values are integers of [Z] reduced modulo [2^64].
    - [float] payloads (depth values) are rationals: they are moved around,
      never computed with.  The one single precision computation of the
      file, [std::ceil (w / float d)] in the constructor, is modelled with
      its roundings (conversion of both operands, division, to nearest,
      ties to even); converting a result outside [int] back to [int] is
      [Undefined].  [double (bytes) / (1024.0 * 1024.0)] is a rational.
    - One CUDA stream orders every device operation of an engine, so the
      pipeline is a sequential state transformer.
    - Logging is not modelled. *)

From Stdlib Require Import ZArith QArith Qround Qreduction List Bool String Lia.
From stdpp Require Import base list gmap sets.

Local Open Scope Z_scope.

(** ** Plain data *)

Module Data.

(** [Range]: a half-open interval [begin, end). *)
Record Range := mkRange { r_begin : Z; r_end : Z }.

(** [ROI]: a region of interest, one range per image axis. *)
Record ROI := mkROI { roi_x : Range; roi_y : Range }.

Definition range_size (r : Range) : Z := r_end r - r_begin r.
Definition roi_width (r : ROI) : Z := range_size (roi_x r).
Definition roi_height (r : ROI) : Z := range_size (roi_y r).

(** [Tile]: what [sgmRc] reads of a tile. *)
Record Tile := mkTile {
  t_id : Z;
  nbTiles : Z;
  rc : Z;
  sgmTCams : list Z;
  roi : ROI
}.

(** [SgmDepthList]: the depth hypotheses of the reference camera and, per
    target camera, a pair (first depth index, number of depths). *)
Record SgmDepthList := mkSgmDepthList {
  getDepths : list Q;
  getDepthsTcLimits : list (Z * Z)
}.

(** [SgmParams]: the fields of the configuration the engine reads. *)
Record SgmParams := mkSgmParams {
  scale : Z;
  stepXY : Z;
  maxDepths : Z;
  doSgmOptimizeVolume : bool;
  exportIntermediateResults : bool;
  filteringAxes : string
}.

(** [mvsUtils::TileParams]: the tile geometry in full resolution pixels. *)
Record TileParams := mkTileParams { width : Z; height : Z }.

(** [mvsUtils::MultiViewParams]: the view metadata accessor. *)
Record MultiViewParams := mkMultiViewParams {
  ncams : Z;
  getViewId : Z -> Z
}.

(** [DeviceCamera]: a handle on a cache resident camera; the cache key is
    the pair (camera id, scale). *)
Record DeviceCamera := mkDeviceCamera { dc_camId : Z; dc_scale : Z }.

End Data.
Export Data.

(** ** Machine integers *)

Definition int_min : Z := - 2 ^ 31.
Definition int_max : Z := 2 ^ 31 - 1.
Definition in_int (z : Z) : bool := (int_min <=? z) && (z <=? int_max).

Definition size_t_modulus : Z := 2 ^ 64.
(** Conversion to [size_t] and arithmetic on it wrap around. *)
Definition to_size_t (z : Z) : Z := z mod size_t_modulus.
Definition size_t_add (a b : Z) : Z := to_size_t (a + b).
Definition size_t_mul (a b : Z) : Z := to_size_t (a * b).

(** *** Single precision

    A binary32 value is a rational; an operation rounds its exact result to
    the nearest value with a significand of 24 bits, ties to even.  The
    exponent range is not modelled: the quotients of two [int]s stay far
    inside it. *)

(** The integer nearest to [n / d], ties to even, for [0 <= n] and
    [0 < d]. *)
Definition round_nearest_even (n d : Z) : Z :=
  let q := n / d in
  let r := n mod d in
  if 2 * r <? d then q
  else if d <? 2 * r then q + 1
  else if Z.even q then q else q + 1.

(** [n / (d * 2^e)] as a fraction of integers. *)
Definition scaled (n d e : Z) : Z * Z :=
  if 0 <=? e then (n, d * 2 ^ e) else (n * 2 ^ (- e), d).

(** The value [m * 2^e]. *)
Definition pow2Q (m e : Z) : Q :=
  if 0 <=? e then inject_Z (m * 2 ^ e) else Qmake m (Z.to_pos (2 ^ (- e))).

(** The binary32 value nearest to [n / d], for [0 < n] and [0 < d]: with
    [e] the exponent such that [2^23 <= n / d / 2^e < 2^24], the
    significand [n / d / 2^e] rounded to an integer, times [2^e]. *)
Definition round_pos (n d : Z) : Q :=
  let e0 := Z.log2 n - Z.log2 d - 24 in
  let '(n0, d0) := scaled n d e0 in
  let e := if n0 <? 2 ^ 24 * d0 then e0 else e0 + 1 in
  let '(ne, de) := scaled n d e in
  pow2Q (round_nearest_even ne de) e.

(** Rounding a rational to binary32. *)
Definition round32 (x : Q) : Q :=
  let r := Qred x in
  match Qnum r with
  | 0 => 0%Q
  | Zpos _ => round_pos (Qnum r) (Zpos (Qden r))
  | Zneg _ => Qopp (round_pos (- Qnum r) (Zpos (Qden r)))
  end.

(** [float (z)] and the division of two [float]s. *)
Definition float_of_int (z : Z) : Q := round32 (inject_Z z).
Definition float_div (a b : Q) : Q := round32 (a / b).

(** The value of [std::ceil (w / float (d))] for [d <> 0]: [w] is
    converted to [float] for the division, which rounds; the ceiling of a
    binary32 value is a binary32 value. *)
Definition ceil_div (w d : Z) : Z :=
  Qceiling (float_div (float_of_int w) (float_of_int d)).

Arguments to_size_t : simpl never.
Arguments size_t_add : simpl never.
Arguments size_t_mul : simpl never.
Arguments round32 : simpl never.
Arguments float_of_int : simpl never.
Arguments float_div : simpl never.
Arguments ceil_div : simpl never.

(** ** Device and host buffers *)

(** Where a buffer lives: [CudaHostMemoryHeap] or
    [CudaDeviceMemoryPitched]. *)
Inductive MemorySpace := HostHeap | DevicePitched.

(** A buffer of elements of type [A]: its [CudaSize] (one extent per
    dimension, empty while unallocated), the size of an element and the
    row pitch in bytes, and its cells addressed by one index per
    dimension. *)
Record Buffer (A : Type) := mkBuffer {
  b_space : MemorySpace;
  b_size : list Z;
  b_sizeof : Z;
  b_pitch : Z;
  b_data : list Z -> A
}.
Arguments mkBuffer {A}.
Arguments b_space {A}.
Arguments b_size {A}.
Arguments b_sizeof {A}.
Arguments b_pitch {A}.
Arguments b_data {A}.

(** Similarity values ([TSim]) and accumulators ([TSimAcc]). *)
Definition TSim : Type := Z.
Definition TSimAcc : Type := Z.

(** Names of the buffers: the eight members of the engine and the local
    host copy made by [exportVolumeInformation]. *)
Inductive BufferId :=
| depths_hmh | depths_dmp | depthSimMap_dmp
| volumeBestSim_dmp | volumeSecBestSim_dmp
| volumeSliceAccA_dmp | volumeSliceAccB_dmp | volumeAxisAcc_dmp
| volumeSim_hmh.

#[global] Instance BufferId_eq_dec : EqDecision BufferId.
Proof. solve_decision. Defined.

Definition engine_buffers : list BufferId :=
  [depths_hmh; depths_dmp; depthSimMap_dmp; volumeBestSim_dmp;
   volumeSecBestSim_dmp; volumeSliceAccA_dmp; volumeSliceAccB_dmp;
   volumeAxisAcc_dmp].

(** The engine object. *)
Record Sgm := mkSgm {
  _mp : MultiViewParams;
  _tileParams : TileParams;
  _sgmParams : SgmParams;
  _depths_hmh : Buffer Q;
  _depths_dmp : Buffer Q;
  _depthSimMap_dmp : Buffer (Q * Q);
  _volumeBestSim_dmp : Buffer TSim;
  _volumeSecBestSim_dmp : Buffer TSim;
  _volumeSliceAccA_dmp : Buffer TSimAcc;
  _volumeSliceAccB_dmp : Buffer TSimAcc;
  _volumeAxisAcc_dmp : Buffer TSimAcc
}.

(** ** Effects: outcomes, the device, a state and error monad *)

(** The three files written by [exportVolumeInformation]. *)
Inductive ExportFile := VolumeFile | VolumeCrossFile | SamplesCSV.

(** What the engine does to the outside, in issue order. *)
Inductive Event :=
| EvAllocate (b : BufferId) (size : list Z)
| EvRequestCamera (camId : Z) (camScale : Z)
| EvExportVolume (file : ExportFile) (name : string) (volume : Buffer TSim)
| EvWriteDepthSimMap (map : Buffer (Q * Q)).

(** The device as the engine sees it: the free device memory in bytes and
    the events issued so far, oldest first. *)
Record Device := mkDevice { mem_free : Z; trace : list Event }.

Inductive Error :=
| NoDepthsOrNoTCams (viewId : Z)
| AllocationFailure (b : BufferId).

(** The state threaded through the engine's methods. *)
Definition World : Type := Sgm * Device.

(** A method either returns, throws (the state is the one reached at the
    throw), or leaves defined behaviour. *)
Inductive outcome (A : Type) :=
| Ok (a : A) (w : World)
| Thrown (e : Error) (w : World)
| Undefined.
Arguments Ok {A}.
Arguments Thrown {A}.
Arguments Undefined {A}.

Definition M (A : Type) : Type := World -> outcome A.

Definition ret {A} (a : A) : M A := fun w => Ok a w.
Definition bind {A B} (m : M A) (k : A -> M B) : M B :=
  fun w => match m w with
           | Ok a w' => k a w'
           | Thrown e w' => Thrown e w'
           | Undefined => Undefined
           end.
Definition throw {A} (e : Error) : M A := fun w => Thrown e w.
Definition undefined {A} : M A := fun _ => Undefined.
Definition get_engine : M Sgm := fun w => Ok (fst w) w.
Definition get_device : M Device := fun w => Ok (snd w) w.
Definition put_engine (e : Sgm) : M unit := fun w => Ok tt (e, snd w).
Definition put_device (d : Device) : M unit := fun w => Ok tt (fst w, d).
Definition when (b : bool) (m : M unit) : M unit := if b then m else ret tt.

Declare Scope sgm_scope.
Delimit Scope sgm_scope with sgm.
Notation "x <- m ;; k" := (bind m (fun x => k))
  (at level 100, m at next level, right associativity) : sgm_scope.
Notation "m ;; k" := (bind m (fun _ => k))
  (at level 100, right associativity) : sgm_scope.
Local Open Scope sgm_scope.

Definition emit (ev : Event) : M unit :=
  d <- get_device ;;
  put_device {| mem_free := mem_free d; trace := trace d ++ [ev] |}.

(** Signed [int] arithmetic: overflow is not defined. *)
Definition int_op (z : Z) : M Z := if in_int z then ret z else undefined.

(** ** Member access *)

Definition set_depths_hmh (b : Buffer Q) (e : Sgm) : Sgm :=
  mkSgm (_mp e) (_tileParams e) (_sgmParams e) b (_depths_dmp e)
        (_depthSimMap_dmp e) (_volumeBestSim_dmp e) (_volumeSecBestSim_dmp e)
        (_volumeSliceAccA_dmp e) (_volumeSliceAccB_dmp e) (_volumeAxisAcc_dmp e).
Definition set_depths_dmp (b : Buffer Q) (e : Sgm) : Sgm :=
  mkSgm (_mp e) (_tileParams e) (_sgmParams e) (_depths_hmh e) b
        (_depthSimMap_dmp e) (_volumeBestSim_dmp e) (_volumeSecBestSim_dmp e)
        (_volumeSliceAccA_dmp e) (_volumeSliceAccB_dmp e) (_volumeAxisAcc_dmp e).
Definition set_depthSimMap_dmp (b : Buffer (Q * Q)) (e : Sgm) : Sgm :=
  mkSgm (_mp e) (_tileParams e) (_sgmParams e) (_depths_hmh e) (_depths_dmp e)
        b (_volumeBestSim_dmp e) (_volumeSecBestSim_dmp e)
        (_volumeSliceAccA_dmp e) (_volumeSliceAccB_dmp e) (_volumeAxisAcc_dmp e).
Definition set_volumeBestSim_dmp (b : Buffer TSim) (e : Sgm) : Sgm :=
  mkSgm (_mp e) (_tileParams e) (_sgmParams e) (_depths_hmh e) (_depths_dmp e)
        (_depthSimMap_dmp e) b (_volumeSecBestSim_dmp e)
        (_volumeSliceAccA_dmp e) (_volumeSliceAccB_dmp e) (_volumeAxisAcc_dmp e).
Definition set_volumeSecBestSim_dmp (b : Buffer TSim) (e : Sgm) : Sgm :=
  mkSgm (_mp e) (_tileParams e) (_sgmParams e) (_depths_hmh e) (_depths_dmp e)
        (_depthSimMap_dmp e) (_volumeBestSim_dmp e) b
        (_volumeSliceAccA_dmp e) (_volumeSliceAccB_dmp e) (_volumeAxisAcc_dmp e).
Definition set_volumeSliceAccA_dmp (b : Buffer TSimAcc) (e : Sgm) : Sgm :=
  mkSgm (_mp e) (_tileParams e) (_sgmParams e) (_depths_hmh e) (_depths_dmp e)
        (_depthSimMap_dmp e) (_volumeBestSim_dmp e) (_volumeSecBestSim_dmp e)
        b (_volumeSliceAccB_dmp e) (_volumeAxisAcc_dmp e).
Definition set_volumeSliceAccB_dmp (b : Buffer TSimAcc) (e : Sgm) : Sgm :=
  mkSgm (_mp e) (_tileParams e) (_sgmParams e) (_depths_hmh e) (_depths_dmp e)
        (_depthSimMap_dmp e) (_volumeBestSim_dmp e) (_volumeSecBestSim_dmp e)
        (_volumeSliceAccA_dmp e) b (_volumeAxisAcc_dmp e).
Definition set_volumeAxisAcc_dmp (b : Buffer TSimAcc) (e : Sgm) : Sgm :=
  mkSgm (_mp e) (_tileParams e) (_sgmParams e) (_depths_hmh e) (_depths_dmp e)
        (_depthSimMap_dmp e) (_volumeBestSim_dmp e) (_volumeSecBestSim_dmp e)
        (_volumeSliceAccA_dmp e) (_volumeSliceAccB_dmp e) b.

(** In place update of one member. *)
Definition modify (f : Sgm -> Sgm) : M unit :=
  e <- get_engine ;; put_engine (f e).

(** ** What the device library provides *)

(** The parts of the CUDA layer that [Sgm.cpp] uses and does not define:
    element types, the pitched allocator's row pitch, the ROI helper and
    the per cell arithmetic of the three kernels.  The engine's behaviour
    is stated for every instance. *)
Class DeviceKernels := {
  (** [sizeof(TSim)] and [sizeof(TSimAcc)]. *)
  sizeof_TSim : Z;
  sizeof_TSimAcc : Z;
  sizeof_TSim_pos : 0 < sizeof_TSim <= 16;
  sizeof_TSimAcc_pos : 0 < sizeof_TSimAcc <= 16;
  (** Row pitch chosen by the pitched allocator for a row of that many
      bytes. *)
  cudaPitch : Z -> Z;
  cudaPitch_ge : forall rowBytes, 0 <= rowBytes -> rowBytes <= cudaPitch rowBytes;
  (** [downscaleROI roi downscale]. *)
  downscaleROI : ROI -> Z -> ROI;
  (** Matching cost of one cell for a pair of cameras. *)
  similarity :
    DeviceCamera -> DeviceCamera -> SgmParams -> (list Z -> Q) -> ROI ->
    list Z -> TSim;
  (** Regularized cost of one cell of the output volume, and what the
      sweep leaves in the slice and axis buffers. *)
  aggregate :
    (list Z -> TSim) -> DeviceCamera -> SgmParams -> Z -> ROI ->
    list Z -> TSim;
  sweep_scratch :
    (list Z -> TSim) -> DeviceCamera -> SgmParams -> Z -> ROI ->
    (list Z -> TSimAcc) * (list Z -> TSimAcc) * (list Z -> TSimAcc);
  (** Depth and similarity selected for one pixel of the output map. *)
  bestDepth :
    (list Z -> Q) -> (list Z -> TSim) -> DeviceCamera -> SgmParams ->
    Range -> ROI -> list Z -> Q * Q
}.

(** ** Buffer operations *)

Definition sizeof_float : Z := 4.
Definition sizeof_float2 : Z := 8.

Definition product (l : list Z) : Z := fold_right Z.mul 1 l.

(** A member before [allocate]: zero extents, no storage. *)
Definition unallocated {A} (sp : MemorySpace) (dim : nat) (elt : Z)
    (junk : list Z -> A) : Buffer A :=
  mkBuffer sp (replicate dim 0) elt 0 junk.

(** The bytes of the cells of a buffer, as a plain integer: the number of
    elements times the element size. *)
Definition unpadded_bytes {A} (b : Buffer A) : Z :=
  product (b_size b) * b_sizeof b.

(** The bytes a buffer takes, rows at their pitch, as a plain integer: the
    row pitch times the number of rows. *)
Definition padded_bytes {A} (b : Buffer A) : Z :=
  b_pitch b * product (tail (b_size b)).

(** Modelled from the spec: [getBytesUnpadded] of the absent memory
    classes.  The "unpadded" byte total of a buffer, a [size_t]. *)
Definition getBytesUnpadded {A} (b : Buffer A) : Z :=
  to_size_t (unpadded_bytes b).

(** Modelled from the spec: [getBytesPadded] of the absent memory
    classes.  "padding reflects device-allocator row alignment for 2-D/3-D
    arrays": the padded byte total of a buffer, a [size_t]. *)
Definition getBytesPadded {A} (b : Buffer A) : Z :=
  to_size_t (padded_bytes b).

(** Modelled from the spec: [copyFrom] of the absent memory classes.
    "copy best into secondBest", "copy secondBest into best unchanged":
    the cells of [src] replace those of [dst]. *)
Definition copyFrom {A} (dst src : Buffer A) : Buffer A :=
  mkBuffer (b_space dst) (b_size dst) (b_sizeof dst) (b_pitch dst) (b_data src).

(** Writing one cell. *)
Definition write {A} (b : Buffer A) (idx : list Z) (v : A) : Buffer A :=
  mkBuffer (b_space b) (b_size b) (b_sizeof b) (b_pitch b)
           (fun i => if decide (i = idx) then v else b_data b i).

Definition set_data {A} (b : Buffer A) (f : list Z -> A) : Buffer A :=
  mkBuffer (b_space b) (b_size b) (b_sizeof b) (b_pitch b) f.

(** [empty()] of a vector. *)
Definition is_empty {A} (l : list A) : bool :=
  match l with [] => true | _ => false end.

(** Is [idx] a cell of a buffer of extents [size]? *)
Fixpoint in_bounds (idx size : list Z) : bool :=
  match idx, size with
  | [], [] => true
  | i :: idx', n :: size' => (0 <=? i) && (i <? n) && in_bounds idx' size'
  | _, _ => false
  end.

Section WithKernels.
Context `{DeviceKernels}.

(** A buffer of [size] elements once allocated: the extents are [size_t]
    values, the rows of a pitched buffer are padded to the allocator's
    pitch, the cells keep whatever the memory held. *)
Definition allocated {A} (sp : MemorySpace) (size : list Z) (elt : Z)
    (data : list Z -> A) : Buffer A :=
  let size := map to_size_t size in
  let rowBytes := size_t_mul (hd 0 size) elt in
  mkBuffer sp size elt
           (match sp with HostHeap => rowBytes | DevicePitched => cudaPitch rowBytes end)
           data.

(** Modelled from the spec: [allocate] of the absent memory classes.
    "construction-time device allocation failure - fatal": a device
    allocation takes [pitch * rows] bytes of the free device memory and
    throws when they are not there. *)
Definition allocate {A} (id : BufferId) (b : Buffer A) (size : list Z) : M (Buffer A) :=
  let buffer := allocated (b_space b) size (b_sizeof b) (b_data b) in
  match b_space b with
  | HostHeap =>
      emit (EvAllocate id (b_size buffer)) ;;
      ret buffer
  | DevicePitched =>
      let bytes := padded_bytes buffer in
      d <- get_device ;;
      if bytes <=? mem_free d then
        put_device {| mem_free := mem_free d - bytes; trace := trace d |} ;;
        emit (EvAllocate id (b_size buffer)) ;;
        ret buffer
      else throw (AllocationFailure id)
  end.

(** Modelled from the spec: [DeviceCache::requestCamera].  "request(cameraId,
    scale) returns a handle": the request is recorded and the handle of
    that key returned. *)
Definition requestCamera (camId camScale : Z) : M DeviceCamera :=
  emit (EvRequestCamera camId camScale) ;;
  ret (mkDeviceCamera camId camScale).

(** *** Construction *)

(** The members as they are when the constructor body starts: parameters
    copied, buffers not allocated. *)
Definition members (mp : MultiViewParams) (tileParams : TileParams)
    (sgmParams : SgmParams) (junkD : list Z -> Q) (junkM : list Z -> Q * Q)
    (junkS : list Z -> Z) : Sgm :=
  mkSgm mp tileParams sgmParams
        (unallocated HostHeap 2 sizeof_float junkD)
        (unallocated DevicePitched 2 sizeof_float junkD)
        (unallocated DevicePitched 2 sizeof_float2 junkM)
        (unallocated DevicePitched 3 sizeof_TSim junkS)
        (unallocated DevicePitched 3 sizeof_TSim junkS)
        (unallocated DevicePitched 2 sizeof_TSimAcc junkS)
        (unallocated DevicePitched 2 sizeof_TSimAcc junkS)
        (unallocated DevicePitched 2 sizeof_TSimAcc junkS).

(** [Sgm::Sgm], the constructor body. *)
Definition Sgm_ctor : M unit :=
  e <- get_engine ;;
  let sgmParams := _sgmParams e in
  let tileParams := _tileParams e in
  (* get tile maximum dimensions *)
  downscale <- int_op (scale sgmParams * stepXY sgmParams) ;;
  (* a zero downscale gives an infinite or undetermined quotient, and a
     quotient outside [int] has no conversion to [int] *)
  if downscale =? 0 then undefined else
  maxTileWidth <- int_op (ceil_div (width tileParams) downscale) ;;
  maxTileHeight <- int_op (ceil_div (height tileParams) downscale) ;;
  (* allocate depth list in device memory *)
  let depthsDim := [maxDepths sgmParams; 1] in
  b <- allocate depths_hmh (_depths_hmh e) depthsDim ;;
  modify (set_depths_hmh b) ;;
  b <- allocate depths_dmp (_depths_dmp e) depthsDim ;;
  modify (set_depths_dmp b) ;;
  (* allocate depth/sim map in device memory *)
  b <- allocate depthSimMap_dmp (_depthSimMap_dmp e) [maxTileWidth; maxTileHeight] ;;
  modify (set_depthSimMap_dmp b) ;;
  (* allocate similarity volumes in device memory *)
  let volDim := [maxTileWidth; maxTileHeight; maxDepths sgmParams] in
  b <- allocate volumeBestSim_dmp (_volumeBestSim_dmp e) volDim ;;
  modify (set_volumeBestSim_dmp b) ;;
  b <- allocate volumeSecBestSim_dmp (_volumeSecBestSim_dmp e) volDim ;;
  modify (set_volumeSecBestSim_dmp b) ;;
  (* allocate similarity volume optimization buffers *)
  if doSgmOptimizeVolume sgmParams then
    let maxTileSide := to_size_t (Z.max maxTileWidth maxTileHeight) in
    b <- allocate volumeSliceAccA_dmp (_volumeSliceAccA_dmp e) [maxTileSide; maxDepths sgmParams] ;;
    modify (set_volumeSliceAccA_dmp b) ;;
    b <- allocate volumeSliceAccB_dmp (_volumeSliceAccB_dmp e) [maxTileSide; maxDepths sgmParams] ;;
    modify (set_volumeSliceAccB_dmp b) ;;
    b <- allocate volumeAxisAcc_dmp (_volumeAxisAcc_dmp e) [maxTileSide; 1] ;;
    modify (set_volumeAxisAcc_dmp b)
  else ret tt.

(** The engine a successful construction leaves. *)
Definition built (mp : MultiViewParams) (tileParams : TileParams)
    (sgmParams : SgmParams) (junkD : list Z -> Q) (junkM : list Z -> Q * Q)
    (junkS : list Z -> Z) : Sgm :=
  let downscale := scale sgmParams * stepXY sgmParams in
  let maxTileWidth := ceil_div (width tileParams) downscale in
  let maxTileHeight := ceil_div (height tileParams) downscale in
  let maxTileSide := to_size_t (Z.max maxTileWidth maxTileHeight) in
  let optimize := doSgmOptimizeVolume sgmParams in
  let scratch size :=
    if optimize then allocated DevicePitched size sizeof_TSimAcc junkS
    else unallocated DevicePitched 2 sizeof_TSimAcc junkS in
  mkSgm mp tileParams sgmParams
    (allocated HostHeap [maxDepths sgmParams; 1] sizeof_float junkD)
    (allocated DevicePitched [maxDepths sgmParams; 1] sizeof_float junkD)
    (allocated DevicePitched [maxTileWidth; maxTileHeight] sizeof_float2 junkM)
    (allocated DevicePitched [maxTileWidth; maxTileHeight; maxDepths sgmParams]
       sizeof_TSim junkS)
    (allocated DevicePitched [maxTileWidth; maxTileHeight; maxDepths sgmParams]
       sizeof_TSim junkS)
    (scratch [maxTileSide; maxDepths sgmParams])
    (scratch [maxTileSide; maxDepths sgmParams])
    (scratch [maxTileSide; 1]).

(** [Sgm(mp, tileParams, sgmParams, stream)] on a device. *)
Definition construct (mp : MultiViewParams) (tileParams : TileParams)
    (sgmParams : SgmParams) junkD junkM junkS (d : Device) : outcome unit :=
  Sgm_ctor (members mp tileParams sgmParams junkD junkM junkS, d).

(** *** Memory accounting *)

(** The [size_t bytes] accumulated by [getDeviceMemoryConsumption]. *)
Definition deviceBytesPadded (e : Sgm) : Z :=
  let bytes := 0 in
  let bytes := size_t_add bytes (getBytesPadded (_depths_dmp e)) in
  let bytes := size_t_add bytes (getBytesPadded (_depthSimMap_dmp e)) in
  let bytes := size_t_add bytes (getBytesPadded (_volumeBestSim_dmp e)) in
  let bytes := size_t_add bytes (getBytesPadded (_volumeSecBestSim_dmp e)) in
  if doSgmOptimizeVolume (_sgmParams e) then
    let bytes := size_t_add bytes (getBytesPadded (_volumeSliceAccA_dmp e)) in
    let bytes := size_t_add bytes (getBytesPadded (_volumeSliceAccB_dmp e)) in
    size_t_add bytes (getBytesPadded (_volumeAxisAcc_dmp e))
  else bytes.

(** The [size_t bytes] accumulated by
    [getDeviceMemoryConsumptionUnpadded]. *)
Definition deviceBytesUnpadded (e : Sgm) : Z :=
  let bytes := 0 in
  let bytes := size_t_add bytes (getBytesUnpadded (_depths_dmp e)) in
  let bytes := size_t_add bytes (getBytesUnpadded (_depthSimMap_dmp e)) in
  let bytes := size_t_add bytes (getBytesUnpadded (_volumeBestSim_dmp e)) in
  let bytes := size_t_add bytes (getBytesUnpadded (_volumeSecBestSim_dmp e)) in
  if doSgmOptimizeVolume (_sgmParams e) then
    let bytes := size_t_add bytes (getBytesUnpadded (_volumeSliceAccA_dmp e)) in
    let bytes := size_t_add bytes (getBytesUnpadded (_volumeSliceAccB_dmp e)) in
    size_t_add bytes (getBytesUnpadded (_volumeAxisAcc_dmp e))
  else bytes.

(** [double(bytes) / (1024.0 * 1024.0)]. *)
Definition megabytes (bytes : Z) : Q := (inject_Z bytes / (1024 * 1024))%Q.

Definition getDeviceMemoryConsumption (e : Sgm) : Q :=
  megabytes (deviceBytesPadded e).

Definition getDeviceMemoryConsumptionUnpadded (e : Sgm) : Q :=
  megabytes (deviceBytesUnpadded e).

(** *** Kernels *)

(** Modelled from the spec: [cuda_volumeInitialize] (absent).  "Resets
    both volumes to the worst score (255)": every cell takes [value]. *)
Definition cuda_volumeInitialize (volume : Buffer TSim) (value : TSim) : Buffer TSim :=
  set_data volume (fun _ => value).

(** The cells a target camera contributes to: the pixels of the downscaled
    region of interest, at the depth indices of its range. *)
Definition contributes (tcDepthRange : Range) (roi : ROI) (idx : list Z) : bool :=
  match idx with
  | [x; y; z] =>
      (0 <=? x) && (x <? roi_width roi) && (0 <=? y) && (y <? roi_height roi)
      && (r_begin tcDepthRange <=? z) && (z <? r_end tcDepthRange)
  | _ => false
  end.

(** Modelled from the spec: [cuda_volumeComputeSimilarity] (absent).  The
    two volumes track "the two lowest per-(pixel,depth) costs seen across
    processed target cameras", for the cameras "whose valid range covers
    d": in a contributed cell a cost below the best becomes the best and
    the former best the second best; otherwise a cost below the second
    best becomes the second best.  Other cells are left as they are. *)
Definition cuda_volumeComputeSimilarity (best sec : Buffer TSim) (depths : Buffer Q)
    (rcCam tcCam : DeviceCamera) (sgmParams : SgmParams) (tcDepthRange : Range)
    (roi : ROI) : Buffer TSim * Buffer TSim :=
  let fsim := similarity rcCam tcCam sgmParams (b_data depths) roi in
  let fmin := b_data best in
  let fsecmin := b_data sec in
  (set_data best (fun idx =>
     if contributes tcDepthRange roi idx
     then (if fsim idx <? fmin idx then fsim idx else fmin idx)
     else fmin idx),
   set_data sec (fun idx =>
     if contributes tcDepthRange roi idx
     then (if fsim idx <? fmin idx then fmin idx
           else if fsim idx <? fsecmin idx then fsim idx else fsecmin idx)
     else fsecmin idx)).

(** Modelled from the spec: [cuda_volumeOptimize] (absent).  "Input: the
    fused (secondBest) cost volume. Produces a regularized volume": the
    output volume receives the regularized cost of every cell, computed
    from the input volume; the slice and axis buffers are scratch space of
    the sweep. *)
Definition cuda_volumeOptimize (out : Buffer TSim)
    (sliceAccA sliceAccB axisAcc : Buffer TSimAcc) (in_volume : Buffer TSim)
    (rcCam : DeviceCamera) (sgmParams : SgmParams) (lastDepthIndex : Z) (roi : ROI)
    : Buffer TSim * Buffer TSimAcc * Buffer TSimAcc * Buffer TSimAcc :=
  let '(a, b, x) := sweep_scratch (b_data in_volume) rcCam sgmParams lastDepthIndex roi in
  (set_data out (aggregate (b_data in_volume) rcCam sgmParams lastDepthIndex roi),
   set_data sliceAccA a, set_data sliceAccB b, set_data axisAcc x).

(** Modelled from the spec: [cuda_volumeRetrieveBestDepth] (absent).
    "Input: the final cost volume and the hypothesis array": the output
    map receives, per pixel, the depth and similarity selected from the
    volume. *)
Definition cuda_volumeRetrieveBestDepth (out : Buffer (Q * Q)) (depths : Buffer Q)
    (volume : Buffer TSim) (rcCam : DeviceCamera) (sgmParams : SgmParams)
    (depthRange : Range) (roi : ROI) : Buffer (Q * Q) :=
  set_data out (bestDepth (b_data depths) (b_data volume) rcCam sgmParams depthRange roi).

(** *** The per-tile pipeline *)

(** The loop [for(int i = 0; i < depths.size(); ++i) _depths_hmh(i, 0) =
    depths[i]], from index [i] on. *)
Fixpoint upload_depths (i : Z) (depths : list Q) : M unit :=
  match depths with
  | [] => ret tt
  | d :: rest =>
      e <- get_engine ;;
      if in_bounds [i; 0] (b_size (_depths_hmh e)) then
        modify (fun e => set_depths_hmh (write (_depths_hmh e) [i; 0] d) e) ;;
        upload_depths (i + 1) rest
      else undefined
  end.

(** The loop of [computeSimilarityVolumes] over the target cameras, from
    index [tci] on. *)
Fixpoint similarity_loop (tileDepthList : SgmDepthList) (rcDeviceCamera : DeviceCamera)
    (downscaledRoi : ROI) (tci : nat) (tcams : list Z) : M unit :=
  match tcams with
  | [] => ret tt
  | tc :: rest =>
      match getDepthsTcLimits tileDepthList !! tci with
      | None => undefined
      | Some (x, y) =>
          let firstDepth := x in
          lastDepth <- int_op (firstDepth + y) ;;
          let tcDepthRange := mkRange firstDepth lastDepth in
          e <- get_engine ;;
          tcDeviceCamera <- requestCamera tc (scale (_sgmParams e)) ;;
          modify (fun e =>
            let '(best, sec) :=
              cuda_volumeComputeSimilarity (_volumeBestSim_dmp e) (_volumeSecBestSim_dmp e)
                (_depths_dmp e) rcDeviceCamera tcDeviceCamera (_sgmParams e)
                tcDepthRange downscaledRoi in
            set_volumeSecBestSim_dmp sec (set_volumeBestSim_dmp best e)) ;;
          similarity_loop tileDepthList rcDeviceCamera downscaledRoi (S tci) rest
      end
  end.

(** The first half of [computeSimilarityVolumes]: the region of interest
    in the downscaled grid and the two volumes reset to 255. *)
Definition initialize_volumes (tile : Tile) : M ROI :=
  e <- get_engine ;;
  downscale <- int_op (scale (_sgmParams e) * stepXY (_sgmParams e)) ;;
  let downscaledRoi := downscaleROI (roi tile) downscale in
  modify (fun e => set_volumeBestSim_dmp (cuda_volumeInitialize (_volumeBestSim_dmp e) 255) e) ;;
  modify (fun e => set_volumeSecBestSim_dmp (cuda_volumeInitialize (_volumeSecBestSim_dmp e) 255) e) ;;
  ret downscaledRoi.

(** [Sgm::computeSimilarityVolumes]. *)
Definition computeSimilarityVolumes (tile : Tile) (tileDepthList : SgmDepthList) : M unit :=
  downscaledRoi <- initialize_volumes tile ;;
  e <- get_engine ;;
  rcDeviceCamera <- requestCamera (rc tile) (scale (_sgmParams e)) ;;
  similarity_loop tileDepthList rcDeviceCamera downscaledRoi 0 (sgmTCams tile).

(** [Sgm::optimizeSimilarityVolume]. *)
Definition optimizeSimilarityVolume (tile : Tile) (tileDepthList : SgmDepthList) : M unit :=
  e <- get_engine ;;
  downscale <- int_op (scale (_sgmParams e) * stepXY (_sgmParams e)) ;;
  let downscaledRoi := downscaleROI (roi tile) downscale in
  rcDeviceCamera <- requestCamera (rc tile) (scale (_sgmParams e)) ;;
  modify (fun e =>
    let '(out, a, b, x) :=
      cuda_volumeOptimize (_volumeBestSim_dmp e) (_volumeSliceAccA_dmp e)
        (_volumeSliceAccB_dmp e) (_volumeAxisAcc_dmp e) (_volumeSecBestSim_dmp e)
        rcDeviceCamera (_sgmParams e) (Z.of_nat (length (getDepths tileDepthList)))
        downscaledRoi in
    set_volumeAxisAcc_dmp x (set_volumeSliceAccB_dmp b
      (set_volumeSliceAccA_dmp a (set_volumeBestSim_dmp out e)))).

(** [Sgm::retrieveBestDepth]. *)
Definition retrieveBestDepth (tile : Tile) (tileDepthList : SgmDepthList) : M unit :=
  e <- get_engine ;;
  downscale <- int_op (scale (_sgmParams e) * stepXY (_sgmParams e)) ;;
  let downscaledRoi := downscaleROI (roi tile) downscale in
  let depthRange := mkRange 0 (Z.of_nat (length (getDepths tileDepthList))) in
  rcDeviceCamera <- requestCamera (rc tile) 1 ;;
  modify (fun e =>
    set_depthSimMap_dmp
      (cuda_volumeRetrieveBestDepth (_depthSimMap_dmp e) (_depths_dmp e)
         (_volumeBestSim_dmp e) rcDeviceCamera (_sgmParams e) depthRange
         downscaledRoi) e).

(** [Sgm::exportVolumeInformation]: a host copy of the volume, handed to
    the three exporters.  File names are not modelled. *)
Definition exportVolumeInformation (in_volume_dmp : Buffer TSim) (name : string) : M unit :=
  volumeSim_hmh <- allocate volumeSim_hmh
                     (unallocated HostHeap 3 sizeof_TSim (b_data in_volume_dmp))
                     (b_size in_volume_dmp) ;;
  let volumeSim_hmh := copyFrom volumeSim_hmh in_volume_dmp in
  emit (EvExportVolume VolumeFile name volumeSim_hmh) ;;
  emit (EvExportVolume VolumeCrossFile name volumeSim_hmh) ;;
  emit (EvExportVolume SamplesCSV name volumeSim_hmh).

(** The guard of [sgmRc]: no depths or no T cameras. *)
Definition check_inputs (tile : Tile) (tileDepthList : SgmDepthList) : M unit :=
  e <- get_engine ;;
  let viewId := getViewId (_mp e) (rc tile) in
  if is_empty (sgmTCams tile) || is_empty (getDepths tileDepthList)
  then throw (NoDepthsOrNoTCams viewId)
  else ret tt.

(** [sgmRc] from the depth upload to the single T camera copy: after it
    the two fused volumes are in place. *)
Definition fuse (tile : Tile) (tileDepthList : SgmDepthList) : M unit :=
  (* copy rc depth data in page-locked host memory *)
  upload_depths 0 (getDepths tileDepthList) ;;
  (* copy rc depth data in device memory *)
  modify (fun e => set_depths_dmp (copyFrom (_depths_dmp e) (_depths_hmh e)) e) ;;
  (* compute best sim and second best sim volumes *)
  computeSimilarityVolumes tile tileDepthList ;;
  (* particular case with only one tc *)
  when (length (sgmTCams tile) <? 2)%nat
    (modify (fun e => set_volumeSecBestSim_dmp
                        (copyFrom (_volumeSecBestSim_dmp e) (_volumeBestSim_dmp e)) e)).

(** [sgmRc] from there to the final volume in [_volumeBestSim_dmp]. *)
Definition filter_volume (tile : Tile) (tileDepthList : SgmDepthList) : M unit :=
  e <- get_engine ;;
  when (exportIntermediateResults (_sgmParams e))
    (exportVolumeInformation (_volumeSecBestSim_dmp e) "beforeFiltering") ;;
  (if doSgmOptimizeVolume (_sgmParams e)
   then optimizeSimilarityVolume tile tileDepthList
   else modify (fun e => set_volumeBestSim_dmp
                           (copyFrom (_volumeBestSim_dmp e) (_volumeSecBestSim_dmp e)) e)) ;;
  e <- get_engine ;;
  when (exportIntermediateResults (_sgmParams e))
    (exportVolumeInformation (_volumeBestSim_dmp e) "afterFiltering").

(** The end of [sgmRc]: the depth/sim map. *)
Definition extract (tile : Tile) (tileDepthList : SgmDepthList) : M unit :=
  retrieveBestDepth tile tileDepthList ;;
  e <- get_engine ;;
  when (exportIntermediateResults (_sgmParams e))
    (emit (EvWriteDepthSimMap (_depthSimMap_dmp e))).

(** [Sgm::sgmRc]. *)
Definition sgmRc (tile : Tile) (tileDepthList : SgmDepthList) : M unit :=
  check_inputs tile tileDepthList ;;
  fuse tile tileDepthList ;;
  filter_volume tile tileDepthList ;;
  extract tile tileDepthList.

End WithKernels.

(** ** A concrete device and tile

    An instance of the device library and a small tile, on which the
    statements below are exercised: 8 x 6 pixel tiles, four depth
    hypotheses, rows padded to 512 bytes, [TSim = unsigned char] and
    [TSimAcc = unsigned int]. *)

Module Sample.

Definition pitch512 (rowBytes : Z) : Z := (rowBytes + 511) / 512 * 512.

Lemma pitch512_ge rowBytes : 0 <= rowBytes -> rowBytes <= pitch512 rowBytes.
Proof.
  intros _. unfold pitch512.
  pose proof (Z.div_mod (rowBytes + 511) 512 ltac:(lia)).
  pose proof (Z.mod_pos_bound (rowBytes + 511) 512 ltac:(lia)).
  lia.
Qed.

Definition roi_downscale (r : ROI) (downscale : Z) : ROI :=
  mkROI (mkRange (r_begin (roi_x r) / downscale) (ceil_div (r_end (roi_x r)) downscale))
        (mkRange (r_begin (roi_y r) / downscale) (ceil_div (r_end (roi_y r)) downscale)).

(** A deterministic cost in [0, 255). *)
Definition cost (rcCam tcCam : DeviceCamera) (p : SgmParams) (depths : list Z -> Q)
    (r : ROI) (idx : list Z) : TSim :=
  (dc_camId tcCam * 37 + fold_right Z.add 0 idx * 11) mod 255.

Definition kernels : DeviceKernels :=
  {| sizeof_TSim := 1;
     sizeof_TSimAcc := 4;
     sizeof_TSim_pos := ltac:(lia);
     sizeof_TSimAcc_pos := ltac:(lia);
     cudaPitch := pitch512;
     cudaPitch_ge := pitch512_ge;
     downscaleROI := roi_downscale;
     similarity := cost;
     aggregate := fun vol _ _ _ _ idx => vol idx;
     sweep_scratch := fun _ _ _ _ _ => (fun _ => 0, fun _ => 0, fun _ => 0);
     bestDepth := fun depths vol _ _ _ _ idx =>
                    (depths [0; 0], inject_Z (vol (idx ++ [0]))) |}.

Definition mp : MultiViewParams := mkMultiViewParams 3 (fun i => 100 + i).
Definition tileParams : TileParams := mkTileParams 8 6.
Definition sgmParams (optimize : bool) (sc : Z) : SgmParams :=
  mkSgmParams sc 1 4 optimize false "YX".
Definition device : Device := mkDevice (2 ^ 30) [].

(** The engine built for these parameters, on that device. *)
Definition world (optimize : bool) (sc : Z) : World :=
  let w0 := (@members kernels mp tileParams (sgmParams optimize sc)
               (fun _ => 0%Q) (fun _ => (0%Q, 0%Q)) (fun _ => 0), device) in
  match @Sgm_ctor kernels w0 with
  | Ok _ w => w
  | _ => w0
  end.

Definition tile (tcams : list Z) : Tile :=
  mkTile 0 1 0 tcams (mkROI (mkRange 0 8) (mkRange 0 6)).

Definition depthList : SgmDepthList :=
  mkSgmDepthList [1; 2; 3; 4]%Q [(0, 2); (1, 2)].

End Sample.

(** ** Specification vocabulary *)

(** The allocation shape of a buffer: everything but its cells. *)
Definition shape {A} (b : Buffer A) : MemorySpace * list Z * Z * Z :=
  (b_space b, b_size b, b_sizeof b, b_pitch b).

(** The shapes of the eight member buffers. *)
Definition layout (e : Sgm) : list (BufferId * (MemorySpace * list Z * Z * Z)) :=
  [(depths_hmh, shape (_depths_hmh e)); (depths_dmp, shape (_depths_dmp e));
   (depthSimMap_dmp, shape (_depthSimMap_dmp e));
   (volumeBestSim_dmp, shape (_volumeBestSim_dmp e));
   (volumeSecBestSim_dmp, shape (_volumeSecBestSim_dmp e));
   (volumeSliceAccA_dmp, shape (_volumeSliceAccA_dmp e));
   (volumeSliceAccB_dmp, shape (_volumeSliceAccB_dmp e));
   (volumeAxisAcc_dmp, shape (_volumeAxisAcc_dmp e))].


(** The cache keys requested by a run of events, in order, and as a set of
    cache entries. *)
Definition requests (evs : list Event) : list (Z * Z) :=
  omap (fun ev => match ev with EvRequestCamera c s => Some (c, s) | _ => None end) evs.

Definition entries_touched (evs : list Event) : gset (Z * Z) :=
  list_to_set (requests evs).

(** Does an event allocate a member buffer of the engine? *)
Definition allocates_member (ev : Event) : bool :=
  match ev with
  | EvAllocate b _ => bool_decide (b ∈ engine_buffers)
  | _ => false
  end.

(** [steady w w']: from [w] to [w'] the engine kept its parameters and the
    shape of every member buffer, the free device memory is the same, and
    the events issued in between allocate no member buffer. *)
Record steady (w w' : World) : Prop := mkSteady {
  steady_mp : _mp (fst w') = _mp (fst w);
  steady_tileParams : _tileParams (fst w') = _tileParams (fst w);
  steady_sgmParams : _sgmParams (fst w') = _sgmParams (fst w);
  steady_layout : layout (fst w') = layout (fst w);
  steady_mem : mem_free (snd w') = mem_free (snd w);
  steady_trace : exists evs, trace (snd w') = trace (snd w) ++ evs
                             /\ Forall (fun ev => allocates_member ev = false) evs
}.

(** A computation that is [steady] whenever it returns. *)
Definition keeps {A} (m : M A) : Prop :=
  forall w a w', m w = Ok a w' -> steady w w'.

(** A computation that never throws. *)
Definition no_throw {A} (m : M A) : Prop :=
  forall w e w', m w <> Thrown e w'.

(** The depth hypotheses fit the host staging buffer. *)
Definition depths_fit (size : list Z) (n : nat) : bool :=
  match size with
  | [w; h] => (Z.of_nat n <=? w) && (0 <? h)
  | _ => false
  end.

(** Every target camera has its depth limits, and their sum is an [int]. *)
Definition limits_ok (limits : list (Z * Z)) (tci n : nat) : bool :=
  forallb (fun k => match limits !! k with
                    | Some (x, y) => in_int (x + y)
                    | None => false
                    end) (seq tci n).

(** The inputs on which [sgmRc] stays within defined behaviour. *)
Definition well_formed (tile : Tile) (tileDepthList : SgmDepthList) (e : Sgm) : bool :=
  in_int (scale (_sgmParams e) * stepXY (_sgmParams e))
  && depths_fit (b_size (_depths_hmh e)) (length (getDepths tileDepthList))
  && limits_ok (getDepthsTcLimits tileDepthList) 0 (length (sgmTCams tile)).

(** The configurations of the external interface: [scale >= 1],
    [stepXY >= 1], [maxDepths > 0], a tile of nonnegative extents, every
    value an [int]. *)
Definition valid_config (tileParams : TileParams) (p : SgmParams) : bool :=
  (1 <=? scale p) && (1 <=? stepXY p) && (1 <=? maxDepths p)
  && (0 <=? width tileParams) && (0 <=? height tileParams)
  && in_int (scale p) && in_int (stepXY p) && in_int (maxDepths p)
  && in_int (width tileParams) && in_int (height tileParams)
  && in_int (scale p * stepXY p).

(** The same configuration, [doSgmOptimizeVolume] apart. *)
Definition with_optimize (b : bool) (p : SgmParams) : SgmParams :=
  mkSgmParams (scale p) (stepXY p) (maxDepths p) b
              (exportIntermediateResults p) (filteringAxes p).

(** Depth index [z] lies in the range of one of the first [n] target
    cameras. *)
Definition depth_covered (limits : list (Z * Z)) (n : nat) (z : Z) : bool :=
  existsb (fun k => match limits !! k with
                    | Some (x, y) => (x <=? z) && (z <? x + y)
                    | None => false
                    end) (seq 0 n).

(** A member update that touches neither the parameters nor a shape. *)
Definition shape_preserving (f : Sgm -> Sgm) : Prop :=
  forall e, _mp (f e) = _mp e /\ _tileParams (f e) = _tileParams e
            /\ _sgmParams (f e) = _sgmParams e /\ layout (f e) = layout e.

Section Turn.
Context `{DeviceKernels}.

(** One turn of the loop, as a function of the state. *)
Definition loop_turn (rcCam : DeviceCamera) (r : ROI) (tc x y : Z) (w : World) : World :=
  (let '(best, sec) :=
     cuda_volumeComputeSimilarity (_volumeBestSim_dmp (fst w)) (_volumeSecBestSim_dmp (fst w))
       (_depths_dmp (fst w)) rcCam (mkDeviceCamera tc (scale (_sgmParams (fst w))))
       (_sgmParams (fst w)) (mkRange x (x + y)) r in
   set_volumeSecBestSim_dmp sec (set_volumeBestSim_dmp best (fst w)),
   mkDevice (mem_free (snd w))
            (trace (snd w) ++ [EvRequestCamera tc (scale (_sgmParams (fst w)))])).

End Turn.

(** The bytes of device memory taken by the members of an engine. *)
Definition device_bytes (e : Sgm) : Z :=
  padded_bytes (_depths_dmp e) + padded_bytes (_depthSimMap_dmp e)
  + padded_bytes (_volumeBestSim_dmp e) + padded_bytes (_volumeSecBestSim_dmp e)
  + padded_bytes (_volumeSliceAccA_dmp e) + padded_bytes (_volumeSliceAccB_dmp e)
  + padded_bytes (_volumeAxisAcc_dmp e).

(** The allocations a construction issues, in order. *)
Definition planned (tileParams : TileParams) (p : SgmParams) : list (BufferId * list Z) :=
  let downscale := scale p * stepXY p in
  let maxTileWidth := ceil_div (width tileParams) downscale in
  let maxTileHeight := ceil_div (height tileParams) downscale in
  let maxTileSide := to_size_t (Z.max maxTileWidth maxTileHeight) in
  [(depths_hmh, [maxDepths p; 1]); (depths_dmp, [maxDepths p; 1]);
   (depthSimMap_dmp, [maxTileWidth; maxTileHeight]);
   (volumeBestSim_dmp, [maxTileWidth; maxTileHeight; maxDepths p]);
   (volumeSecBestSim_dmp, [maxTileWidth; maxTileHeight; maxDepths p])]
  ++ (if doSgmOptimizeVolume p
      then [(volumeSliceAccA_dmp, [maxTileSide; maxDepths p]);
            (volumeSliceAccB_dmp, [maxTileSide; maxDepths p]);
            (volumeAxisAcc_dmp, [maxTileSide; 1])]
      else []).

(** The bytes of all eight member buffers, host staging buffer included. *)
Definition ownedBytesPadded (e : Sgm) : Z :=
  getBytesPadded (_depths_hmh e) + getBytesPadded (_depths_dmp e)
  + getBytesPadded (_depthSimMap_dmp e) + getBytesPadded (_volumeBestSim_dmp e)
  + getBytesPadded (_volumeSecBestSim_dmp e) + getBytesPadded (_volumeSliceAccA_dmp e)
  + getBytesPadded (_volumeSliceAccB_dmp e) + getBytesPadded (_volumeAxisAcc_dmp e).

Definition ownedBytesUnpadded (e : Sgm) : Z :=
  getBytesUnpadded (_depths_hmh e) + getBytesUnpadded (_depths_dmp e)
  + getBytesUnpadded (_depthSimMap_dmp e) + getBytesUnpadded (_volumeBestSim_dmp e)
  + getBytesUnpadded (_volumeSecBestSim_dmp e) + getBytesUnpadded (_volumeSliceAccA_dmp e)
  + getBytesUnpadded (_volumeSliceAccB_dmp e) + getBytesUnpadded (_volumeAxisAcc_dmp e).

(** A buffer whose cells take no more bytes than its padded rows. *)
Definition tight {A} (b : Buffer A) : Prop :=
  0 <= unpadded_bytes b <= padded_bytes b.

(** The seven device members are [tight]. *)
Definition device_members_tight (e : Sgm) : Prop :=
  tight (_depths_dmp e) /\ tight (_depthSimMap_dmp e)
  /\ tight (_volumeBestSim_dmp e) /\ tight (_volumeSecBestSim_dmp e)
  /\ tight (_volumeSliceAccA_dmp e) /\ tight (_volumeSliceAccB_dmp e)
  /\ tight (_volumeAxisAcc_dmp e).

(** [issued w w' rs]: from [w] to [w'] the device trace grew by events
    whose camera requests are [rs], in that order. *)
Definition issued (w w' : World) (rs : list (Z * Z)) : Prop :=
  exists evs, trace (snd w') = trace (snd w) ++ evs /\ requests evs = rs.

(** *** Whole runs: what is written, what is issued *)

(** The cells of the staging buffer once the upload loop has stored
    [depths] from column [i] on, over the cells [old]. *)
Fixpoint staged (i : Z) (depths : list Q) (old : list Z -> Q) : list Z -> Q :=
  match depths with
  | [] => old
  | d :: rest =>
      staged (i + 1) rest (fun idx => if decide (idx = [i; 0]) then d else old idx)
  end.

(** Member [id] of [e'] is the buffer it is in [e], cells included. *)
Definition member_kept (id : BufferId) (e e' : Sgm) : Prop :=
  match id with
  | depths_hmh => _depths_hmh e' = _depths_hmh e
  | depths_dmp => _depths_dmp e' = _depths_dmp e
  | depthSimMap_dmp => _depthSimMap_dmp e' = _depthSimMap_dmp e
  | volumeBestSim_dmp => _volumeBestSim_dmp e' = _volumeBestSim_dmp e
  | volumeSecBestSim_dmp => _volumeSecBestSim_dmp e' = _volumeSecBestSim_dmp e
  | volumeSliceAccA_dmp => _volumeSliceAccA_dmp e' = _volumeSliceAccA_dmp e
  | volumeSliceAccB_dmp => _volumeSliceAccB_dmp e' = _volumeSliceAccB_dmp e
  | volumeAxisAcc_dmp => _volumeAxisAcc_dmp e' = _volumeAxisAcc_dmp e
  | volumeSim_hmh => True
  end.

(** A computation that, whenever it returns, has written no member buffer
    outside [ids]. *)
Definition writes_only {A} (ids : list BufferId) (m : M A) : Prop :=
  forall w a w', m w = Ok a w' ->
  forall id, id ∉ ids -> member_kept id (fst w) (fst w').



Section Runs.
Context `{DeviceKernels}.


(** The state a call of [sgmRc] leaves; the entry state if it does not
    return. *)
Definition after_sgmRc (tile : Tile) (tileDepthList : SgmDepthList) (w : World) : World :=
  match sgmRc tile tileDepthList w with
  | Ok _ w' => w'
  | _ => w
  end.

End Runs.

(** A tile one pixel wider than [2^24], where single precision has no
    odd integers, at full resolution on the sample device. *)
Module SampleWide.

Definition tileParams : TileParams := mkTileParams 16777217 1.

Definition world : World :=
  let w0 := (@members Sample.kernels Sample.mp tileParams (Sample.sgmParams false 1)
               (fun _ => 0%Q) (fun _ => (0%Q, 0%Q)) (fun _ => 0), Sample.device) in
  match @Sgm_ctor Sample.kernels w0 with
  | Ok _ w => w
  | _ => w0
  end.

End SampleWide.

(** The sample configuration with the diagnostic exports on. *)
Module SampleExport.

Definition sgmParams (optimize : bool) : SgmParams :=
  mkSgmParams 1 1 4 optimize true "YX".

Definition world (optimize : bool) : World :=
  let w0 := (@members Sample.kernels Sample.mp Sample.tileParams (sgmParams optimize)
               (fun _ => 0%Q) (fun _ => (0%Q, 0%Q)) (fun _ => 0), Sample.device) in
  match @Sgm_ctor Sample.kernels w0 with
  | Ok _ w => w
  | _ => w0
  end.

End SampleExport.

(** ** Reasoning about the monad *)

Section MonadLaws.
Context {A B : Type}.

Lemma bind_Ok (m : M A) (k : A -> M B) w a w1 :
  m w = Ok a w1 -> bind m k w = k a w1.
Proof. unfold bind. intros ->. reflexivity. Qed.

Lemma bind_Ok_inv (m : M A) (k : A -> M B) w b w2 :
  bind m k w = Ok b w2 -> exists a w1, m w = Ok a w1 /\ k a w1 = Ok b w2.
Proof.
  unfold bind. destruct (m w) as [a w1| |]; try discriminate.
  intros Hk. exists a, w1. split; [reflexivity | exact Hk].
Qed.

Lemma bind_Thrown_inv (m : M A) (k : A -> M B) w e w2 :
  bind m k w = Thrown e w2 ->
  m w = Thrown e w2 \/ exists a w1, m w = Ok a w1 /\ k a w1 = Thrown e w2.
Proof.
  unfold bind. destruct (m w) as [a w1|e' w1|]; try discriminate.
  - intros Hk. right. exists a, w1. split; [reflexivity | exact Hk].
  - intros Hk. left. inversion Hk; subst. reflexivity.
Qed.

End MonadLaws.

Lemma steady_refl w : steady w w.
Proof.
  constructor; try reflexivity.
  exists []. split; [symmetry; apply app_nil_r | constructor].
Qed.

Lemma steady_trans w1 w2 w3 : steady w1 w2 -> steady w2 w3 -> steady w1 w3.
Proof.
  intros [m1 t1 p1 l1 f1 (evs1 & Htr1 & Hev1)] [m2 t2 p2 l2 f2 (evs2 & Htr2 & Hev2)].
  constructor; try congruence.
  exists (evs1 ++ evs2). split.
  - rewrite Htr2, Htr1. symmetry. apply app_assoc.
  - apply Forall_app. split; assumption.
Qed.

(** *** [keeps] *)

Lemma keeps_ret {A} (a : A) : keeps (ret a).
Proof. intros w a' w' Heq. inversion Heq; subst. apply steady_refl. Qed.

Lemma keeps_undefined {A} : keeps (@undefined A).
Proof. intros w a w' Heq. discriminate. Qed.

Lemma keeps_throw {A} e : keeps (@throw A e).
Proof. intros w a w' Heq. discriminate. Qed.

Lemma keeps_bind {A B} (m : M A) (k : A -> M B) :
  keeps m -> (forall a, keeps (k a)) -> keeps (bind m k).
Proof.
  intros Hm Hk w b w2 Heq.
  apply bind_Ok_inv in Heq as (a & w1 & Hm1 & Hk1).
  eapply steady_trans; [eapply Hm | eapply Hk]; eassumption.
Qed.

Lemma keeps_get_engine : keeps get_engine.
Proof. intros w a w' Heq. inversion Heq; subst. apply steady_refl. Qed.

Lemma keeps_get_device : keeps get_device.
Proof. intros w a w' Heq. inversion Heq; subst. apply steady_refl. Qed.

Lemma keeps_int_op z : keeps (int_op z).
Proof. unfold int_op. destruct (in_int z); [apply keeps_ret | apply keeps_undefined]. Qed.

Lemma keeps_when b m : keeps m -> keeps (when b m).
Proof. intros Hm. destruct b; [exact Hm | apply keeps_ret]. Qed.

Lemma keeps_emit ev : allocates_member ev = false -> keeps (emit ev).
Proof.
  intros Hev [e d] a w' Heq. unfold emit, bind, get_device, put_device in Heq.
  simpl in Heq. inversion Heq; subst. constructor; try reflexivity.
  exists [ev]. split; [reflexivity | constructor; [exact Hev | constructor]].
Qed.

Lemma keeps_modify f : shape_preserving f -> keeps (modify f).
Proof.
  intros Hf [e d] a w' Heq. unfold modify, bind, get_engine, put_engine in Heq.
  simpl in Heq. inversion Heq; subst.
  destruct (Hf e) as (? & ? & ? & ?).
  constructor; simpl; try assumption; try reflexivity.
  exists []. split; [symmetry; apply app_nil_r | constructor].
Qed.

(** *** [no_throw] *)

Lemma no_throw_ret {A} (a : A) : no_throw (ret a).
Proof. intros w e w'. discriminate. Qed.

Lemma no_throw_undefined {A} : no_throw (@undefined A).
Proof. intros w e w'. discriminate. Qed.

Lemma no_throw_bind {A B} (m : M A) (k : A -> M B) :
  no_throw m -> (forall a, no_throw (k a)) -> no_throw (bind m k).
Proof.
  intros Hm Hk w e w2 Heq.
  apply bind_Thrown_inv in Heq as [Heq | (a & w1 & _ & Heq)].
  - exact (Hm _ _ _ Heq).
  - exact (Hk _ _ _ _ Heq).
Qed.

Lemma no_throw_get_engine : no_throw get_engine.
Proof. intros w e w'. discriminate. Qed.

Lemma no_throw_get_device : no_throw get_device.
Proof. intros w e w'. discriminate. Qed.

Lemma no_throw_put_engine e : no_throw (put_engine e).
Proof. intros w e' w'. discriminate. Qed.

Lemma no_throw_put_device d : no_throw (put_device d).
Proof. intros w e' w'. discriminate. Qed.

Lemma no_throw_int_op z : no_throw (int_op z).
Proof. unfold int_op. destruct (in_int z); [apply no_throw_ret | apply no_throw_undefined]. Qed.

Lemma no_throw_when b m : no_throw m -> no_throw (when b m).
Proof. intros Hm. destruct b; [exact Hm | apply no_throw_ret]. Qed.

Lemma no_throw_modify f : no_throw (modify f).
Proof.
  apply no_throw_bind; [apply no_throw_get_engine | intros; apply no_throw_put_engine].
Qed.

Lemma no_throw_emit ev : no_throw (emit ev).
Proof.
  apply no_throw_bind; [apply no_throw_get_device | intros; apply no_throw_put_device].
Qed.

Create HintDb sgm discriminated.
#[export] Hint Resolve keeps_ret keeps_undefined keeps_throw keeps_get_engine
  keeps_get_device keeps_int_op keeps_when : sgm.
#[export] Hint Resolve no_throw_ret no_throw_undefined no_throw_get_engine
  no_throw_get_device no_throw_put_engine no_throw_put_device no_throw_int_op
  no_throw_when no_throw_modify no_throw_emit no_throw_bind : sgm.

(** ** The pipeline keeps the engine's layout and never throws past its guard *)

Section Pipeline.
Context `{DeviceKernels}.

Ltac shape_preserving :=
  let e := fresh "e" in
  intros e; repeat split; reflexivity.

Ltac case_if :=
  match goal with
  | |- context [if ?c then _ else _] => destruct c
  end.

Lemma keeps_requestCamera c s : keeps (requestCamera c s).
Proof.
  unfold requestCamera. apply keeps_bind; [apply keeps_emit; reflexivity | intros; apply keeps_ret].
Qed.

Lemma no_throw_requestCamera c s : no_throw (requestCamera c s).
Proof. unfold requestCamera. apply no_throw_bind; auto with sgm. Qed.

Lemma keeps_upload_depths depths : forall i, keeps (upload_depths i depths).
Proof.
  induction depths as [|d rest IH]; intros i; simpl; [apply keeps_ret|].
  apply keeps_bind; [apply keeps_get_engine | intros e].
  case_if; [|apply keeps_undefined].
  apply keeps_bind; [apply keeps_modify; shape_preserving | intros; apply IH].
Qed.

Lemma no_throw_upload_depths depths : forall i, no_throw (upload_depths i depths).
Proof.
  induction depths as [|d rest IH]; intros i; simpl; [apply no_throw_ret|].
  apply no_throw_bind; [apply no_throw_get_engine | intros e].
  case_if; [|apply no_throw_undefined].
  apply no_throw_bind; [apply no_throw_modify | intros; apply IH].
Qed.

Lemma keeps_similarity_loop dl rcCam r tcams :
  forall tci, keeps (similarity_loop dl rcCam r tci tcams).
Proof.
  induction tcams as [|tc rest IH]; intros tci; simpl; [apply keeps_ret|].
  destruct (getDepthsTcLimits dl !! tci) as [[x y]|]; [|apply keeps_undefined].
  apply keeps_bind; [apply keeps_int_op | intros lastDepth].
  apply keeps_bind; [apply keeps_get_engine | intros e].
  apply keeps_bind; [apply keeps_requestCamera | intros tcCam].
  apply keeps_bind; [apply keeps_modify; shape_preserving | intros; apply IH].
Qed.

Lemma no_throw_similarity_loop dl rcCam r tcams :
  forall tci, no_throw (similarity_loop dl rcCam r tci tcams).
Proof.
  induction tcams as [|tc rest IH]; intros tci; simpl; [apply no_throw_ret|].
  destruct (getDepthsTcLimits dl !! tci) as [[x y]|]; [|apply no_throw_undefined].
  apply no_throw_bind; [apply no_throw_int_op | intros lastDepth].
  apply no_throw_bind; [apply no_throw_get_engine | intros e].
  apply no_throw_bind; [apply no_throw_requestCamera | intros tcCam].
  apply no_throw_bind; [apply no_throw_modify | intros; apply IH].
Qed.

Lemma keeps_initialize_volumes tile : keeps (initialize_volumes tile).
Proof.
  unfold initialize_volumes.
  apply keeps_bind; [apply keeps_get_engine | intros e].
  apply keeps_bind; [apply keeps_int_op | intros ds].
  apply keeps_bind; [apply keeps_modify; shape_preserving | intros _].
  apply keeps_bind; [apply keeps_modify; shape_preserving | intros _].
  apply keeps_ret.
Qed.

Lemma no_throw_initialize_volumes tile : no_throw (initialize_volumes tile).
Proof. unfold initialize_volumes. repeat (apply no_throw_bind; [auto with sgm | intros]). auto with sgm. Qed.

Lemma keeps_computeSimilarityVolumes tile dl : keeps (computeSimilarityVolumes tile dl).
Proof.
  unfold computeSimilarityVolumes.
  apply keeps_bind; [apply keeps_initialize_volumes | intros r].
  apply keeps_bind; [apply keeps_get_engine | intros e].
  apply keeps_bind; [apply keeps_requestCamera | intros rcCam].
  apply keeps_similarity_loop.
Qed.

Lemma no_throw_computeSimilarityVolumes tile dl : no_throw (computeSimilarityVolumes tile dl).
Proof.
  unfold computeSimilarityVolumes.
  apply no_throw_bind; [apply no_throw_initialize_volumes | intros r].
  apply no_throw_bind; [apply no_throw_get_engine | intros e].
  apply no_throw_bind; [apply no_throw_requestCamera | intros rcCam].
  apply no_throw_similarity_loop.
Qed.

Lemma keeps_optimizeSimilarityVolume tile dl : keeps (optimizeSimilarityVolume tile dl).
Proof.
  unfold optimizeSimilarityVolume.
  apply keeps_bind; [apply keeps_get_engine | intros e].
  apply keeps_bind; [apply keeps_int_op | intros ds].
  apply keeps_bind; [apply keeps_requestCamera | intros rcCam].
  apply keeps_modify. intros e'. unfold cuda_volumeOptimize.
  destruct (sweep_scratch _ _ _ _ _) as [[a b] x]. repeat split; reflexivity.
Qed.

Lemma no_throw_optimizeSimilarityVolume tile dl : no_throw (optimizeSimilarityVolume tile dl).
Proof.
  unfold optimizeSimilarityVolume.
  apply no_throw_bind; [apply no_throw_get_engine | intros e].
  apply no_throw_bind; [apply no_throw_int_op | intros ds].
  apply no_throw_bind; [apply no_throw_requestCamera | intros rcCam].
  apply no_throw_modify.
Qed.

Lemma keeps_retrieveBestDepth tile dl : keeps (retrieveBestDepth tile dl).
Proof.
  unfold retrieveBestDepth.
  apply keeps_bind; [apply keeps_get_engine | intros e].
  apply keeps_bind; [apply keeps_int_op | intros ds].
  apply keeps_bind; [apply keeps_requestCamera | intros rcCam].
  apply keeps_modify; shape_preserving.
Qed.

Lemma no_throw_retrieveBestDepth tile dl : no_throw (retrieveBestDepth tile dl).
Proof.
  unfold retrieveBestDepth.
  apply no_throw_bind; [apply no_throw_get_engine | intros e].
  apply no_throw_bind; [apply no_throw_int_op | intros ds].
  apply no_throw_bind; [apply no_throw_requestCamera | intros rcCam].
  apply no_throw_modify.
Qed.

Lemma keeps_exportVolumeInformation v name : keeps (exportVolumeInformation v name).
Proof.
  unfold exportVolumeInformation, allocate. simpl.
  apply keeps_bind.
  - apply keeps_bind; [apply keeps_emit; reflexivity | intros; apply keeps_ret].
  - intros b. repeat (apply keeps_bind; [apply keeps_emit; reflexivity | intros]).
    apply keeps_emit; reflexivity.
Qed.

Lemma no_throw_exportVolumeInformation v name : no_throw (exportVolumeInformation v name).
Proof.
  unfold exportVolumeInformation, allocate. simpl. auto 10 with sgm.
Qed.

Lemma keeps_fuse tile dl : keeps (fuse tile dl).
Proof.
  unfold fuse.
  apply keeps_bind; [apply keeps_upload_depths | intros _].
  apply keeps_bind; [apply keeps_modify; shape_preserving | intros _].
  apply keeps_bind; [apply keeps_computeSimilarityVolumes | intros _].
  apply keeps_when, keeps_modify; shape_preserving.
Qed.

Lemma no_throw_fuse tile dl : no_throw (fuse tile dl).
Proof.
  unfold fuse.
  apply no_throw_bind; [apply no_throw_upload_depths | intros _].
  apply no_throw_bind; [apply no_throw_modify | intros _].
  apply no_throw_bind; [apply no_throw_computeSimilarityVolumes | intros _].
  apply no_throw_when, no_throw_modify.
Qed.

Lemma keeps_filter_volume tile dl : keeps (filter_volume tile dl).
Proof.
  unfold filter_volume.
  apply keeps_bind; [apply keeps_get_engine | intros e].
  apply keeps_bind; [apply keeps_when, keeps_exportVolumeInformation | intros _].
  apply keeps_bind.
  - destruct (doSgmOptimizeVolume _).
    + apply keeps_optimizeSimilarityVolume.
    + apply keeps_modify; shape_preserving.
  - intros _. apply keeps_bind; [apply keeps_get_engine | intros e'].
    apply keeps_when, keeps_exportVolumeInformation.
Qed.

Lemma no_throw_filter_volume tile dl : no_throw (filter_volume tile dl).
Proof.
  unfold filter_volume.
  apply no_throw_bind; [apply no_throw_get_engine | intros e].
  apply no_throw_bind; [apply no_throw_when, no_throw_exportVolumeInformation | intros _].
  apply no_throw_bind.
  - destruct (doSgmOptimizeVolume _).
    + apply no_throw_optimizeSimilarityVolume.
    + apply no_throw_modify.
  - intros _. apply no_throw_bind; [apply no_throw_get_engine | intros e'].
    apply no_throw_when, no_throw_exportVolumeInformation.
Qed.

Lemma keeps_extract tile dl : keeps (extract tile dl).
Proof.
  unfold extract.
  apply keeps_bind; [apply keeps_retrieveBestDepth | intros _].
  apply keeps_bind; [apply keeps_get_engine | intros e].
  apply keeps_when, keeps_emit; reflexivity.
Qed.

Lemma no_throw_extract tile dl : no_throw (extract tile dl).
Proof.
  unfold extract.
  apply no_throw_bind; [apply no_throw_retrieveBestDepth | intros _].
  apply no_throw_bind; [apply no_throw_get_engine | intros e].
  apply no_throw_when, no_throw_emit.
Qed.

Lemma keeps_check_inputs tile dl : keeps (check_inputs tile dl).
Proof.
  unfold check_inputs.
  apply keeps_bind; [apply keeps_get_engine | intros e].
  destruct (_ || _); [apply keeps_throw | apply keeps_ret].
Qed.

Lemma keeps_sgmRc tile dl : keeps (sgmRc tile dl).
Proof.
  unfold sgmRc.
  apply keeps_bind; [apply keeps_check_inputs | intros _].
  apply keeps_bind; [apply keeps_fuse | intros _].
  apply keeps_bind; [apply keeps_filter_volume | intros _].
  apply keeps_extract.
Qed.

End Pipeline.

(** ** Running the pipeline on well formed inputs *)

Lemma modify_eq f w : modify f w = Ok tt (f (fst w), snd w).
Proof. reflexivity. Qed.

Lemma emit_eq ev w :
  emit ev w = Ok tt (fst w, mkDevice (mem_free (snd w)) (trace (snd w) ++ [ev])).
Proof. reflexivity. Qed.

Lemma bind_get_engine {A} (k : Sgm -> M A) w : bind get_engine k w = k (fst w) w.
Proof. reflexivity. Qed.

Lemma int_op_eq z w : in_int z = true -> int_op z w = Ok z w.
Proof. unfold int_op. intros ->. reflexivity. Qed.

Lemma steady_hmh_size w w' :
  steady w w' -> b_size (_depths_hmh (fst w')) = b_size (_depths_hmh (fst w)).
Proof. intros [_ _ _ Hl _ _]. unfold layout, shape in Hl. congruence. Qed.

Lemma limits_ok_S limits tci n :
  limits_ok limits tci (S n) =
  match limits !! tci with
  | Some (x, y) => in_int (x + y)
  | None => false
  end && limits_ok limits (S tci) n.
Proof. reflexivity. Qed.

Section Defined.
Context `{DeviceKernels}.

Lemma requestCamera_eq c s w :
  requestCamera c s w =
  Ok (mkDeviceCamera c s)
     (fst w, mkDevice (mem_free (snd w)) (trace (snd w) ++ [EvRequestCamera c s])).
Proof. reflexivity. Qed.

Lemma upload_depths_defined depths : forall i w n h,
  b_size (_depths_hmh (fst w)) = [n; h] ->
  0 <= i -> i + Z.of_nat (length depths) <= n -> 0 < h ->
  exists w', upload_depths i depths w = Ok tt w'.
Proof.
  induction depths as [|d rest IH]; intros i w n h Hsize Hi Hn Hh; simpl.
  - exists w. reflexivity.
  - simpl length in Hn.
    unfold bind at 1. unfold get_engine. rewrite Hsize. simpl in_bounds.
    match goal with
    | |- context [if ?c then _ else _] =>
        assert (Hc : c = true) by (rewrite !andb_true_iff; repeat split; lia);
        rewrite Hc
    end.
    erewrite bind_Ok by apply modify_eq.
    eapply (IH (i + 1) _ n h); simpl; try lia. exact Hsize.
Qed.

Lemma similarity_loop_defined dl rcCam r tcams : forall tci w,
  limits_ok (getDepthsTcLimits dl) tci (length tcams) = true ->
  exists w', similarity_loop dl rcCam r tci tcams w = Ok tt w'.
Proof.
  induction tcams as [|tc rest IH]; intros tci w Hok; simpl.
  - exists w. reflexivity.
  - simpl length in Hok. rewrite limits_ok_S in Hok.
    apply andb_true_iff in Hok as [Hhd Htl].
    destruct (getDepthsTcLimits dl !! tci) as [[x y]|]; [|discriminate].
    erewrite bind_Ok by (apply int_op_eq; exact Hhd).
    unfold bind at 1, get_engine.
    erewrite bind_Ok by apply requestCamera_eq.
    erewrite bind_Ok by apply modify_eq.
    apply IH. exact Htl.
Qed.

Lemma initialize_volumes_eq tile w :
  in_int (scale (_sgmParams (fst w)) * stepXY (_sgmParams (fst w))) = true ->
  initialize_volumes tile w =
  Ok (downscaleROI (roi tile) (scale (_sgmParams (fst w)) * stepXY (_sgmParams (fst w))))
     (set_volumeSecBestSim_dmp (cuda_volumeInitialize (_volumeSecBestSim_dmp (fst w)) 255)
        (set_volumeBestSim_dmp (cuda_volumeInitialize (_volumeBestSim_dmp (fst w)) 255)
           (fst w)), snd w).
Proof.
  intros Hint. unfold initialize_volumes.
  unfold bind at 1, get_engine.
  erewrite bind_Ok by (apply int_op_eq; exact Hint).
  reflexivity.
Qed.

Lemma computeSimilarityVolumes_defined tile dl w :
  in_int (scale (_sgmParams (fst w)) * stepXY (_sgmParams (fst w))) = true ->
  limits_ok (getDepthsTcLimits dl) 0 (length (sgmTCams tile)) = true ->
  exists w', computeSimilarityVolumes tile dl w = Ok tt w'.
Proof.
  intros Hint Hok. unfold computeSimilarityVolumes.
  erewrite bind_Ok by (apply initialize_volumes_eq; exact Hint).
  unfold bind at 1, get_engine.
  erewrite bind_Ok by apply requestCamera_eq.
  apply similarity_loop_defined. exact Hok.
Qed.

Lemma well_formed_steady tile dl w w' :
  steady w w' -> well_formed tile dl (fst w') = well_formed tile dl (fst w).
Proof.
  intros Hs. unfold well_formed.
  rewrite (steady_hmh_size _ _ Hs), (steady_sgmParams _ _ Hs). reflexivity.
Qed.

Lemma well_formed_inv tile dl e :
  well_formed tile dl e = true ->
  in_int (scale (_sgmParams e) * stepXY (_sgmParams e)) = true
  /\ (exists n h, b_size (_depths_hmh e) = [n; h]
                  /\ Z.of_nat (length (getDepths dl)) <= n /\ 0 < h)
  /\ limits_ok (getDepthsTcLimits dl) 0 (length (sgmTCams tile)) = true.
Proof.
  unfold well_formed, depths_fit. rewrite !andb_true_iff.
  intros [[Hint Hfit] Hlim]. repeat split; try assumption.
  destruct (b_size (_depths_hmh e)) as [|n [|h [|]]]; try discriminate.
  apply andb_true_iff in Hfit as [Hn Hh]. exists n, h. repeat split; lia.
Qed.

(** On well formed inputs the fusion stage returns. *)
Lemma fuse_defined tile dl w :
  well_formed tile dl (fst w) = true ->
  exists w', fuse tile dl w = Ok tt w'.
Proof.
  intros Hwf. destruct (well_formed_inv _ _ _ Hwf) as (_ & (n & h & Hsize & Hn & Hh) & _).
  destruct (upload_depths_defined (getDepths dl) 0 w n h Hsize) as [w1 Hup]; try lia.
  pose proof (keeps_upload_depths _ _ _ _ _ Hup) as Hs1.
  unfold fuse. erewrite bind_Ok by exact Hup.
  erewrite bind_Ok by apply modify_eq.
  set (w2 := (_, snd w1)).
  assert (Hs2 : steady w1 w2).
  { apply (keeps_modify (fun e => set_depths_dmp (copyFrom (_depths_dmp e) (_depths_hmh e)) e))
      with (a := tt); [intros e; repeat split; reflexivity | reflexivity]. }
  assert (Hwf2 : well_formed tile dl (fst w2) = true).
  { rewrite (well_formed_steady _ _ _ _ Hs2), (well_formed_steady _ _ _ _ Hs1). exact Hwf. }
  destruct (well_formed_inv _ _ _ Hwf2) as (Hint & _ & Hlim).
  destruct (computeSimilarityVolumes_defined tile dl w2 Hint Hlim) as [w3 Hc].
  erewrite bind_Ok by exact Hc.
  unfold when. destruct (_ <? _)%nat; [rewrite modify_eq|]; eexists; reflexivity.
Qed.

End Defined.

(** ** The guard of [sgmRc] *)

Section Guard.
Context `{DeviceKernels}.

(** C1.  [sgmRc] throws if and only if the tile has no target camera or
    the depth list is empty; the error names the view, and the state
    carried by the throw is the state [sgmRc] was entered with: no buffer
    of the engine was written and nothing was issued to the device. *)
Theorem sgmRc_throws_iff_no_inputs (tile : Tile) (dl : SgmDepthList) (w : World) :
  ((exists e w', sgmRc tile dl w = Thrown e w')
   <-> (sgmTCams tile = [] \/ getDepths dl = []))
  /\ (forall e w', sgmRc tile dl w = Thrown e w' ->
        w' = w /\ e = NoDepthsOrNoTCams (getViewId (_mp (fst w)) (rc tile))).
Proof.
  assert (Hrest : no_throw (fuse tile dl ;; filter_volume tile dl ;; extract tile dl)).
  { apply no_throw_bind; [apply no_throw_fuse | intros _].
    apply no_throw_bind; [apply no_throw_filter_volume | intros _].
    apply no_throw_extract. }
  unfold sgmRc, check_inputs.
  unfold bind at 1. unfold bind at 1. unfold get_engine.
  destruct (sgmTCams tile) as [|tc tcams]; [|destruct (getDepths dl) as [|d depths]]; simpl.
  - split.
    + split; [intros _; left; reflexivity | intros _; eauto].
    + intros e w' Heq. inversion Heq; subst. split; reflexivity.
  - split.
    + split; [intros _; right; reflexivity | intros _; eauto].
    + intros e w' Heq. inversion Heq; subst. split; reflexivity.
  - split.
    + split.
      * intros (e & w' & Heq). exfalso. exact (Hrest _ _ _ Heq).
      * intros [Hc | Hc]; discriminate.
    + intros e w' Heq. exfalso. exact (Hrest _ _ _ Heq).
Qed.

End Guard.

(** ** The fused volumes *)

Section Fusion.
Context `{DeviceKernels}.

(** C2.  With exactly one target camera, on well formed inputs, the fusion
    stage of [sgmRc] returns, and in the state it leaves (the one the
    filtering and the extraction start from) the second best volume equals
    the best volume cell for cell. *)
Theorem single_tc_secBest_equals_best (tile : Tile) (dl : SgmDepthList) (w : World) :
  length (sgmTCams tile) = 1%nat ->
  getDepths dl <> [] ->
  well_formed tile dl (fst w) = true ->
  exists w',
    fuse tile dl w = Ok tt w'
    /\ sgmRc tile dl w = (filter_volume tile dl ;; extract tile dl) w'
    /\ forall idx, b_data (_volumeSecBestSim_dmp (fst w')) idx
                   = b_data (_volumeBestSim_dmp (fst w')) idx.
Proof.
  intros Hone Hdepths Hwf.
  destruct (fuse_defined tile dl w Hwf) as [w' Hfuse].
  exists w'. split; [exact Hfuse|]. split.
  - unfold sgmRc, check_inputs. unfold bind at 1. unfold bind at 1. unfold get_engine.
    destruct (sgmTCams tile) as [|tc tcams]; [discriminate|].
    destruct (getDepths dl) as [|d depths]; [contradiction|]. simpl.
    exact (bind_Ok (fuse tile dl) (fun _ => filter_volume tile dl ;; extract tile dl)
             w tt w' Hfuse).
  - unfold fuse in Hfuse.
    apply bind_Ok_inv in Hfuse as (? & w1 & _ & Hfuse).
    apply bind_Ok_inv in Hfuse as (? & w2 & _ & Hfuse).
    apply bind_Ok_inv in Hfuse as (? & w3 & _ & Hfuse).
    rewrite Hone in Hfuse. simpl in Hfuse. rewrite modify_eq in Hfuse.
    inversion Hfuse; subst. intros idx. reflexivity.
Qed.

End Fusion.

(** C2 on the sample tile with the single target camera 1. *)
Lemma single_tc_secBest_equals_best_sample :
  exists w',
    @fuse Sample.kernels (Sample.tile [1]) Sample.depthList (Sample.world false 1) = Ok tt w'
    /\ @sgmRc Sample.kernels (Sample.tile [1]) Sample.depthList (Sample.world false 1)
       = (@filter_volume Sample.kernels (Sample.tile [1]) Sample.depthList ;;
          @extract Sample.kernels (Sample.tile [1]) Sample.depthList) w'
    /\ forall idx, b_data (_volumeSecBestSim_dmp (fst w')) idx
                   = b_data (_volumeBestSim_dmp (fst w')) idx.
Proof.
  apply (@single_tc_secBest_equals_best Sample.kernels).
  - reflexivity.
  - discriminate.
  - vm_compute. reflexivity.
Defined.

(** ** From the fused volumes to the depth/sim map *)

Section Filtering.
Context `{DeviceKernels}.

Lemma exportVolumeInformation_defined v name w :
  exists d', exportVolumeInformation v name w = Ok tt (fst w, d').
Proof.
  unfold exportVolumeInformation, allocate, unallocated, bind, emit,
    get_device, put_device, ret.
  simpl. eexists. reflexivity.
Qed.

Lemma when_export_defined b v name w :
  exists d', when b (exportVolumeInformation v name) w = Ok tt (fst w, d').
Proof.
  destruct b; simpl; [apply exportVolumeInformation_defined|].
  exists (snd w). destruct w; reflexivity.
Qed.

(** Without optimization the filtering step copies the second best volume
    into the best volume and changes no other member. *)
Lemma filter_volume_passthrough tile dl w :
  doSgmOptimizeVolume (_sgmParams (fst w)) = false ->
  exists d',
    filter_volume tile dl w =
    Ok tt (set_volumeBestSim_dmp
             (copyFrom (_volumeBestSim_dmp (fst w)) (_volumeSecBestSim_dmp (fst w)))
             (fst w), d').
Proof.
  intros Hopt. unfold filter_volume.
  rewrite bind_get_engine, Hopt.
  destruct (when_export_defined (exportIntermediateResults (_sgmParams (fst w)))
              (_volumeSecBestSim_dmp (fst w)) "beforeFiltering" w) as [d1 H1].
  erewrite bind_Ok by exact H1.
  erewrite bind_Ok by apply modify_eq.
  rewrite bind_get_engine.
  match goal with
  | |- context [when ?b (exportVolumeInformation ?v ?n) ?w1] =>
      destruct (when_export_defined b v n w1) as [d2 H2]
  end.
  exists d2. exact H2.
Qed.

Lemma retrieveBestDepth_defined tile dl w :
  in_int (scale (_sgmParams (fst w)) * stepXY (_sgmParams (fst w))) = true ->
  exists d',
    retrieveBestDepth tile dl w =
    Ok tt (set_depthSimMap_dmp
             (cuda_volumeRetrieveBestDepth (_depthSimMap_dmp (fst w)) (_depths_dmp (fst w))
                (_volumeBestSim_dmp (fst w)) (mkDeviceCamera (rc tile) 1)
                (_sgmParams (fst w))
                (mkRange 0 (Z.of_nat (length (getDepths dl))))
                (downscaleROI (roi tile)
                   (scale (_sgmParams (fst w)) * stepXY (_sgmParams (fst w)))))
             (fst w), d').
Proof.
  intros Hint. unfold retrieveBestDepth.
  unfold bind at 1. unfold get_engine.
  erewrite bind_Ok by (apply int_op_eq; exact Hint).
  eexists. reflexivity.
Qed.

Lemma extract_defined tile dl w :
  in_int (scale (_sgmParams (fst w)) * stepXY (_sgmParams (fst w))) = true ->
  exists d',
    extract tile dl w =
    Ok tt (set_depthSimMap_dmp
             (cuda_volumeRetrieveBestDepth (_depthSimMap_dmp (fst w)) (_depths_dmp (fst w))
                (_volumeBestSim_dmp (fst w)) (mkDeviceCamera (rc tile) 1)
                (_sgmParams (fst w))
                (mkRange 0 (Z.of_nat (length (getDepths dl))))
                (downscaleROI (roi tile)
                   (scale (_sgmParams (fst w)) * stepXY (_sgmParams (fst w)))))
             (fst w), d').
Proof.
  intros Hint. unfold extract.
  destruct (retrieveBestDepth_defined tile dl w Hint) as [d1 Hr].
  erewrite bind_Ok by exact Hr.
  unfold bind at 1. unfold get_engine. cbv beta iota.
  destruct (exportIntermediateResults _); simpl; eexists; reflexivity.
Qed.

Lemma sgmRc_after_guard tile dl w :
  sgmTCams tile <> [] -> getDepths dl <> [] ->
  sgmRc tile dl w = (fuse tile dl ;; filter_volume tile dl ;; extract tile dl) w.
Proof.
  intros Htc Hd. unfold sgmRc, check_inputs.
  unfold bind at 1. unfold bind at 1. unfold get_engine.
  destruct (sgmTCams tile); [contradiction|].
  destruct (getDepths dl); [contradiction|]. reflexivity.
Qed.

(** C3.  With [doSgmOptimizeVolume] off, on well formed inputs, [sgmRc]
    returns; the best volume it ends with, which is the volume the depth
    retrieval read, equals cell for cell the second best volume left by
    the fusion stage, and the depth/sim map is the one the retrieval
    kernel computes from that fused second best volume. *)
Theorem disabled_optimization_is_a_copy (tile : Tile) (dl : SgmDepthList) (w : World) :
  doSgmOptimizeVolume (_sgmParams (fst w)) = false ->
  sgmTCams tile <> [] ->
  getDepths dl <> [] ->
  well_formed tile dl (fst w) = true ->
  exists fused w',
    fuse tile dl w = Ok tt fused
    /\ sgmRc tile dl w = Ok tt w'
    /\ (forall idx, b_data (_volumeBestSim_dmp (fst w')) idx
                    = b_data (_volumeSecBestSim_dmp (fst fused)) idx)
    /\ _depthSimMap_dmp (fst w')
       = cuda_volumeRetrieveBestDepth (_depthSimMap_dmp (fst fused))
           (_depths_dmp (fst fused)) (_volumeSecBestSim_dmp (fst fused))
           (mkDeviceCamera (rc tile) 1) (_sgmParams (fst w))
           (mkRange 0 (Z.of_nat (length (getDepths dl))))
           (downscaleROI (roi tile)
              (scale (_sgmParams (fst w)) * stepXY (_sgmParams (fst w)))).
Proof.
  intros Hopt Htc Hd Hwf.
  destruct (fuse_defined tile dl w Hwf) as [fused Hfuse].
  pose proof (keeps_fuse _ _ _ _ _ Hfuse) as Hs.
  pose proof (steady_sgmParams _ _ Hs) as Hp.
  destruct (filter_volume_passthrough tile dl fused) as [d1 Hfilter].
  { rewrite Hp. exact Hopt. }
  destruct (well_formed_inv _ _ _ Hwf) as (Hint & _ & _).
  match type of Hfilter with _ = Ok tt ?w1 =>
    destruct (extract_defined tile dl w1) as [d2 Hextract]
  end.
  { simpl. rewrite Hp. exact Hint. }
  eexists fused, _. split; [exact Hfuse|]. split.
  - rewrite sgmRc_after_guard by assumption.
    erewrite bind_Ok by exact Hfuse.
    erewrite bind_Ok by exact Hfilter.
    exact Hextract.
  - simpl. rewrite Hp. split; [intros idx|]; reflexivity.
Qed.

End Filtering.

(** C3 on the sample tile, two target cameras, optimization off. *)
Lemma disabled_optimization_is_a_copy_sample :
  exists fused w',
    @fuse Sample.kernels (Sample.tile [1; 2]) Sample.depthList (Sample.world false 1)
    = Ok tt fused
    /\ @sgmRc Sample.kernels (Sample.tile [1; 2]) Sample.depthList (Sample.world false 1)
       = Ok tt w'
    /\ (forall idx, b_data (_volumeBestSim_dmp (fst w')) idx
                    = b_data (_volumeSecBestSim_dmp (fst fused)) idx)
    /\ _depthSimMap_dmp (fst w')
       = @cuda_volumeRetrieveBestDepth Sample.kernels (_depthSimMap_dmp (fst fused))
           (_depths_dmp (fst fused)) (_volumeSecBestSim_dmp (fst fused))
           (mkDeviceCamera 0 1) (Sample.sgmParams false 1) (mkRange 0 4)
           (Sample.roi_downscale (mkROI (mkRange 0 8) (mkRange 0 6)) 1).
Proof.
  apply (@disabled_optimization_is_a_copy Sample.kernels (Sample.tile [1; 2])
           Sample.depthList (Sample.world false 1)).
  - reflexivity.
  - discriminate.
  - discriminate.
  - vm_compute. reflexivity.
Defined.

(** ** The similarity volumes after the loop over the target cameras *)

Section Volumes.
Context `{DeviceKernels}.

Lemma similarity_loop_cons dl rcCam r tci tc rest w w' :
  similarity_loop dl rcCam r tci (tc :: rest) w = Ok tt w' ->
  exists x y,
    getDepthsTcLimits dl !! tci = Some (x, y)
    /\ similarity_loop dl rcCam r (S tci) rest (loop_turn rcCam r tc x y w) = Ok tt w'.
Proof.
  simpl. destruct (getDepthsTcLimits dl !! tci) as [[x y]|]; [|discriminate].
  intros Hrun. exists x, y. split; [reflexivity|].
  apply bind_Ok_inv in Hrun as (lastDepth & w1 & Hint & Hrun).
  unfold int_op in Hint. destruct (in_int (x + y)); [|discriminate].
  inversion Hint; subst. exact Hrun.
Qed.

(** The best cost never exceeds the second best: a turn keeps it so. *)
Lemma loop_turn_ordered rcCam r tc x y w :
  (forall idx, b_data (_volumeBestSim_dmp (fst w)) idx
               <= b_data (_volumeSecBestSim_dmp (fst w)) idx) ->
  forall idx, b_data (_volumeBestSim_dmp (fst (loop_turn rcCam r tc x y w))) idx
              <= b_data (_volumeSecBestSim_dmp (fst (loop_turn rcCam r tc x y w))) idx.
Proof.
  intros Hle idx. specialize (Hle idx). simpl.
  destruct (contributes _ _ idx); [|exact Hle].
  repeat match goal with
         | |- context [?a <? ?b] => destruct (Z.ltb_spec a b)
         end; lia.
Qed.

(** A turn leaves alone the cells its camera does not contribute to. *)
Lemma loop_turn_elsewhere rcCam r tc x y w idx :
  contributes (mkRange x (x + y)) r idx = false ->
  b_data (_volumeBestSim_dmp (fst (loop_turn rcCam r tc x y w))) idx
  = b_data (_volumeBestSim_dmp (fst w)) idx
  /\ b_data (_volumeSecBestSim_dmp (fst (loop_turn rcCam r tc x y w))) idx
     = b_data (_volumeSecBestSim_dmp (fst w)) idx.
Proof. intros Hc. simpl. rewrite Hc. split; reflexivity. Qed.

Lemma similarity_loop_ordered dl rcCam r tcams : forall tci w w',
  similarity_loop dl rcCam r tci tcams w = Ok tt w' ->
  (forall idx, b_data (_volumeBestSim_dmp (fst w)) idx
               <= b_data (_volumeSecBestSim_dmp (fst w)) idx) ->
  forall idx, b_data (_volumeBestSim_dmp (fst w')) idx
              <= b_data (_volumeSecBestSim_dmp (fst w')) idx.
Proof.
  induction tcams as [|tc rest IH]; intros tci w w' Hrun Hle.
  - inversion Hrun; subst. exact Hle.
  - apply similarity_loop_cons in Hrun as (x & y & _ & Hrun).
    eapply IH; [exact Hrun|]. apply loop_turn_ordered. exact Hle.
Qed.

Lemma similarity_loop_elsewhere dl rcCam r tcams idx : forall tci w w',
  similarity_loop dl rcCam r tci tcams w = Ok tt w' ->
  (forall k x y, (tci <= k < tci + length tcams)%nat ->
                 getDepthsTcLimits dl !! k = Some (x, y) ->
                 contributes (mkRange x (x + y)) r idx = false) ->
  b_data (_volumeBestSim_dmp (fst w')) idx = b_data (_volumeBestSim_dmp (fst w)) idx
  /\ b_data (_volumeSecBestSim_dmp (fst w')) idx
     = b_data (_volumeSecBestSim_dmp (fst w)) idx.
Proof.
  induction tcams as [|tc rest IH]; intros tci w w' Hrun Hout.
  - inversion Hrun; subst. split; reflexivity.
  - apply similarity_loop_cons in Hrun as (x & y & Hlim & Hrun).
    destruct (IH _ _ _ Hrun) as [Hb Hs].
    { intros k x' y' Hk. apply Hout. simpl. lia. }
    destruct (loop_turn_elsewhere rcCam r tc x y w idx) as [Hb1 Hs1].
    { eapply Hout; [|exact Hlim]. simpl. lia. }
    split; congruence.
Qed.

(** An uncovered depth index receives no contribution. *)
Lemma depth_uncovered_no_contribution limits n z :
  depth_covered limits n z = false ->
  forall k x y r px py, (0 <= k < 0 + n)%nat -> limits !! k = Some (x, y) ->
                        contributes (mkRange x (x + y)) r [px; py; z] = false.
Proof.
  unfold depth_covered. intros Hcov k x y r px py Hk Hlim.
  assert (Hin : In k (seq 0 n)) by (apply in_seq; lia).
  destruct (contributes _ _ _) eqn:Hc; [|reflexivity].
  assert (Hex : existsb (fun k => match limits !! k with
                                  | Some (x, y) => (x <=? z) && (z <? x + y)
                                  | None => false
                                  end) (seq 0 n) = true).
  { apply existsb_exists. exists k. split; [exact Hin|]. rewrite Hlim.
    unfold contributes in Hc. simpl in Hc.
    rewrite !andb_true_iff in Hc. rewrite andb_true_iff. tauto. }
  congruence.
Qed.

(** What [computeSimilarityVolumes] does, step by step. *)
Lemma computeSimilarityVolumes_inv tile dl w w' :
  computeSimilarityVolumes tile dl w = Ok tt w' ->
  exists r w0,
    initialize_volumes tile w = Ok r w0
    /\ (forall idx, b_data (_volumeBestSim_dmp (fst w0)) idx = 255
                    /\ b_data (_volumeSecBestSim_dmp (fst w0)) idx = 255)
    /\ trace (snd w0) = trace (snd w)
    /\ exists rcCam w1,
         requestCamera (rc tile) (scale (_sgmParams (fst w0))) w0 = Ok rcCam w1
         /\ fst w1 = fst w0
         /\ similarity_loop dl rcCam r 0 (sgmTCams tile) w1 = Ok tt w'.
Proof.
  unfold computeSimilarityVolumes. intros Hrun.
  apply bind_Ok_inv in Hrun as (r & w0 & Hinit & Hrun).
  exists r, w0. split; [exact Hinit|].
  rewrite bind_get_engine in Hrun.
  apply bind_Ok_inv in Hrun as (rcCam & w1 & Hreq & Hrun).
  unfold initialize_volumes in Hinit. rewrite bind_get_engine in Hinit.
  apply bind_Ok_inv in Hinit as (ds & w2 & Hint & Hinit).
  unfold int_op in Hint. destruct (in_int _); [|discriminate].
  inversion Hint; subst w2 ds. clear Hint.
  inversion Hinit; subst r w0. clear Hinit.
  split; [intros idx; split; reflexivity|]. split; [reflexivity|].
  exists rcCam, w1. split; [exact Hreq|]. split; [|exact Hrun].
  rewrite requestCamera_eq in Hreq. inversion Hreq; subst. reflexivity.
Qed.

End Volumes.

Section FusedVolumes.
Context `{DeviceKernels}.

(** C4.  With at least two target cameras, [computeSimilarityVolumes]
    returns on well formed inputs, and in every cell whose depth index
    lies in the depth range of a target camera the second best cost is at
    least the best cost. *)
Theorem secBest_ge_best_after_fusion (tile : Tile) (dl : SgmDepthList) (w : World) :
  (2 <= length (sgmTCams tile))%nat ->
  in_int (scale (_sgmParams (fst w)) * stepXY (_sgmParams (fst w))) = true ->
  limits_ok (getDepthsTcLimits dl) 0 (length (sgmTCams tile)) = true ->
  exists w',
    computeSimilarityVolumes tile dl w = Ok tt w'
    /\ forall x y z,
         depth_covered (getDepthsTcLimits dl) (length (sgmTCams tile)) z = true ->
         b_data (_volumeSecBestSim_dmp (fst w')) [x; y; z]
         >= b_data (_volumeBestSim_dmp (fst w')) [x; y; z].
Proof.
  intros _ Hint Hlim.
  destruct (computeSimilarityVolumes_defined tile dl w Hint Hlim) as [w' Hrun].
  exists w'. split; [exact Hrun|]. intros x y z _.
  apply computeSimilarityVolumes_inv in Hrun
    as (r & w0 & _ & H255 & _ & rcCam & w1 & _ & Hfst & Hloop).
  apply Z.le_ge.
  eapply similarity_loop_ordered; [exact Hloop|].
  intros idx. rewrite Hfst. destruct (H255 idx) as [-> ->]. lia.
Qed.

(** C5.  [computeSimilarityVolumes] first sets every cell of both volumes
    to 255, with no camera requested and no cost accumulated yet, and runs
    the loop over the target cameras from that state; when it is over,
    every cell whose depth index lies in no target camera's range holds
    255 in both volumes.  The same cells hold 255 at the end of the fusion
    stage of [sgmRc]. *)
Theorem uncovered_cells_keep_255 (tile : Tile) (dl : SgmDepthList) (w : World) :
  well_formed tile dl (fst w) = true ->
  (exists r w0 w',
     initialize_volumes tile w = Ok r w0
     /\ (forall idx, b_data (_volumeBestSim_dmp (fst w0)) idx = 255
                     /\ b_data (_volumeSecBestSim_dmp (fst w0)) idx = 255)
     /\ trace (snd w0) = trace (snd w)
     /\ computeSimilarityVolumes tile dl w
        = (rcCam <- requestCamera (rc tile) (scale (_sgmParams (fst w0))) ;;
           similarity_loop dl rcCam r 0 (sgmTCams tile)) w0
     /\ computeSimilarityVolumes tile dl w = Ok tt w'
     /\ forall x y z,
          depth_covered (getDepthsTcLimits dl) (length (sgmTCams tile)) z = false ->
          b_data (_volumeBestSim_dmp (fst w')) [x; y; z] = 255
          /\ b_data (_volumeSecBestSim_dmp (fst w')) [x; y; z] = 255)
  /\ (exists w',
        fuse tile dl w = Ok tt w'
        /\ forall x y z,
             depth_covered (getDepthsTcLimits dl) (length (sgmTCams tile)) z = false ->
             b_data (_volumeBestSim_dmp (fst w')) [x; y; z] = 255
             /\ b_data (_volumeSecBestSim_dmp (fst w')) [x; y; z] = 255).
Proof.
  intros Hwf.
  assert (Hcells : forall v v', computeSimilarityVolumes tile dl v = Ok tt v' ->
            forall x y z,
              depth_covered (getDepthsTcLimits dl) (length (sgmTCams tile)) z = false ->
              b_data (_volumeBestSim_dmp (fst v')) [x; y; z] = 255
              /\ b_data (_volumeSecBestSim_dmp (fst v')) [x; y; z] = 255).
  { intros v v' Hrun x y z Hcov.
    apply computeSimilarityVolumes_inv in Hrun
      as (r & v0 & _ & H255 & _ & rcCam & v1 & _ & Hfst & Hloop).
    destruct (similarity_loop_elsewhere _ _ _ _ [x; y; z] _ _ _ Hloop) as [Hb Hs].
    { intros k x' y' Hk Hl. eapply depth_uncovered_no_contribution; eassumption. }
    rewrite Hb, Hs, Hfst. apply H255. }
  split.
  - destruct (well_formed_inv _ _ _ Hwf) as (Hint & _ & Hlim).
    destruct (computeSimilarityVolumes_defined tile dl w Hint Hlim) as [w' Hrun].
    destruct (computeSimilarityVolumes_inv _ _ _ _ Hrun)
      as (r & w0 & Hinit & H255 & Htr & _).
    exists r, w0, w'. repeat split; try assumption; try apply H255.
    + unfold computeSimilarityVolumes. erewrite bind_Ok by exact Hinit.
      apply bind_get_engine.
    + eapply Hcells; eassumption.
    + eapply Hcells; eassumption.
  - destruct (fuse_defined tile dl w Hwf) as [w' Hfuse].
    exists w'. split; [exact Hfuse|]. intros x y z Hcov.
    unfold fuse in Hfuse.
    apply bind_Ok_inv in Hfuse as (? & w1 & _ & Hfuse).
    apply bind_Ok_inv in Hfuse as (? & w2 & _ & Hfuse).
    apply bind_Ok_inv in Hfuse as ([] & w3 & Hrun & Hfuse).
    destruct (Hcells _ _ Hrun x y z Hcov) as [Hb Hs].
    unfold when in Hfuse. destruct (_ <? _)%nat.
    + rewrite modify_eq in Hfuse. inversion Hfuse; subst. simpl. split; exact Hb.
    + inversion Hfuse; subst. split; assumption.
Qed.

End FusedVolumes.

(** C4 on the sample tile with target cameras 1 and 2. *)
Lemma secBest_ge_best_after_fusion_sample :
  exists w',
    @computeSimilarityVolumes Sample.kernels (Sample.tile [1; 2]) Sample.depthList
      (Sample.world true 1) = Ok tt w'
    /\ forall x y z,
         depth_covered (getDepthsTcLimits Sample.depthList) 2 z = true ->
         b_data (_volumeSecBestSim_dmp (fst w')) [x; y; z]
         >= b_data (_volumeBestSim_dmp (fst w')) [x; y; z].
Proof.
  apply (@secBest_ge_best_after_fusion Sample.kernels (Sample.tile [1; 2])
           Sample.depthList (Sample.world true 1)).
  - simpl. lia.
  - vm_compute. reflexivity.
  - vm_compute. reflexivity.
Defined.

(** C5 on the sample tile: depth index 3 lies in no range. *)
Lemma uncovered_cells_keep_255_sample :
  (exists r w0 w',
     @initialize_volumes Sample.kernels (Sample.tile [1; 2]) (Sample.world true 1) = Ok r w0
     /\ (forall idx, b_data (_volumeBestSim_dmp (fst w0)) idx = 255
                     /\ b_data (_volumeSecBestSim_dmp (fst w0)) idx = 255)
     /\ trace (snd w0) = trace (snd (Sample.world true 1))
     /\ @computeSimilarityVolumes Sample.kernels (Sample.tile [1; 2]) Sample.depthList
          (Sample.world true 1)
        = (rcCam <- requestCamera 0 (scale (_sgmParams (fst w0))) ;;
           @similarity_loop Sample.kernels Sample.depthList rcCam r 0 [1; 2]) w0
     /\ @computeSimilarityVolumes Sample.kernels (Sample.tile [1; 2]) Sample.depthList
          (Sample.world true 1) = Ok tt w'
     /\ forall x y z,
          depth_covered (getDepthsTcLimits Sample.depthList) 2 z = false ->
          b_data (_volumeBestSim_dmp (fst w')) [x; y; z] = 255
          /\ b_data (_volumeSecBestSim_dmp (fst w')) [x; y; z] = 255)
  /\ (exists w',
        @fuse Sample.kernels (Sample.tile [1; 2]) Sample.depthList (Sample.world true 1)
        = Ok tt w'
        /\ forall x y z,
             depth_covered (getDepthsTcLimits Sample.depthList) 2 z = false ->
             b_data (_volumeBestSim_dmp (fst w')) [x; y; z] = 255
             /\ b_data (_volumeSecBestSim_dmp (fst w')) [x; y; z] = 255).
Proof.
  apply (@uncovered_cells_keep_255 Sample.kernels (Sample.tile [1; 2])
           Sample.depthList (Sample.world true 1)).
  vm_compute. reflexivity.
Defined.

(** ** Volume optimization *)

Section Optimization.
Context `{DeviceKernels}.

Lemma optimizeSimilarityVolume_eq tile dl w :
  in_int (scale (_sgmParams (fst w)) * stepXY (_sgmParams (fst w))) = true ->
  optimizeSimilarityVolume tile dl w =
  Ok tt
    (let '(out, a, b, x) :=
       cuda_volumeOptimize (_volumeBestSim_dmp (fst w)) (_volumeSliceAccA_dmp (fst w))
         (_volumeSliceAccB_dmp (fst w)) (_volumeAxisAcc_dmp (fst w))
         (_volumeSecBestSim_dmp (fst w))
         (mkDeviceCamera (rc tile) (scale (_sgmParams (fst w)))) (_sgmParams (fst w))
         (Z.of_nat (length (getDepths dl)))
         (downscaleROI (roi tile)
            (scale (_sgmParams (fst w)) * stepXY (_sgmParams (fst w)))) in
     set_volumeAxisAcc_dmp x (set_volumeSliceAccB_dmp b
       (set_volumeSliceAccA_dmp a (set_volumeBestSim_dmp out (fst w)))),
     mkDevice (mem_free (snd w))
       (trace (snd w) ++ [EvRequestCamera (rc tile) (scale (_sgmParams (fst w)))])).
Proof.
  intros Hint. unfold optimizeSimilarityVolume.
  rewrite bind_get_engine.
  erewrite bind_Ok by (apply int_op_eq; exact Hint).
  erewrite bind_Ok by apply requestCamera_eq.
  reflexivity.
Qed.

(** With [doSgmOptimizeVolume] on, the filtering step of [sgmRc] leaves the
    engine as [optimizeSimilarityVolume] does. *)
Lemma filter_volume_optimized tile dl w :
  doSgmOptimizeVolume (_sgmParams (fst w)) = true ->
  in_int (scale (_sgmParams (fst w)) * stepXY (_sgmParams (fst w))) = true ->
  exists w1 d',
    optimizeSimilarityVolume tile dl w = Ok tt w1
    /\ filter_volume tile dl w = Ok tt (fst w1, d').
Proof.
  intros Hopt Hint. eexists.
  assert (Hrun := optimizeSimilarityVolume_eq tile dl w Hint).
  unfold filter_volume. rewrite bind_get_engine, Hopt.
  destruct (when_export_defined (exportIntermediateResults (_sgmParams (fst w)))
              (_volumeSecBestSim_dmp (fst w)) "beforeFiltering" w) as [d1 H1].
  erewrite bind_Ok by exact H1.
  erewrite bind_Ok by (apply optimizeSimilarityVolume_eq; exact Hint).
  rewrite bind_get_engine.
  match goal with
  | |- context [when ?b (exportVolumeInformation ?v ?n) ?w1] =>
      destruct (when_export_defined b v n w1) as [d2 H2]
  end.
  exists d2. split; [exact Hrun|]. rewrite H2. reflexivity.
Qed.

(** C6.  [optimizeSimilarityVolume] returns; it leaves the second best
    volume, the depth buffers and the depth/sim map as they were; the
    cells it leaves in the best volume are the regularized costs computed
    from the second best volume, whatever the best volume held before.
    With [doSgmOptimizeVolume] on, the filtering step of [sgmRc] leaves
    the engine that way. *)
Theorem optimization_reads_secBest_writes_best (tile : Tile) (dl : SgmDepthList)
    (w : World) :
  in_int (scale (_sgmParams (fst w)) * stepXY (_sgmParams (fst w))) = true ->
  exists w',
    optimizeSimilarityVolume tile dl w = Ok tt w'
    /\ _volumeSecBestSim_dmp (fst w') = _volumeSecBestSim_dmp (fst w)
    /\ b_data (_volumeBestSim_dmp (fst w'))
       = aggregate (b_data (_volumeSecBestSim_dmp (fst w)))
           (mkDeviceCamera (rc tile) (scale (_sgmParams (fst w)))) (_sgmParams (fst w))
           (Z.of_nat (length (getDepths dl)))
           (downscaleROI (roi tile)
              (scale (_sgmParams (fst w)) * stepXY (_sgmParams (fst w))))
    /\ (forall other : Buffer TSim,
          exists w'',
            optimizeSimilarityVolume tile dl (set_volumeBestSim_dmp other (fst w), snd w)
            = Ok tt w''
            /\ b_data (_volumeBestSim_dmp (fst w'')) = b_data (_volumeBestSim_dmp (fst w'))
            /\ _volumeSecBestSim_dmp (fst w'') = _volumeSecBestSim_dmp (fst w))
    /\ _depths_hmh (fst w') = _depths_hmh (fst w)
    /\ _depths_dmp (fst w') = _depths_dmp (fst w)
    /\ _depthSimMap_dmp (fst w') = _depthSimMap_dmp (fst w)
    /\ (doSgmOptimizeVolume (_sgmParams (fst w)) = true ->
        exists d', filter_volume tile dl w = Ok tt (fst w', d')).
Proof.
  intros Hint. eexists. split; [apply optimizeSimilarityVolume_eq; exact Hint|].
  unfold cuda_volumeOptimize.
  destruct (sweep_scratch _ _ _ _ _) as [[a b] x] eqn:Hscratch. simpl.
  split; [reflexivity|]. split; [reflexivity|]. split.
  { intros other. eexists. split.
    - apply optimizeSimilarityVolume_eq. exact Hint.
    - simpl. unfold cuda_volumeOptimize. rewrite Hscratch. split; reflexivity. }
  split; [reflexivity|]. split; [reflexivity|]. split; [reflexivity|].
  intros Hopt.
  destruct (filter_volume_optimized tile dl w Hopt Hint) as (w1 & d' & Hrun & Hfilter).
  rewrite (optimizeSimilarityVolume_eq tile dl w Hint) in Hrun.
  inversion Hrun; subst w1. clear Hrun.
  exists d'. rewrite Hfilter. simpl. unfold cuda_volumeOptimize. rewrite Hscratch.
  reflexivity.
Qed.

End Optimization.

(** C6 on the sample tile, at matching scale 2. *)
Lemma optimization_reads_secBest_writes_best_sample :
  let tile := Sample.tile [1; 2] in
  let dl := Sample.depthList in
  let w := Sample.world true 2 in
  exists w',
    @optimizeSimilarityVolume Sample.kernels tile dl w = Ok tt w'
    /\ _volumeSecBestSim_dmp (fst w') = _volumeSecBestSim_dmp (fst w)
    /\ b_data (_volumeBestSim_dmp (fst w'))
       = @aggregate Sample.kernels (b_data (_volumeSecBestSim_dmp (fst w)))
           (mkDeviceCamera 0 2) (Sample.sgmParams true 2) 4
           (Sample.roi_downscale (mkROI (mkRange 0 8) (mkRange 0 6)) 2)
    /\ (forall other : Buffer TSim,
          exists w'',
            @optimizeSimilarityVolume Sample.kernels tile dl
              (set_volumeBestSim_dmp other (fst w), snd w) = Ok tt w''
            /\ b_data (_volumeBestSim_dmp (fst w'')) = b_data (_volumeBestSim_dmp (fst w'))
            /\ _volumeSecBestSim_dmp (fst w'') = _volumeSecBestSim_dmp (fst w))
    /\ _depths_hmh (fst w') = _depths_hmh (fst w)
    /\ _depths_dmp (fst w') = _depths_dmp (fst w)
    /\ _depthSimMap_dmp (fst w') = _depthSimMap_dmp (fst w)
    /\ (doSgmOptimizeVolume (_sgmParams (fst w)) = true ->
        exists d', @filter_volume Sample.kernels tile dl w = Ok tt (fst w', d')).
Proof.
  apply (@optimization_reads_secBest_writes_best Sample.kernels (Sample.tile [1; 2])
           Sample.depthList (Sample.world true 2)).
  vm_compute. reflexivity.
Defined.

(** ** Construction *)

Section Construction.
Context `{DeviceKernels}.

Lemma allocate_host_eq {A} id (b : Buffer A) size w :
  b_space b = HostHeap ->
  allocate id b size w =
  Ok (allocated HostHeap size (b_sizeof b) (b_data b))
     (fst w, mkDevice (mem_free (snd w))
                      (trace (snd w) ++ [EvAllocate id (map to_size_t size)])).
Proof. intros Hsp. unfold allocate. rewrite Hsp. reflexivity. Qed.

Lemma allocate_device_eq {A} id (b : Buffer A) size w :
  b_space b = DevicePitched ->
  padded_bytes (allocated DevicePitched size (b_sizeof b) (b_data b)) <= mem_free (snd w) ->
  allocate id b size w =
  Ok (allocated DevicePitched size (b_sizeof b) (b_data b))
     (fst w,
      mkDevice (mem_free (snd w)
                - padded_bytes (allocated DevicePitched size (b_sizeof b) (b_data b)))
               (trace (snd w) ++ [EvAllocate id (map to_size_t size)])).
Proof.
  intros Hsp Hfit. unfold allocate. rewrite Hsp. cbv zeta.
  unfold bind at 1, get_device.
  apply Z.leb_le in Hfit. rewrite Hfit. reflexivity.
Qed.

Lemma allocate_device_inv {A} id (b : Buffer A) size w b' w' :
  b_space b = DevicePitched ->
  allocate id b size w = Ok b' w' ->
  padded_bytes (allocated DevicePitched size (b_sizeof b) (b_data b)) <= mem_free (snd w)
  /\ b' = allocated DevicePitched size (b_sizeof b) (b_data b)
  /\ w' = (fst w,
           mkDevice (mem_free (snd w)
                     - padded_bytes (allocated DevicePitched size (b_sizeof b) (b_data b)))
                    (trace (snd w) ++ [EvAllocate id (map to_size_t size)])).
Proof.
  intros Hsp Hrun.
  destruct (Z.le_gt_cases
              (padded_bytes (allocated DevicePitched size (b_sizeof b) (b_data b)))
              (mem_free (snd w))) as [Hfit | Hnofit].
  - rewrite (allocate_device_eq id b size w Hsp Hfit) in Hrun.
    inversion Hrun; subst. repeat split. exact Hfit.
  - exfalso. unfold allocate in Hrun. rewrite Hsp in Hrun. cbv zeta in Hrun.
    unfold bind at 1, get_device in Hrun.
    apply Z.leb_gt in Hnofit. rewrite Hnofit in Hrun. discriminate.
Qed.

Lemma padded_bytes_unallocated {A} sp dim elt (junk : list Z -> A) :
  padded_bytes (unallocated sp dim elt junk) = 0.
Proof. reflexivity. Qed.

Lemma padded_bytes_nonneg {A} sp size elt (data : list Z -> A) :
  0 <= padded_bytes (allocated sp size elt data).
Proof.
  unfold padded_bytes, allocated. simpl.
  assert (Hrow : 0 <= size_t_mul (hd 0 (map to_size_t size)) elt).
  { unfold size_t_mul, to_size_t. apply Z.mod_pos_bound. reflexivity. }
  assert (Hprod : forall l, 0 <= product (map to_size_t l)).
  { induction l as [|z l IH]; simpl; [lia|].
    apply Z.mul_nonneg_nonneg; [|exact IH].
    unfold to_size_t. apply Z.mod_pos_bound. reflexivity. }
  apply Z.mul_nonneg_nonneg.
  - destruct sp; [exact Hrow|]. pose proof (cudaPitch_ge _ Hrow). lia.
  - destruct size as [|z l]; simpl; [lia | apply Hprod].
Qed.

Lemma allocate_host_step {A R} id (b : Buffer A) size (k : Buffer A -> M R) e m tr :
  b_space b = HostHeap ->
  bind (allocate id b size) k (e, mkDevice m tr)
  = k (allocated HostHeap size (b_sizeof b) (b_data b))
      (e, mkDevice m (tr ++ [EvAllocate id (map to_size_t size)])).
Proof.
  intros Hsp. apply bind_Ok.
  exact (allocate_host_eq id b size (e, mkDevice m tr) Hsp).
Qed.

Lemma allocate_device_run {A R} id (b : Buffer A) size (k : Buffer A -> M R) e m tr :
  b_space b = DevicePitched ->
  padded_bytes (allocated DevicePitched size (b_sizeof b) (b_data b)) <= m ->
  bind (allocate id b size) k (e, mkDevice m tr)
  = k (allocated DevicePitched size (b_sizeof b) (b_data b))
      (e, mkDevice (m - padded_bytes (allocated DevicePitched size (b_sizeof b) (b_data b)))
                   (tr ++ [EvAllocate id (map to_size_t size)])).
Proof.
  intros Hsp Hfit. apply bind_Ok.
  exact (allocate_device_eq id b size (e, mkDevice m tr) Hsp Hfit).
Qed.

Lemma allocate_device_step {A R} id (b : Buffer A) size (k : Buffer A -> M R) e m tr r w' :
  b_space b = DevicePitched ->
  bind (allocate id b size) k (e, mkDevice m tr) = Ok r w' ->
  padded_bytes (allocated DevicePitched size (b_sizeof b) (b_data b)) <= m
  /\ k (allocated DevicePitched size (b_sizeof b) (b_data b))
       (e, mkDevice (m - padded_bytes (allocated DevicePitched size (b_sizeof b) (b_data b)))
                    (tr ++ [EvAllocate id (map to_size_t size)]))
     = Ok r w'.
Proof.
  intros Hsp Hrun.
  apply bind_Ok_inv in Hrun as (b' & w1 & Ha & Hrun).
  apply allocate_device_inv in Ha as (Hfit & -> & ->); [|exact Hsp].
  split; [exact Hfit | exact Hrun].
Qed.

Lemma modify_step {R} f (k : unit -> M R) e dv :
  bind (modify f) k (e, dv) = k tt (f e, dv).
Proof. reflexivity. Qed.

(** A construction that returns has built the engine of [built], issued
    the allocations of [planned] and taken the device bytes of the members
    from the free device memory, which held them. *)
Lemma construct_inv mp tp p jD jM jS d w' :
  construct mp tp p jD jM jS d = Ok tt w' ->
  in_int (scale p * stepXY p) = true
  /\ scale p * stepXY p <> 0
  /\ fst w' = built mp tp p jD jM jS
  /\ trace (snd w')
     = trace d ++ map (fun a => EvAllocate (fst a) (map to_size_t (snd a))) (planned tp p)
  /\ mem_free (snd w') = mem_free d - device_bytes (built mp tp p jD jM jS)
  /\ device_bytes (built mp tp p jD jM jS) <= mem_free d.
Proof.
  destruct d as [m tr].
  unfold construct, Sgm_ctor. rewrite bind_get_engine.
  cbn [fst _sgmParams _tileParams members]. intros Hrun.
  apply bind_Ok_inv in Hrun as (ds & w1 & Hint & Hrun).
  unfold int_op in Hint. destruct (in_int (scale p * stepXY p)) eqn:Hds; [|discriminate].
  inversion Hint; subst ds w1. clear Hint.
  destruct (Z.eqb_spec (scale p * stepXY p) 0) as [Hz | Hnz]; [discriminate|].
  split; [reflexivity|]. split; [exact Hnz|].
  apply bind_Ok_inv in Hrun as (mw & w1 & Hmw & Hrun).
  unfold int_op in Hmw. destruct (in_int (ceil_div (width tp) _)); [|discriminate].
  inversion Hmw; subst mw w1. clear Hmw.
  apply bind_Ok_inv in Hrun as (mh & w1 & Hmh & Hrun).
  unfold int_op in Hmh. destruct (in_int (ceil_div (height tp) _)); [|discriminate].
  inversion Hmh; subst mh w1. clear Hmh.
  cbn [members unallocated b_sizeof b_data
       _depths_hmh _depths_dmp _depthSimMap_dmp _volumeBestSim_dmp
       _volumeSecBestSim_dmp _volumeSliceAccA_dmp _volumeSliceAccB_dmp
       _volumeAxisAcc_dmp] in Hrun.
  rewrite allocate_host_step, modify_step in Hrun by reflexivity.
  apply allocate_device_step in Hrun as (Hfit1 & Hrun); [|reflexivity].
  rewrite modify_step in Hrun.
  apply allocate_device_step in Hrun as (Hfit2 & Hrun); [|reflexivity].
  rewrite modify_step in Hrun.
  apply allocate_device_step in Hrun as (Hfit3 & Hrun); [|reflexivity].
  rewrite modify_step in Hrun.
  apply allocate_device_step in Hrun as (Hfit4 & Hrun); [|reflexivity].
  rewrite modify_step in Hrun.
  unfold built, planned, device_bytes.
  cbn [_depths_hmh _depths_dmp _depthSimMap_dmp _volumeBestSim_dmp
       _volumeSecBestSim_dmp _volumeSliceAccA_dmp _volumeSliceAccB_dmp
       _volumeAxisAcc_dmp unallocated b_sizeof b_data mem_free trace fst snd] in *.
  destruct (doSgmOptimizeVolume p).
  - apply allocate_device_step in Hrun as (Hfit5 & Hrun); [|reflexivity].
    rewrite modify_step in Hrun.
    apply allocate_device_step in Hrun as (Hfit6 & Hrun); [|reflexivity].
    rewrite modify_step in Hrun.
    apply allocate_device_step in Hrun as (Hfit7 & Hrun); [|reflexivity].
    rewrite modify_eq in Hrun. inversion Hrun; subst w'. clear Hrun.
    cbn [unallocated b_sizeof b_data mem_free trace fst snd] in *.
    split; [reflexivity|]. split.
    { rewrite <- !app_assoc. reflexivity. }
    unfold TSim, TSimAcc in *. split; lia.
  - inversion Hrun; subst w'. clear Hrun.
    cbn [unallocated b_sizeof b_data mem_free trace fst snd] in *.
    split; [reflexivity|]. split.
    { rewrite <- !app_assoc. reflexivity. }
    rewrite !padded_bytes_unallocated. unfold TSim, TSimAcc in *. split; lia.
Qed.

(** A construction that returns has converted both tile extents to
    [int]. *)
Lemma construct_extents mp tp p jD jM jS d w' :
  construct mp tp p jD jM jS d = Ok tt w' ->
  in_int (ceil_div (width tp) (scale p * stepXY p)) = true
  /\ in_int (ceil_div (height tp) (scale p * stepXY p)) = true.
Proof.
  unfold construct, Sgm_ctor. rewrite bind_get_engine.
  cbn [fst _sgmParams _tileParams members]. intros Hrun.
  apply bind_Ok_inv in Hrun as (ds & w1 & Hint & Hrun).
  unfold int_op in Hint. destruct (in_int (scale p * stepXY p)); [|discriminate].
  inversion Hint; subst ds w1. clear Hint.
  destruct (Z.eqb_spec (scale p * stepXY p) 0) as [Hz | Hnz]; [discriminate|].
  apply bind_Ok_inv in Hrun as (mw & w1 & Hmw & Hrun).
  unfold int_op in Hmw.
  destruct (in_int (ceil_div (width tp) (scale p * stepXY p))); [|discriminate].
  inversion Hmw; subst mw w1. clear Hmw.
  apply bind_Ok_inv in Hrun as (mh & w1 & Hmh & Hrun).
  unfold int_op in Hmh.
  destruct (in_int (ceil_div (height tp) (scale p * stepXY p))); [|discriminate].
  split; reflexivity.
Qed.

End Construction.

(** *** Single precision division *)


Lemma round_nearest_even_nonneg n d :
  0 <= n -> 0 < d -> 0 <= round_nearest_even n d.
Proof.
  intros Hn Hd. unfold round_nearest_even.
  pose proof (Z.div_pos n d Hn Hd).
  repeat match goal with |- context [if ?c then _ else _] => destruct c end; lia.
Qed.



(** The exponent chosen by [round_pos] puts the scaled quotient at or above
    [2^23]. *)
Lemma round_pos_spec n d :
  0 < n -> 0 < d ->
  exists e ne de,
    scaled n d e = (ne, de) /\ 0 < ne /\ 0 < de /\ 2 ^ 23 * de <= ne
    /\ round_pos n d = pow2Q (round_nearest_even ne de) e.
Proof.
  intros Hn Hd. unfold round_pos.
  pose proof (Z.log2_spec n Hn) as [Ha1 Ha2].
  pose proof (Z.log2_spec d Hd) as [Hb1 Hb2].
  pose proof (Z.log2_nonneg n) as Ha. pose proof (Z.log2_nonneg d) as Hb.
  set (a := Z.log2 n) in *. set (b := Z.log2 d) in *.
  rewrite Z.pow_succ_r in Ha2, Hb2 by assumption.
  set (e0 := a - b - 24).
  assert (Hlow : forall x y, scaled n d e0 = (x, y) -> 2 ^ 23 * y <= x /\ 0 < y).
  { unfold scaled. intros x y. destruct (Z.leb_spec 0 e0) as [He|He]; intros Heq;
      inversion Heq; subst x y; clear Heq.
    - assert (Hp : 2 ^ a = 2 ^ 23 * (2 * 2 ^ b) * 2 ^ e0).
      { replace a with (23 + (1 + b) + e0) at 1 by (unfold e0; lia).
        rewrite !Z.pow_add_r by lia. rewrite Z.pow_1_r. reflexivity. }
      pose proof (Z.pow_pos_nonneg 2 e0 ltac:(lia) He).
      split; [nia | nia].
    - assert (Hp : 2 ^ a * 2 ^ (- e0) = 2 ^ 23 * (2 * 2 ^ b)).
      { rewrite <- Z.pow_add_r by lia.
        replace (a + - e0) with (23 + (1 + b)) by (unfold e0; lia).
        rewrite !Z.pow_add_r by lia. rewrite Z.pow_1_r. reflexivity. }
      pose proof (Z.pow_pos_nonneg 2 (- e0) ltac:(lia) ltac:(lia)).
      split; [nia | lia]. }
  destruct (scaled n d e0) as [n0 d0] eqn:Hs0.
  destruct (Hlow n0 d0 eq_refl) as [Hlow0 Hd0].
  destruct (Z.ltb_spec n0 (2 ^ 24 * d0)) as [Hlt | Hge].
  - rewrite Hs0. exists e0, n0, d0. repeat split; try assumption; lia.
  - destruct (scaled n d (e0 + 1)) as [n1 d1] eqn:Hs1.
    exists (e0 + 1), n1, d1. split; [exact Hs1|].
    assert (Hrel : 2 ^ 23 * d1 <= n1 /\ 0 < d1).
    { unfold scaled in Hs0, Hs1.
      destruct (Z.leb_spec 0 e0) as [He|He].
      - destruct (Z.leb_spec 0 (e0 + 1)); [|lia].
        inversion Hs0; subst n0 d0. inversion Hs1; subst n1 d1.
        rewrite Z.pow_add_r, Z.pow_1_r by lia.
        pose proof (Z.pow_pos_nonneg 2 e0 ltac:(lia) He). split; nia.
      - inversion Hs0; subst n0 d0.
        replace (- e0) with (1 + (- (e0 + 1))) in Hge by lia.
        rewrite Z.pow_add_r, Z.pow_1_r in Hge by lia.
        destruct (Z.leb_spec 0 (e0 + 1)).
        + assert (e0 + 1 = 0) as E by lia. rewrite E in *.
          inversion Hs1; subst n1 d1. cbn in Hge |- *. split; lia.
        + inversion Hs1; subst n1 d1.
          pose proof (Z.pow_pos_nonneg 2 (- (e0 + 1)) ltac:(lia) ltac:(lia)).
          split; nia. }
    destruct Hrel as [Hr1 Hr2].
    repeat split; try assumption; try reflexivity. lia.
Qed.




Lemma pow2Q_nonneg m e : 0 <= m -> (0 <= pow2Q m e)%Q.
Proof.
  intros Hm. unfold pow2Q. destruct (Z.leb_spec 0 e).
  - pose proof (Z.pow_nonneg 2 e ltac:(lia)).
    unfold Qle, inject_Z. cbn [Qnum Qden]. nia.
  - unfold Qle. cbn [Qnum Qden]. lia.
Qed.




Lemma round32_nonneg x : (0 <= x)%Q -> (0 <= round32 x)%Q.
Proof.
  intros Hx. unfold round32.
  assert (Hr : (0 <= Qred x)%Q) by (rewrite Qred_correct; exact Hx).
  unfold Qle in Hr. cbn [Qnum Qden] in Hr. rewrite Z.mul_1_r in Hr.
  destruct (Qnum (Qred x)) as [|n|n] eqn:Hn; [apply Qle_refl| |lia].
  destruct (round_pos_spec (Zpos n) (Zpos (Qden (Qred x))) ltac:(lia) ltac:(lia))
    as (e & ne & de & _ & Hne & Hde & _ & ->).
  apply pow2Q_nonneg. apply round_nearest_even_nonneg; lia.
Qed.


Lemma ceil_div_nonneg w d : 0 <= w -> 0 <= d -> 0 <= ceil_div w d.
Proof.
  intros Hw Hd. unfold ceil_div, float_div, float_of_int.
  assert (Hq : forall z, 0 <= z -> (0 <= round32 (inject_Z z))%Q).
  { intros z Hz. apply round32_nonneg. unfold Qle, inject_Z. cbn. lia. }
  assert (Hx : (0 <= round32 (round32 (inject_Z w) / round32 (inject_Z d)))%Q).
  { apply round32_nonneg. unfold Qdiv. apply Qmult_le_0_compat; [apply Hq, Hw|].
    apply Qinv_le_0_compat. apply Hq, Hd. }
  pose proof (Qle_ceiling (round32 (round32 (inject_Z w) / round32 (inject_Z d)))) as Hc.
  pose proof (Qle_trans _ _ _ Hx Hc) as H0.
  rewrite Zle_Qle. exact H0.
Qed.


Lemma to_size_t_small z : 0 <= z < size_t_modulus -> to_size_t z = z.
Proof. intros Hz. unfold to_size_t. apply Z.mod_small. exact Hz. Qed.

Lemma valid_config_inv tp p :
  valid_config tp p = true ->
  1 <= scale p * stepXY p <= int_max
  /\ 1 <= maxDepths p <= int_max
  /\ 0 <= width tp <= int_max
  /\ 0 <= height tp <= int_max.
Proof.
  unfold valid_config, in_int. rewrite !andb_true_iff, !Z.leb_le.
  intros H. repeat split; try lia; nia.
Qed.


Section ConstructionClaims.
Context `{DeviceKernels}.

(** With the device memory for its buffers, the constructor returns. *)
Lemma construct_defined mp tp p jD jM jS d :
  in_int (scale p * stepXY p) = true ->
  scale p * stepXY p <> 0 ->
  in_int (ceil_div (width tp) (scale p * stepXY p)) = true ->
  in_int (ceil_div (height tp) (scale p * stepXY p)) = true ->
  device_bytes (built mp tp p jD jM jS) <= mem_free d ->
  exists w', construct mp tp p jD jM jS d = Ok tt w'.
Proof.
  intros Hint Hnz Hiw Hih Hfit. destruct d as [m tr].
  unfold construct, Sgm_ctor. rewrite bind_get_engine.
  cbn [fst _sgmParams _tileParams members].
  erewrite bind_Ok by (apply int_op_eq; exact Hint).
  destruct (Z.eqb_spec (scale p * stepXY p) 0) as [Hz | _]; [contradiction|].
  erewrite bind_Ok by (apply int_op_eq; exact Hiw).
  erewrite bind_Ok by (apply int_op_eq; exact Hih).
  cbn [members unallocated b_sizeof b_data
       _depths_hmh _depths_dmp _depthSimMap_dmp _volumeBestSim_dmp
       _volumeSecBestSim_dmp _volumeSliceAccA_dmp _volumeSliceAccB_dmp
       _volumeAxisAcc_dmp].
  cbn [unallocated b_sizeof b_data].
  rewrite allocate_host_step, modify_step by reflexivity.
  unfold built, device_bytes in Hfit.
  cbn [mem_free _depths_dmp _depthSimMap_dmp _volumeBestSim_dmp _volumeSecBestSim_dmp
       _volumeSliceAccA_dmp _volumeSliceAccB_dmp _volumeAxisAcc_dmp] in Hfit.
  set (ds := scale p * stepXY p) in *.
  set (mw := ceil_div (width tp) ds) in *.
  set (mh := ceil_div (height tp) ds) in *.
  pose proof (padded_bytes_nonneg DevicePitched [maxDepths p; 1] sizeof_float jD).
  pose proof (padded_bytes_nonneg DevicePitched [mw; mh] sizeof_float2 jM).
  pose proof (padded_bytes_nonneg DevicePitched [mw; mh; maxDepths p] sizeof_TSim jS).
  pose proof (padded_bytes_nonneg DevicePitched
                [to_size_t (Z.max mw mh); maxDepths p] sizeof_TSimAcc jS).
  pose proof (padded_bytes_nonneg DevicePitched
                [to_size_t (Z.max mw mh); 1] sizeof_TSimAcc jS).
  destruct (doSgmOptimizeVolume p);
    rewrite ?padded_bytes_unallocated in Hfit; unfold TSim, TSimAcc in *.
  - do 6 (rewrite allocate_device_run, modify_step;
            [cbn [unallocated b_sizeof b_data]
            | reflexivity
            | cbn [unallocated b_sizeof b_data]; lia]).
    rewrite allocate_device_run;
      [| reflexivity | cbn [unallocated b_sizeof b_data]; lia].
    eexists. apply modify_eq.
  - do 4 (rewrite allocate_device_run, modify_step;
            [cbn [unallocated b_sizeof b_data]
            | reflexivity
            | cbn [unallocated b_sizeof b_data]; lia]).
    eexists. reflexivity.
Qed.

End ConstructionClaims.

(** The sample engine is the one its construction returns. *)
Lemma sample_world_constructed optimize sc :
  in_int (sc * 1) = true -> sc * 1 <> 0 ->
  in_int (ceil_div 8 (sc * 1)) = true -> in_int (ceil_div 6 (sc * 1)) = true ->
  device_bytes (@built Sample.kernels Sample.mp Sample.tileParams
                  (Sample.sgmParams optimize sc)
                  (fun _ => 0%Q) (fun _ => (0%Q, 0%Q)) (fun _ => 0)) <= 2 ^ 30 ->
  @construct Sample.kernels Sample.mp Sample.tileParams (Sample.sgmParams optimize sc)
    (fun _ => 0%Q) (fun _ => (0%Q, 0%Q)) (fun _ => 0) Sample.device
  = Ok tt (Sample.world optimize sc).
Proof.
  intros Hint Hnz Hiw Hih Hfit.
  destruct (@construct_defined Sample.kernels Sample.mp Sample.tileParams
              (Sample.sgmParams optimize sc) (fun _ => 0%Q) (fun _ => (0%Q, 0%Q))
              (fun _ => 0) Sample.device Hint Hnz Hiw Hih Hfit) as [w' Hrun].
  unfold Sample.world. unfold construct in Hrun |- *. rewrite Hrun. reflexivity.
Qed.

(** ** Memory accounting *)

Lemma size_t_add_small a b :
  0 <= a -> 0 <= b -> a + b < size_t_modulus -> size_t_add a b = a + b.
Proof. intros Ha Hb Hab. unfold size_t_add. apply to_size_t_small. lia. Qed.

Lemma megabytes_mono a b : a <= b -> (megabytes a <= megabytes b)%Q.
Proof.
  intros Hab. unfold megabytes, Qle, Qdiv, Qmult, Qinv, inject_Z. simpl. lia.
Qed.

(** Without wrap around the accumulated [bytes] are the plain sums. *)
Lemma deviceBytes_exact e :
  device_members_tight e ->
  device_bytes e < size_t_modulus ->
  deviceBytesPadded e
  = padded_bytes (_depths_dmp e) + padded_bytes (_depthSimMap_dmp e)
    + padded_bytes (_volumeBestSim_dmp e) + padded_bytes (_volumeSecBestSim_dmp e)
    + (if doSgmOptimizeVolume (_sgmParams e)
       then padded_bytes (_volumeSliceAccA_dmp e) + padded_bytes (_volumeSliceAccB_dmp e)
            + padded_bytes (_volumeAxisAcc_dmp e)
       else 0)
  /\ deviceBytesUnpadded e
     = unpadded_bytes (_depths_dmp e) + unpadded_bytes (_depthSimMap_dmp e)
       + unpadded_bytes (_volumeBestSim_dmp e) + unpadded_bytes (_volumeSecBestSim_dmp e)
       + (if doSgmOptimizeVolume (_sgmParams e)
          then unpadded_bytes (_volumeSliceAccA_dmp e)
               + unpadded_bytes (_volumeSliceAccB_dmp e)
               + unpadded_bytes (_volumeAxisAcc_dmp e)
          else 0).
Proof.
  unfold device_members_tight, tight, device_bytes.
  intros (H1 & H2 & H3 & H4 & H5 & H6 & H7) Hfit.
  unfold deviceBytesPadded, deviceBytesUnpadded, getBytesPadded, getBytesUnpadded.
  fold (padded_bytes (_depths_dmp e)) (padded_bytes (_depthSimMap_dmp e))
       (padded_bytes (_volumeBestSim_dmp e)) (padded_bytes (_volumeSecBestSim_dmp e))
       (padded_bytes (_volumeSliceAccA_dmp e)) (padded_bytes (_volumeSliceAccB_dmp e))
       (padded_bytes (_volumeAxisAcc_dmp e)).
  fold (unpadded_bytes (_depths_dmp e)) (unpadded_bytes (_depthSimMap_dmp e))
       (unpadded_bytes (_volumeBestSim_dmp e)) (unpadded_bytes (_volumeSecBestSim_dmp e))
       (unpadded_bytes (_volumeSliceAccA_dmp e)) (unpadded_bytes (_volumeSliceAccB_dmp e))
       (unpadded_bytes (_volumeAxisAcc_dmp e)).
  cbv zeta.
  repeat match goal with
  | |- context [to_size_t (padded_bytes ?b)] =>
      rewrite (to_size_t_small (padded_bytes b)) by lia
  | |- context [to_size_t (unpadded_bytes ?b)] =>
      rewrite (to_size_t_small (unpadded_bytes b)) by lia
  end.
  destruct (doSgmOptimizeVolume (_sgmParams e));
    repeat match goal with
    | |- context [size_t_add ?a ?b] =>
        lazymatch a with
        | context [size_t_add] => fail
        | _ => rewrite (size_t_add_small a b) by lia
        end
    end;
    split; lia.
Qed.

Section Accounting.
Context `{DeviceKernels}.

Lemma allocated_tight {A} size elt (data : list Z -> A) :
  size <> [] ->
  Forall (fun z => 0 <= z <= int_max) size ->
  0 < elt <= 16 ->
  tight (allocated DevicePitched size elt data).
Proof.
  intros Hne Hall Helt. unfold tight, unpadded_bytes, padded_bytes, allocated.
  assert (Hmap : map to_size_t size = size).
  { clear Hne. induction Hall as [|z l Hz _ IH]; simpl; [reflexivity|].
    rewrite IH, to_size_t_small; [reflexivity|].
    unfold int_max, size_t_modulus in *. lia. }
  cbn [b_size b_sizeof b_pitch]. rewrite Hmap.
  destruct size as [|a l]; [contradiction|]. cbn [hd tail product fold_right].
  inversion Hall as [|? ? Ha Hl]; subst.
  assert (Hprod : 0 <= fold_right Z.mul 1 l).
  { clear -Hl. induction Hl as [|z l Hz _ IH]; simpl; [lia | nia]. }
  assert (Hrow : size_t_mul a elt = a * elt).
  { unfold size_t_mul. apply to_size_t_small.
    unfold int_max, size_t_modulus in *. nia. }
  rewrite Hrow.
  pose proof (cudaPitch_ge (a * elt) ltac:(nia)).
  unfold product. nia.
Qed.

Lemma unallocated_tight {A} elt (junk : list Z -> A) :
  tight (unallocated DevicePitched 2 elt junk).
Proof. unfold tight, unpadded_bytes, padded_bytes. cbn. lia. Qed.

(** For a valid configuration whose tile extents convert to [int], the
    device members of the built engine are [tight]. *)
Lemma built_tight mp tp p jD jM jS :
  valid_config tp p = true ->
  in_int (ceil_div (width tp) (scale p * stepXY p)) = true ->
  in_int (ceil_div (height tp) (scale p * stepXY p)) = true ->
  device_members_tight (built mp tp p jD jM jS).
Proof.
  intros Hvalid Hiw Hih.
  destruct (valid_config_inv _ _ Hvalid) as (Hds & Hmd & Hw & Hh).
  pose proof (ceil_div_nonneg (width tp) (scale p * stepXY p) ltac:(lia) ltac:(lia)) as Hrw.
  pose proof (ceil_div_nonneg (height tp) (scale p * stepXY p) ltac:(lia) ltac:(lia)) as Hrh.
  unfold in_int in Hiw, Hih. rewrite andb_true_iff, !Z.leb_le in Hiw, Hih.
  assert (Hside : to_size_t (Z.max (ceil_div (width tp) (scale p * stepXY p))
                                   (ceil_div (height tp) (scale p * stepXY p)))
                  = Z.max (ceil_div (width tp) (scale p * stepXY p))
                          (ceil_div (height tp) (scale p * stepXY p))).
  { apply to_size_t_small. unfold int_max, size_t_modulus in *. lia. }
  assert (Hone : 0 <= 1 <= int_max) by (unfold int_max; lia).
  pose proof sizeof_TSim_pos. pose proof sizeof_TSimAcc_pos.
  unfold device_members_tight, built.
  cbn [_depths_dmp _depthSimMap_dmp _volumeBestSim_dmp _volumeSecBestSim_dmp
       _volumeSliceAccA_dmp _volumeSliceAccB_dmp _volumeAxisAcc_dmp].
  rewrite Hside.
  repeat split;
    try (destruct (doSgmOptimizeVolume p); [|apply unallocated_tight]);
    (apply allocated_tight;
     [discriminate
     | repeat constructor; lia
     | unfold sizeof_float, sizeof_float2; lia]).
Qed.

(** C8.  Two engines built for the same valid configuration and tile
    geometry, one with [doSgmOptimizeVolume] and one without: each of the
    two consumption queries answers at least as much for the first. *)
Theorem consumption_monotone_in_optimization mp tp p jD jM jS d_on d_off w_on w_off :
  valid_config tp p = true ->
  mem_free d_on < size_t_modulus ->
  construct mp tp (with_optimize true p) jD jM jS d_on = Ok tt w_on ->
  construct mp tp (with_optimize false p) jD jM jS d_off = Ok tt w_off ->
  (getDeviceMemoryConsumption (fst w_off) <= getDeviceMemoryConsumption (fst w_on))%Q
  /\ (getDeviceMemoryConsumptionUnpadded (fst w_off)
      <= getDeviceMemoryConsumptionUnpadded (fst w_on))%Q.
Proof.
  intros Hvalid Hmem Hon Hoff.
  destruct (construct_inv _ _ _ _ _ _ _ _ Hon) as (_ & _ & Eon & _ & _ & Hfit).
  destruct (construct_inv _ _ _ _ _ _ _ _ Hoff) as (_ & _ & Eoff & _ & _ & _).
  destruct (construct_extents _ _ _ _ _ _ _ _ Hon) as [Hiw Hih].
  pose proof (built_tight mp tp (with_optimize true p) jD jM jS Hvalid Hiw Hih) as Ton.
  pose proof (built_tight mp tp (with_optimize false p) jD jM jS Hvalid Hiw Hih) as Toff.
  unfold getDeviceMemoryConsumption, getDeviceMemoryConsumptionUnpadded.
  rewrite Eon, Eoff. clear Eon Eoff Hon Hoff.
  remember (built mp tp (with_optimize true p) jD jM jS) as eon eqn:Heon.
  remember (built mp tp (with_optimize false p) jD jM jS) as eoff eqn:Heoff.
  (* the four buffers allocated in both cases have the same shape *)
  assert (Esame :
    padded_bytes (_depths_dmp eoff) = padded_bytes (_depths_dmp eon)
    /\ padded_bytes (_depthSimMap_dmp eoff) = padded_bytes (_depthSimMap_dmp eon)
    /\ padded_bytes (_volumeBestSim_dmp eoff) = padded_bytes (_volumeBestSim_dmp eon)
    /\ padded_bytes (_volumeSecBestSim_dmp eoff) = padded_bytes (_volumeSecBestSim_dmp eon)
    /\ unpadded_bytes (_depths_dmp eoff) = unpadded_bytes (_depths_dmp eon)
    /\ unpadded_bytes (_depthSimMap_dmp eoff) = unpadded_bytes (_depthSimMap_dmp eon)
    /\ unpadded_bytes (_volumeBestSim_dmp eoff) = unpadded_bytes (_volumeBestSim_dmp eon)
    /\ unpadded_bytes (_volumeSecBestSim_dmp eoff)
       = unpadded_bytes (_volumeSecBestSim_dmp eon))
    by (subst eon eoff; repeat split; reflexivity).
  (* the three scratch buffers are empty without optimization *)
  assert (Eempty :
    padded_bytes (_volumeSliceAccA_dmp eoff) = 0
    /\ padded_bytes (_volumeSliceAccB_dmp eoff) = 0
    /\ padded_bytes (_volumeAxisAcc_dmp eoff) = 0)
    by (subst eoff; repeat split; reflexivity).
  assert (Fon : doSgmOptimizeVolume (_sgmParams eon) = true) by (subst eon; reflexivity).
  assert (Foff : doSgmOptimizeVolume (_sgmParams eoff) = false)
    by (subst eoff; reflexivity).
  clear Heon Heoff.
  destruct Esame as (E1 & E2 & E3 & E4 & E5 & E6 & E7 & E8).
  destruct Eempty as (Z1 & Z2 & Z3).
  assert (Hon_fit : device_bytes eon < size_t_modulus) by lia.
  assert (Hoff_fit : device_bytes eoff < size_t_modulus).
  { destruct Ton as (? & ? & ? & ? & ? & ? & ?). unfold tight in *.
    unfold device_bytes in *. lia. }
  destruct (deviceBytes_exact _ Ton Hon_fit) as [Pon Uon].
  destruct (deviceBytes_exact _ Toff Hoff_fit) as [Poff Uoff].
  rewrite Pon, Uon, Poff, Uoff, Fon, Foff.
  destruct Ton as (? & ? & ? & ? & ? & ? & ?). unfold tight in *.
  split; apply megabytes_mono; lia.
Qed.

End Accounting.

(** C8 on the sample configuration. *)
Lemma consumption_monotone_in_optimization_sample :
  (getDeviceMemoryConsumption (fst (Sample.world false 1))
   <= getDeviceMemoryConsumption (fst (Sample.world true 1)))%Q
  /\ (getDeviceMemoryConsumptionUnpadded (fst (Sample.world false 1))
      <= getDeviceMemoryConsumptionUnpadded (fst (Sample.world true 1)))%Q.
Proof.
  apply (@consumption_monotone_in_optimization Sample.kernels Sample.mp
           Sample.tileParams (Sample.sgmParams true 1)
           (fun _ => 0%Q) (fun _ => (0%Q, 0%Q)) (fun _ => 0)
           Sample.device Sample.device).
  - vm_compute. reflexivity.
  - vm_compute. reflexivity.
  - apply (sample_world_constructed true 1);
      [reflexivity | discriminate | vm_compute; reflexivity | vm_compute; reflexivity
      | vm_compute; discriminate].
  - apply (sample_world_constructed false 1);
      [reflexivity | discriminate | vm_compute; reflexivity | vm_compute; reflexivity
      | vm_compute; discriminate].
Defined.

Section AccountingScope.
Context `{DeviceKernels}.

(** C9, as the code has it.  For an engine built for a valid
    configuration on a device whose free memory is a [size_t], each query
    accumulates exactly the bytes of the seven device buffers - the device
    depth buffer, the depth/sim map, the two similarity volumes and the
    slice and axis buffers, which are empty unless [doSgmOptimizeVolume] -
    and answers them divided by 1024 x 1024.  The host staging buffer
    [_depths_hmh], [4 * maxDepths] bytes of host memory, is owned by the
    engine and is not counted. *)
Theorem consumption_counts_device_buffers mp tp p jD jM jS d w' :
  valid_config tp p = true ->
  mem_free d < size_t_modulus ->
  construct mp tp p jD jM jS d = Ok tt w' ->
  let e := fst w' in
  deviceBytesPadded e
  = getBytesPadded (_depths_dmp e) + getBytesPadded (_depthSimMap_dmp e)
    + getBytesPadded (_volumeBestSim_dmp e) + getBytesPadded (_volumeSecBestSim_dmp e)
    + getBytesPadded (_volumeSliceAccA_dmp e) + getBytesPadded (_volumeSliceAccB_dmp e)
    + getBytesPadded (_volumeAxisAcc_dmp e)
  /\ deviceBytesUnpadded e
     = getBytesUnpadded (_depths_dmp e) + getBytesUnpadded (_depthSimMap_dmp e)
       + getBytesUnpadded (_volumeBestSim_dmp e)
       + getBytesUnpadded (_volumeSecBestSim_dmp e)
       + getBytesUnpadded (_volumeSliceAccA_dmp e)
       + getBytesUnpadded (_volumeSliceAccB_dmp e)
       + getBytesUnpadded (_volumeAxisAcc_dmp e)
  /\ getDeviceMemoryConsumption e
     = (inject_Z (deviceBytesPadded e) / (1024 * 1024))%Q
  /\ getDeviceMemoryConsumptionUnpadded e
     = (inject_Z (deviceBytesUnpadded e) / (1024 * 1024))%Q
  /\ b_space (_depths_hmh e) = HostHeap
  /\ getBytesPadded (_depths_hmh e) = 4 * maxDepths p
  /\ getBytesUnpadded (_depths_hmh e) = 4 * maxDepths p
  /\ deviceBytesPadded e = ownedBytesPadded e - 4 * maxDepths p
  /\ deviceBytesUnpadded e = ownedBytesUnpadded e - 4 * maxDepths p.
Proof.
  intros Hvalid Hmem Hrun e.
  destruct (construct_inv _ _ _ _ _ _ _ _ Hrun) as (_ & _ & He & _ & _ & Hfit).
  destruct (construct_extents _ _ _ _ _ _ _ _ Hrun) as [Hiw Hih].
  pose proof (built_tight mp tp p jD jM jS Hvalid Hiw Hih) as Ht.
  destruct (valid_config_inv _ _ Hvalid) as (_ & Hmd & _ & _).
  assert (Hhost : to_size_t (4 * maxDepths p) = 4 * maxDepths p).
  { apply to_size_t_small. unfold int_max, size_t_modulus in *. lia. }
  assert (Hmd' : to_size_t (maxDepths p) = maxDepths p).
  { apply to_size_t_small. unfold int_max, size_t_modulus in *. lia. }
  assert (Hgp : forall A (b : Buffer A), 0 <= padded_bytes b < size_t_modulus ->
                  getBytesPadded b = padded_bytes b).
  { intros A b Hb. unfold getBytesPadded. apply to_size_t_small. exact Hb. }
  assert (Hgu : forall A (b : Buffer A), 0 <= unpadded_bytes b < size_t_modulus ->
                  getBytesUnpadded b = unpadded_bytes b).
  { intros A b Hb. unfold getBytesUnpadded. apply to_size_t_small. exact Hb. }
  assert (Hone : to_size_t 1 = 1) by reflexivity.
  assert (Hrow : to_size_t (maxDepths p * sizeof_float) = 4 * maxDepths p).
  { unfold sizeof_float. rewrite Z.mul_comm. exact Hhost. }
  assert (Hhp : getBytesPadded (_depths_hmh e) = 4 * maxDepths p).
  { unfold e. rewrite He. unfold getBytesPadded, padded_bytes, built, allocated.
    cbn [_depths_hmh b_pitch b_size map hd tail product fold_right].
    unfold size_t_mul. rewrite Hmd', Hone, Hrow.
    replace (4 * maxDepths p * (1 * 1)) with (4 * maxDepths p) by lia. exact Hhost. }
  assert (Hhu : getBytesUnpadded (_depths_hmh e) = 4 * maxDepths p).
  { unfold e. rewrite He. unfold getBytesUnpadded, unpadded_bytes, built, allocated.
    cbn [_depths_hmh b_sizeof b_size map product fold_right].
    rewrite Hmd', Hone.
    replace (maxDepths p * (1 * 1) * sizeof_float) with (4 * maxDepths p)
      by (unfold sizeof_float; lia).
    exact Hhost. }
  assert (Hspace : b_space (_depths_hmh e) = HostHeap).
  { unfold e. rewrite He. reflexivity. }
  unfold ownedBytesPadded, ownedBytesUnpadded, getDeviceMemoryConsumption,
    getDeviceMemoryConsumptionUnpadded, megabytes.
  rewrite Hhp, Hhu, Hspace. clear Hhp Hhu Hspace.
  unfold e. rewrite He. clear e He.
  remember (built mp tp p jD jM jS) as eb eqn:Heb.
  assert (Hflag : doSgmOptimizeVolume (_sgmParams eb) = doSgmOptimizeVolume p)
    by (subst eb; reflexivity).
  assert (Hscratch : doSgmOptimizeVolume p = false ->
    padded_bytes (_volumeSliceAccA_dmp eb) = 0
    /\ padded_bytes (_volumeSliceAccB_dmp eb) = 0
    /\ padded_bytes (_volumeAxisAcc_dmp eb) = 0
    /\ unpadded_bytes (_volumeSliceAccA_dmp eb) = 0
    /\ unpadded_bytes (_volumeSliceAccB_dmp eb) = 0
    /\ unpadded_bytes (_volumeAxisAcc_dmp eb) = 0).
  { intros Hoff. subst eb. unfold built. rewrite Hoff. repeat split; reflexivity. }
  clear Heb.
  destruct (deviceBytes_exact _ Ht ltac:(lia)) as [Hp Hu].
  destruct Ht as (T1 & T2 & T3 & T4 & T5 & T6 & T7).
  unfold tight, device_bytes in *.
  rewrite !Hgp, !Hgu by lia. rewrite Hp, Hu, Hflag.
  destruct (doSgmOptimizeVolume p).
  - repeat split; lia.
  - destruct (Hscratch eq_refl) as (Z1 & Z2 & Z3 & Z4 & Z5 & Z6).
    repeat split; lia.
Qed.

End AccountingScope.

(** C9 on the sample configuration. *)
Lemma consumption_counts_device_buffers_sample :
  let e := fst (Sample.world true 1) in
  deviceBytesPadded e
  = getBytesPadded (_depths_dmp e) + getBytesPadded (_depthSimMap_dmp e)
    + getBytesPadded (_volumeBestSim_dmp e) + getBytesPadded (_volumeSecBestSim_dmp e)
    + getBytesPadded (_volumeSliceAccA_dmp e) + getBytesPadded (_volumeSliceAccB_dmp e)
    + getBytesPadded (_volumeAxisAcc_dmp e)
  /\ deviceBytesUnpadded e
     = getBytesUnpadded (_depths_dmp e) + getBytesUnpadded (_depthSimMap_dmp e)
       + getBytesUnpadded (_volumeBestSim_dmp e)
       + getBytesUnpadded (_volumeSecBestSim_dmp e)
       + getBytesUnpadded (_volumeSliceAccA_dmp e)
       + getBytesUnpadded (_volumeSliceAccB_dmp e)
       + getBytesUnpadded (_volumeAxisAcc_dmp e)
  /\ getDeviceMemoryConsumption e
     = (inject_Z (deviceBytesPadded e) / (1024 * 1024))%Q
  /\ getDeviceMemoryConsumptionUnpadded e
     = (inject_Z (deviceBytesUnpadded e) / (1024 * 1024))%Q
  /\ b_space (_depths_hmh e) = HostHeap
  /\ getBytesPadded (_depths_hmh e) = 4 * 4
  /\ getBytesUnpadded (_depths_hmh e) = 4 * 4
  /\ deviceBytesPadded e = ownedBytesPadded e - 4 * 4
  /\ deviceBytesUnpadded e = ownedBytesUnpadded e - 4 * 4.
Proof.
  apply (@consumption_counts_device_buffers Sample.kernels Sample.mp
           Sample.tileParams (Sample.sgmParams true 1)
           (fun _ => 0%Q) (fun _ => (0%Q, 0%Q)) (fun _ => 0) Sample.device
           (Sample.world true 1)).
  - vm_compute. reflexivity.
  - vm_compute. reflexivity.
  - apply (sample_world_constructed true 1);
      [reflexivity | discriminate | vm_compute; reflexivity | vm_compute; reflexivity
      | vm_compute; discriminate].
Defined.

(** C9 as stated fails on the sample engine: the totals over all the
    buffers it owns exceed the totals the queries accumulate by the 16
    bytes of the host staging buffer. *)
Lemma consumption_skips_host_staging_buffer :
  let e := fst (Sample.world true 1) in
  deviceBytesPadded e = 32768 /\ ownedBytesPadded e = 32784
  /\ deviceBytesUnpadded e = 1072 /\ ownedBytesUnpadded e = 1088
  /\ getBytesUnpadded (_depths_hmh e) = 16
  /\ (getDeviceMemoryConsumption e < megabytes (ownedBytesPadded e))%Q
  /\ (getDeviceMemoryConsumptionUnpadded e < megabytes (ownedBytesUnpadded e))%Q.
Proof. vm_compute. repeat split; reflexivity. Qed.

(** ** Camera requests *)

Lemma requests_app l1 l2 : requests (l1 ++ l2) = requests l1 ++ requests l2.
Proof. unfold requests. apply omap_app. Qed.

Lemma issued_refl w : issued w w [].
Proof. exists []. split; [symmetry; apply app_nil_r | reflexivity]. Qed.

Lemma issued_trans w1 w2 w3 r1 r2 :
  issued w1 w2 r1 -> issued w2 w3 r2 -> issued w1 w3 (r1 ++ r2).
Proof.
  intros (e1 & T1 & R1) (e2 & T2 & R2). exists (e1 ++ e2). split.
  - rewrite T2, T1. symmetry. apply app_assoc.
  - rewrite requests_app, R1, R2. reflexivity.
Qed.

Lemma issued_same_device w w' : snd w' = snd w -> issued w w' [].
Proof. intros Heq. exists []. rewrite Heq. split; [symmetry; apply app_nil_r | reflexivity]. Qed.

Section Requests.
Context `{DeviceKernels}.

Lemma upload_depths_device depths : forall i w w',
  upload_depths i depths w = Ok tt w' -> snd w' = snd w.
Proof.
  induction depths as [|d rest IH]; intros i w w' Hrun; simpl in Hrun.
  - inversion Hrun. reflexivity.
  - rewrite bind_get_engine in Hrun.
    match type of Hrun with
    | context [if ?c then _ else _] => destruct c; [|discriminate]
    end.
    rewrite (bind_Ok _ _ _ _ _ (modify_eq _ _)) in Hrun.
    apply IH in Hrun. exact Hrun.
Qed.

Lemma similarity_loop_requests dl rcCam r tcams : forall tci w w',
  similarity_loop dl rcCam r tci tcams w = Ok tt w' ->
  issued w w' (map (fun tc => (tc, scale (_sgmParams (fst w)))) tcams).
Proof.
  induction tcams as [|tc rest IH]; intros tci w w' Hrun.
  - inversion Hrun; subst. apply issued_refl.
  - apply similarity_loop_cons in Hrun as (x & y & _ & Hrun).
    apply IH in Hrun.
    apply (issued_trans w (loop_turn rcCam r tc x y w) w'
             [(tc, scale (_sgmParams (fst w)))]).
    + exists [EvRequestCamera tc (scale (_sgmParams (fst w)))].
      split; reflexivity.
    + exact Hrun.
Qed.

Lemma computeSimilarityVolumes_requests tile dl w w' :
  computeSimilarityVolumes tile dl w = Ok tt w' ->
  issued w w' ((rc tile, scale (_sgmParams (fst w)))
               :: map (fun tc => (tc, scale (_sgmParams (fst w)))) (sgmTCams tile)).
Proof.
  intros Hrun.
  destruct (computeSimilarityVolumes_inv _ _ _ _ Hrun)
    as (r & w0 & Hinit & _ & Htr & rcCam & w1 & Hreq & Hfst & Hloop).
  pose proof (keeps_initialize_volumes _ _ _ _ Hinit) as Hs.
  pose proof (steady_sgmParams _ _ Hs) as Hp.
  apply similarity_loop_requests in Hloop.
  rewrite Hfst, Hp in Hloop. rewrite Hp in Hreq.
  apply (issued_trans w w1 w' [(rc tile, scale (_sgmParams (fst w)))]);
    [|exact Hloop].
  rewrite requestCamera_eq in Hreq. inversion Hreq; subst w1.
  exists [EvRequestCamera (rc tile) (scale (_sgmParams (fst w)))].
  simpl. rewrite Htr. split; reflexivity.
Qed.

Lemma optimizeSimilarityVolume_requests tile dl w w' :
  optimizeSimilarityVolume tile dl w = Ok tt w' ->
  issued w w' [(rc tile, scale (_sgmParams (fst w)))].
Proof.
  intros Hrun.
  destruct (in_int (scale (_sgmParams (fst w)) * stepXY (_sgmParams (fst w)))) eqn:Hint.
  - rewrite (optimizeSimilarityVolume_eq tile dl w Hint) in Hrun.
    inversion Hrun; subst w'.
    exists [EvRequestCamera (rc tile) (scale (_sgmParams (fst w)))].
    split; reflexivity.
  - unfold optimizeSimilarityVolume in Hrun. rewrite bind_get_engine in Hrun.
    unfold bind at 1, int_op in Hrun. rewrite Hint in Hrun. discriminate.
Qed.

Lemma retrieveBestDepth_requests tile dl w w' :
  retrieveBestDepth tile dl w = Ok tt w' -> issued w w' [(rc tile, 1)].
Proof.
  intros Hrun.
  destruct (in_int (scale (_sgmParams (fst w)) * stepXY (_sgmParams (fst w)))) eqn:Hint.
  - destruct (retrieveBestDepth_defined tile dl w Hint) as [d' Heq].
    unfold retrieveBestDepth in Hrun. rewrite bind_get_engine in Hrun.
    rewrite (bind_Ok _ _ _ _ _ (int_op_eq _ _ Hint)) in Hrun.
    rewrite (bind_Ok _ _ _ _ _ (requestCamera_eq _ _ _)) in Hrun.
    rewrite modify_eq in Hrun. inversion Hrun; subst w'.
    exists [EvRequestCamera (rc tile) 1]. split; reflexivity.
  - unfold retrieveBestDepth in Hrun. rewrite bind_get_engine in Hrun.
    unfold bind at 1, int_op in Hrun. rewrite Hint in Hrun. discriminate.
Qed.

Lemma exportVolumeInformation_requests v name w w' :
  exportVolumeInformation v name w = Ok tt w' -> issued w w' [].
Proof.
  unfold exportVolumeInformation, allocate, unallocated, bind, emit,
    get_device, put_device, ret. simpl.
  intros Hrun. inversion Hrun; subst w'. eexists. simpl.
  rewrite <- !app_assoc. split; reflexivity.
Qed.

Lemma when_export_requests b v name w w' :
  when b (exportVolumeInformation v name) w = Ok tt w' -> issued w w' [].
Proof.
  destruct b; simpl.
  - apply exportVolumeInformation_requests.
  - intros Hrun. inversion Hrun; subst. apply issued_refl.
Qed.

Lemma fuse_requests tile dl w w' :
  fuse tile dl w = Ok tt w' ->
  issued w w' ((rc tile, scale (_sgmParams (fst w)))
               :: map (fun tc => (tc, scale (_sgmParams (fst w)))) (sgmTCams tile)).
Proof.
  unfold fuse. intros Hrun.
  apply bind_Ok_inv in Hrun as ([] & w1 & Hup & Hrun).
  rewrite (bind_Ok _ _ _ _ _ (modify_eq _ _)) in Hrun.
  apply bind_Ok_inv in Hrun as ([] & w3 & Hc & Hrun).
  pose proof (keeps_upload_depths _ _ _ _ _ Hup) as Hs1.
  pose proof (steady_sgmParams _ _ Hs1) as Hp1.
  apply upload_depths_device in Hup.
  apply computeSimilarityVolumes_requests in Hc. simpl in Hc. rewrite Hp1 in Hc.
  assert (Hlast : snd w' = snd w3).
  { unfold when in Hrun. destruct (_ <? _)%nat.
    - rewrite modify_eq in Hrun. inversion Hrun. reflexivity.
    - inversion Hrun. reflexivity. }
  destruct Hc as (evs & Htr & Hreq). exists evs. split; [|exact Hreq].
  rewrite Hlast, Htr. simpl. rewrite Hup. reflexivity.
Qed.

Lemma filter_volume_requests tile dl w w' :
  filter_volume tile dl w = Ok tt w' ->
  issued w w' (if doSgmOptimizeVolume (_sgmParams (fst w))
               then [(rc tile, scale (_sgmParams (fst w)))] else []).
Proof.
  unfold filter_volume. rewrite bind_get_engine. intros Hrun.
  apply bind_Ok_inv in Hrun as ([] & w1 & Hex1 & Hrun).
  apply bind_Ok_inv in Hrun as ([] & w2 & Hmid & Hrun).
  rewrite bind_get_engine in Hrun.
  assert (Hfst1 : fst w1 = fst w).
  { destruct (when_export_defined (exportIntermediateResults (_sgmParams (fst w)))
                (_volumeSecBestSim_dmp (fst w)) "beforeFiltering" w) as [d1 Hd1].
    rewrite Hd1 in Hex1. inversion Hex1. reflexivity. }
  apply when_export_requests in Hex1. apply when_export_requests in Hrun.
  assert (Hmid' : issued w1 w2 (if doSgmOptimizeVolume (_sgmParams (fst w))
                                then [(rc tile, scale (_sgmParams (fst w)))] else [])).
  { destruct (doSgmOptimizeVolume (_sgmParams (fst w))).
    - apply optimizeSimilarityVolume_requests in Hmid. rewrite Hfst1 in Hmid. exact Hmid.
    - rewrite modify_eq in Hmid. inversion Hmid. apply issued_same_device. reflexivity. }
  pose proof (issued_trans _ _ _ _ _ Hmid' Hrun) as Htail.
  rewrite app_nil_r in Htail.
  exact (issued_trans _ _ _ _ _ Hex1 Htail).
Qed.

Lemma extract_requests tile dl w w' :
  extract tile dl w = Ok tt w' -> issued w w' [(rc tile, 1)].
Proof.
  unfold extract. intros Hrun.
  apply bind_Ok_inv in Hrun as ([] & w1 & Hr & Hrun).
  rewrite bind_get_engine in Hrun.
  apply retrieveBestDepth_requests in Hr.
  assert (Hlast : issued w1 w' []).
  { unfold when in Hrun. destruct (exportIntermediateResults _).
    - rewrite emit_eq in Hrun. inversion Hrun; subst w'.
      eexists. split; reflexivity.
    - inversion Hrun; subst. apply issued_refl. }
  exact (issued_trans _ _ _ _ _ Hr Hlast).
Qed.

(** On well formed, non empty inputs [sgmRc] returns. *)
Lemma sgmRc_defined tile dl w :
  sgmTCams tile <> [] -> getDepths dl <> [] ->
  well_formed tile dl (fst w) = true ->
  exists w', sgmRc tile dl w = Ok tt w'.
Proof.
  intros Htc Hd Hwf.
  destruct (fuse_defined tile dl w Hwf) as [w1 Hfuse].
  pose proof (keeps_fuse _ _ _ _ _ Hfuse) as Hs1.
  pose proof (steady_sgmParams _ _ Hs1) as Hp1.
  destruct (well_formed_inv _ _ _ Hwf) as (Hint & _ & _).
  assert (Hfilter : exists w2, filter_volume tile dl w1 = Ok tt w2).
  { destruct (doSgmOptimizeVolume (_sgmParams (fst w1))) eqn:Hopt.
    - destruct (filter_volume_optimized tile dl w1 Hopt) as (w2 & d' & _ & Hd').
      { rewrite Hp1. exact Hint. }
      eexists. exact Hd'.
    - destruct (filter_volume_passthrough tile dl w1 Hopt) as [d' Hd'].
      eexists. exact Hd'. }
  destruct Hfilter as [w2 Hfilter].
  pose proof (keeps_filter_volume _ _ _ _ _ Hfilter) as Hs2.
  pose proof (steady_sgmParams _ _ Hs2) as Hp2.
  destruct (extract_defined tile dl w2) as [d3 Hextract].
  { rewrite Hp2, Hp1. exact Hint. }
  eexists. rewrite sgmRc_after_guard by assumption.
  erewrite bind_Ok by exact Hfuse.
  erewrite bind_Ok by exact Hfilter.
  exact Hextract.
Qed.

End Requests.

Section CacheEntries.
Context `{DeviceKernels}.

(** C10.  [retrieveBestDepth] requests the reference camera at scale 1;
    [computeSimilarityVolumes] and [optimizeSimilarityVolume] request it at
    [_sgmParams.scale] (the former also each target camera, at that
    scale).  So a run of [sgmRc] on well formed, non empty inputs requests
    the cache keys (rc, scale) and (rc, 1), and when the scale exceeds 1
    these are two distinct entries for the one reference camera. *)
Theorem rc_requested_at_scale_and_at_one (tile : Tile) (dl : SgmDepthList) (w : World) :
  sgmTCams tile <> [] ->
  getDepths dl <> [] ->
  well_formed tile dl (fst w) = true ->
  let sc := scale (_sgmParams (fst w)) in
  (forall v v', retrieveBestDepth tile dl v = Ok tt v' -> issued v v' [(rc tile, 1)])
  /\ (forall v v', computeSimilarityVolumes tile dl v = Ok tt v' ->
        issued v v' ((rc tile, scale (_sgmParams (fst v)))
                     :: map (fun tc => (tc, scale (_sgmParams (fst v)))) (sgmTCams tile)))
  /\ (forall v v', optimizeSimilarityVolume tile dl v = Ok tt v' ->
        issued v v' [(rc tile, scale (_sgmParams (fst v)))])
  /\ exists w' evs,
       sgmRc tile dl w = Ok tt w'
       /\ trace (snd w') = trace (snd w) ++ evs
       /\ requests evs
          = ((rc tile, sc) :: map (fun tc => (tc, sc)) (sgmTCams tile))
            ++ (if doSgmOptimizeVolume (_sgmParams (fst w)) then [(rc tile, sc)] else [])
            ++ [(rc tile, 1)]
       /\ (rc tile, sc) ∈ entries_touched evs
       /\ (rc tile, 1) ∈ entries_touched evs
       /\ (1 < sc ->
           (rc tile, sc) <> (rc tile, 1)
           /\ (2 <= size (filter (fun k => fst k = rc tile) (entries_touched evs)))%nat).
Proof.
  intros Htc Hd Hwf sc.
  split; [intros v v'; apply retrieveBestDepth_requests|].
  split; [intros v v'; apply computeSimilarityVolumes_requests|].
  split; [intros v v'; apply optimizeSimilarityVolume_requests|].
  destruct (sgmRc_defined tile dl w Htc Hd Hwf) as [w' Hrun].
  pose proof Hrun as Hsteps. rewrite sgmRc_after_guard in Hsteps by assumption.
  apply bind_Ok_inv in Hsteps as ([] & w1 & Hfuse & Hsteps).
  apply bind_Ok_inv in Hsteps as ([] & w2 & Hfilter & Hextract).
  pose proof (steady_sgmParams _ _ (keeps_fuse _ _ _ _ _ Hfuse)) as Hp1.
  apply fuse_requests in Hfuse. apply filter_volume_requests in Hfilter.
  apply extract_requests in Hextract. rewrite Hp1 in Hfilter.
  pose proof (issued_trans _ _ _ _ _ Hfuse
                (issued_trans _ _ _ _ _ Hfilter Hextract)) as (evs & Htr & Hreq).
  fold sc in Hreq.
  exists w', evs. split; [exact Hrun|]. split; [exact Htr|]. split; [exact Hreq|].
  assert (Hin_sc : (rc tile, sc) ∈ entries_touched evs).
  { unfold entries_touched. rewrite Hreq. apply elem_of_list_to_set.
    simpl. apply elem_of_cons. left. reflexivity. }
  assert (Hin_1 : (rc tile, 1) ∈ entries_touched evs).
  { unfold entries_touched. rewrite Hreq. apply elem_of_list_to_set.
    rewrite !elem_of_app. right. right. apply elem_of_cons. left. reflexivity. }
  split; [exact Hin_sc|]. split; [exact Hin_1|].
  intros Hsc.
  assert (Hne : (rc tile, sc) <> (rc tile, 1)) by (intros Heq; inversion Heq; lia).
  split; [exact Hne|].
  assert (Hsub : ({[ (rc tile, sc) ]} ∪ {[ (rc tile, 1) ]} : gset (Z * Z))
                 ⊆ filter (fun k => fst k = rc tile) (entries_touched evs)).
  { intros k Hk. apply elem_of_filter.
    apply elem_of_union in Hk as [Hk | Hk]; apply elem_of_singleton in Hk; subst k;
      split; try reflexivity; assumption. }
  apply subseteq_size in Hsub.
  rewrite size_union in Hsub by (apply disjoint_singleton_l; set_solver).
  rewrite !size_singleton in Hsub. exact Hsub.
Qed.

End CacheEntries.

(** C10 on the sample tile, at matching scale 2. *)
Lemma rc_requested_at_scale_and_at_one_sample :
  let tile := Sample.tile [1; 2] in
  let dl := Sample.depthList in
  let w := Sample.world true 2 in
  (forall v v', @retrieveBestDepth Sample.kernels tile dl v = Ok tt v' ->
                issued v v' [(0, 1)])
  /\ (forall v v', @computeSimilarityVolumes Sample.kernels tile dl v = Ok tt v' ->
        issued v v' ((0, scale (_sgmParams (fst v)))
                     :: map (fun tc => (tc, scale (_sgmParams (fst v)))) [1; 2]))
  /\ (forall v v', @optimizeSimilarityVolume Sample.kernels tile dl v = Ok tt v' ->
        issued v v' [(0, scale (_sgmParams (fst v)))])
  /\ exists w' evs,
       @sgmRc Sample.kernels tile dl w = Ok tt w'
       /\ trace (snd w') = trace (snd w) ++ evs
       /\ requests evs = [(0, 2); (1, 2); (2, 2); (0, 2); (0, 1)]
       /\ (0, 2) ∈ entries_touched evs
       /\ (0, 1) ∈ entries_touched evs
       /\ (1 < 2 ->
           (0, 2) <> (0, 1)
           /\ (2 <= size (filter (fun k : Z * Z => fst k = 0%Z) (entries_touched evs)))%nat).
Proof.
  apply (@rc_requested_at_scale_and_at_one Sample.kernels (Sample.tile [1; 2])
           Sample.depthList (Sample.world true 2)).
  - discriminate.
  - discriminate.
  - vm_compute. reflexivity.
Defined.

(** ** What a run writes *)

Lemma member_kept_refl id e : member_kept id e e.
Proof. destruct id; simpl; trivial. Qed.

Lemma member_kept_trans id e1 e2 e3 :
  member_kept id e1 e2 -> member_kept id e2 e3 -> member_kept id e1 e3.
Proof. destruct id; simpl; trivial; congruence. Qed.

Lemma writes_only_ret {A} ids (a : A) : writes_only ids (ret a).
Proof. intros w a' w' Heq id _. inversion Heq; subst. apply member_kept_refl. Qed.

Lemma writes_only_undefined {A} ids : writes_only ids (@undefined A).
Proof. intros w a w' Heq. discriminate. Qed.

Lemma writes_only_throw {A} ids e : writes_only ids (@throw A e).
Proof. intros w a w' Heq. discriminate. Qed.

Lemma writes_only_bind {A B} ids (m : M A) (k : A -> M B) :
  writes_only ids m -> (forall a, writes_only ids (k a)) -> writes_only ids (bind m k).
Proof.
  intros Hm Hk w b w2 Heq id Hid.
  apply bind_Ok_inv in Heq as (a & w1 & Hm1 & Hk1).
  eapply member_kept_trans; [eapply Hm | eapply Hk]; eassumption.
Qed.

Lemma writes_only_weaken {A} ids ids' (m : M A) :
  ids ⊆ ids' -> writes_only ids m -> writes_only ids' m.
Proof.
  intros Hsub Hm w a w' Heq id Hid. eapply Hm; [exact Heq|].
  intros Hin. apply Hid, Hsub, Hin.
Qed.

Lemma writes_only_get_engine ids : writes_only ids get_engine.
Proof. intros w a w' Heq id _. inversion Heq; subst. apply member_kept_refl. Qed.

Lemma writes_only_int_op ids z : writes_only ids (int_op z).
Proof.
  unfold int_op. destruct (in_int z); [apply writes_only_ret | apply writes_only_undefined].
Qed.

Lemma writes_only_when ids b m : writes_only ids m -> writes_only ids (when b m).
Proof. intros Hm. destruct b; [exact Hm | apply writes_only_ret]. Qed.

Lemma writes_only_emit ids ev : writes_only ids (emit ev).
Proof. intros w a w' Heq id _. inversion Heq; subst. apply member_kept_refl. Qed.

Lemma writes_only_modify ids f :
  (forall e id, id ∉ ids -> member_kept id e (f e)) -> writes_only ids (modify f).
Proof. intros Hf w a w' Heq id Hid. inversion Heq; subst. apply Hf, Hid. Qed.

Section Written.
Context `{DeviceKernels}.

(** A member update that leaves alone the buffers outside a given list. *)
Ltac writes_members :=
  let e := fresh "e" in
  let id := fresh "id" in
  let Hid := fresh "Hid" in
  intros e id Hid;
  destruct id; try reflexivity; try exact I;
  exfalso; apply Hid; set_solver.

Ltac case_if :=
  match goal with
  | |- context [if ?c then _ else _] => destruct c
  end.

Lemma writes_only_requestCamera ids c s : writes_only ids (requestCamera c s).
Proof.
  unfold requestCamera.
  apply writes_only_bind; [apply writes_only_emit | intros; apply writes_only_ret].
Qed.

Lemma writes_only_upload_depths depths :
  forall i, writes_only [depths_hmh] (upload_depths i depths).
Proof.
  induction depths as [|d rest IH]; intros i; simpl; [apply writes_only_ret|].
  apply writes_only_bind; [apply writes_only_get_engine | intros e].
  case_if; [|apply writes_only_undefined].
  apply writes_only_bind; [apply writes_only_modify; writes_members | intros; apply IH].
Qed.

Lemma writes_only_similarity_loop dl rcCam r tcams :
  forall tci, writes_only [volumeBestSim_dmp; volumeSecBestSim_dmp]
                (similarity_loop dl rcCam r tci tcams).
Proof.
  induction tcams as [|tc rest IH]; intros tci; simpl; [apply writes_only_ret|].
  destruct (getDepthsTcLimits dl !! tci) as [[x y]|]; [|apply writes_only_undefined].
  apply writes_only_bind; [apply writes_only_int_op | intros lastDepth].
  apply writes_only_bind; [apply writes_only_get_engine | intros e].
  apply writes_only_bind; [apply writes_only_requestCamera | intros tcCam].
  apply writes_only_bind; [apply writes_only_modify; writes_members | intros; apply IH].
Qed.

Lemma writes_only_initialize_volumes tile :
  writes_only [volumeBestSim_dmp; volumeSecBestSim_dmp] (initialize_volumes tile).
Proof.
  unfold initialize_volumes.
  apply writes_only_bind; [apply writes_only_get_engine | intros e].
  apply writes_only_bind; [apply writes_only_int_op | intros ds].
  apply writes_only_bind; [apply writes_only_modify; writes_members | intros _].
  apply writes_only_bind; [apply writes_only_modify; writes_members | intros _].
  apply writes_only_ret.
Qed.

Lemma writes_only_computeSimilarityVolumes tile dl :
  writes_only [volumeBestSim_dmp; volumeSecBestSim_dmp] (computeSimilarityVolumes tile dl).
Proof.
  unfold computeSimilarityVolumes.
  apply writes_only_bind; [apply writes_only_initialize_volumes | intros r].
  apply writes_only_bind; [apply writes_only_get_engine | intros e].
  apply writes_only_bind; [apply writes_only_requestCamera | intros rcCam].
  apply writes_only_similarity_loop.
Qed.

Lemma writes_only_optimizeSimilarityVolume tile dl :
  writes_only [volumeBestSim_dmp; volumeSliceAccA_dmp; volumeSliceAccB_dmp;
               volumeAxisAcc_dmp] (optimizeSimilarityVolume tile dl).
Proof.
  unfold optimizeSimilarityVolume.
  apply writes_only_bind; [apply writes_only_get_engine | intros e].
  apply writes_only_bind; [apply writes_only_int_op | intros ds].
  apply writes_only_bind; [apply writes_only_requestCamera | intros rcCam].
  apply writes_only_modify. intros e' id Hid. unfold cuda_volumeOptimize.
  destruct (sweep_scratch _ _ _ _ _) as [[a b] x].
  destruct id; try reflexivity; try exact I; exfalso; apply Hid; set_solver.
Qed.

Lemma writes_only_retrieveBestDepth tile dl :
  writes_only [depthSimMap_dmp] (retrieveBestDepth tile dl).
Proof.
  unfold retrieveBestDepth.
  apply writes_only_bind; [apply writes_only_get_engine | intros e].
  apply writes_only_bind; [apply writes_only_int_op | intros ds].
  apply writes_only_bind; [apply writes_only_requestCamera | intros rcCam].
  apply writes_only_modify; writes_members.
Qed.

Lemma writes_only_exportVolumeInformation v name :
  writes_only [] (exportVolumeInformation v name).
Proof.
  intros w a w' Hrun id _.
  destruct (exportVolumeInformation_defined v name w) as [d' Heq].
  rewrite Heq in Hrun. inversion Hrun; subst. apply member_kept_refl.
Qed.

Lemma writes_only_fuse tile dl :
  writes_only [depths_hmh; depths_dmp; volumeBestSim_dmp; volumeSecBestSim_dmp]
    (fuse tile dl).
Proof.
  unfold fuse.
  apply writes_only_bind.
  { eapply writes_only_weaken; [|apply writes_only_upload_depths]. compute_done. }
  intros _. apply writes_only_bind; [apply writes_only_modify; writes_members | intros _].
  apply writes_only_bind.
  { eapply writes_only_weaken; [|apply writes_only_computeSimilarityVolumes]. compute_done. }
  intros _. apply writes_only_when, writes_only_modify; writes_members.
Qed.

Lemma writes_only_filter_volume tile dl :
  writes_only [volumeBestSim_dmp; volumeSliceAccA_dmp; volumeSliceAccB_dmp;
               volumeAxisAcc_dmp] (filter_volume tile dl).
Proof.
  unfold filter_volume.
  apply writes_only_bind; [apply writes_only_get_engine | intros e].
  apply writes_only_bind.
  { apply writes_only_when.
    eapply writes_only_weaken; [|apply writes_only_exportVolumeInformation]. compute_done. }
  intros _. apply writes_only_bind.
  - destruct (doSgmOptimizeVolume _).
    + apply writes_only_optimizeSimilarityVolume.
    + apply writes_only_modify; writes_members.
  - intros _. apply writes_only_bind; [apply writes_only_get_engine | intros e'].
    apply writes_only_when.
    eapply writes_only_weaken; [|apply writes_only_exportVolumeInformation]. compute_done.
Qed.

Lemma writes_only_extract tile dl : writes_only [depthSimMap_dmp] (extract tile dl).
Proof.
  unfold extract.
  apply writes_only_bind; [apply writes_only_retrieveBestDepth | intros _].
  apply writes_only_bind; [apply writes_only_get_engine | intros e].
  apply writes_only_when, writes_only_emit.
Qed.

End Written.

(** ** The depth upload and the inputs [sgmRc] returns on *)

Lemma staged_miss depths : forall i old idx,
  (forall k, (k < length depths)%nat -> idx <> [i + Z.of_nat k; 0]) ->
  staged i depths old idx = old idx.
Proof.
  induction depths as [|d rest IH]; intros i old idx Hmiss; [reflexivity|].
  cbn [staged]. rewrite IH.
  - destruct (decide (idx = [i; 0])) as [->|]; [|reflexivity].
    exfalso. apply (Hmiss 0%nat); [cbn [length]; lia|].
    rewrite Z.add_0_r. reflexivity.
  - intros k Hk. replace (i + 1 + Z.of_nat k) with (i + Z.of_nat (S k)) by lia.
    apply Hmiss. cbn [length]. lia.
Qed.

Lemma staged_hit depths : forall i old k d,
  depths !! k = Some d -> staged i depths old [i + Z.of_nat k; 0] = d.
Proof.
  induction depths as [|d0 rest IH]; intros i old k d Hk; [discriminate|].
  cbn [staged]. destruct k as [|k].
  - inversion Hk; subst. rewrite staged_miss.
    + rewrite Z.add_0_r. destruct (decide _); [reflexivity | contradiction].
    + intros k _ Heq. inversion Heq. lia.
  - replace (i + Z.of_nat (S k)) with (i + 1 + Z.of_nat k) by lia.
    apply IH. exact Hk.
Qed.

Section Upload.
Context `{DeviceKernels}.

Ltac case_if_in H :=
  match type of H with
  | context [if ?c then _ else _] => destruct c eqn:?
  end.

(** The loop leaves in the staging buffer the cells of [staged]. *)
Lemma upload_depths_data depths : forall i w w',
  upload_depths i depths w = Ok tt w' ->
  b_data (_depths_hmh (fst w')) = staged i depths (b_data (_depths_hmh (fst w))).
Proof.
  induction depths as [|d rest IH]; intros i w w' Hrun; cbn [upload_depths] in Hrun.
  - inversion Hrun; subst. reflexivity.
  - rewrite bind_get_engine in Hrun.
    case_if_in Hrun; [|discriminate].
    rewrite (bind_Ok _ _ _ _ _ (modify_eq _ _)) in Hrun.
    apply IH in Hrun. exact Hrun.
Qed.

(** The loop returns only if every cell it stores to is a cell of the
    staging buffer. *)
Lemma upload_depths_fits depths : forall i w w',
  0 <= i -> depths <> [] ->
  upload_depths i depths w = Ok tt w' ->
  exists n h, b_size (_depths_hmh (fst w)) = [n; h]
              /\ i + Z.of_nat (length depths) <= n /\ 0 < h.
Proof.
  induction depths as [|d rest IH]; intros i w w' Hi Hne Hrun; [contradiction|].
  cbn [upload_depths] in Hrun. rewrite bind_get_engine in Hrun.
  destruct (in_bounds [i; 0] (b_size (_depths_hmh (fst w)))) eqn:Hb; [|discriminate].
  rewrite (bind_Ok _ _ _ _ _ (modify_eq _ _)) in Hrun.
  destruct (b_size (_depths_hmh (fst w))) as [|n [|h [|]]] eqn:Hsize;
    cbn [in_bounds] in Hb; rewrite ?andb_false_r in Hb; try discriminate.
  rewrite !andb_true_iff in Hb. destruct Hb as [[_ Hn] [[_ Hh] _]].
  apply Z.ltb_lt in Hn, Hh.
  exists n, h. split; [reflexivity|].
  destruct rest as [|d' rest'].
  - cbn [length]. lia.
  - destruct (IH (i + 1) _ _ ltac:(lia) ltac:(discriminate) Hrun) as (n' & h' & Hs & Hle & _).
    cbn [fst set_depths_hmh _depths_hmh write b_size] in Hs. rewrite Hsize in Hs.
    inversion Hs; subst n' h'. cbn [length] in *. lia.
Qed.

Lemma similarity_loop_limits dl rcCam r tcams : forall tci w w',
  similarity_loop dl rcCam r tci tcams w = Ok tt w' ->
  limits_ok (getDepthsTcLimits dl) tci (length tcams) = true.
Proof.
  induction tcams as [|tc rest IH]; intros tci w w' Hrun; [reflexivity|].
  cbn [similarity_loop] in Hrun. cbn [length]. rewrite limits_ok_S.
  destruct (getDepthsTcLimits dl !! tci) as [[x y]|]; [|discriminate].
  apply bind_Ok_inv in Hrun as (lastDepth & w1 & Hint & Hrun).
  unfold int_op in Hint. destruct (in_int (x + y)); [|discriminate].
  inversion Hint; subst lastDepth w1.
  rewrite bind_get_engine in Hrun.
  rewrite (bind_Ok _ _ _ _ _ (requestCamera_eq _ _ _)) in Hrun.
  rewrite (bind_Ok _ _ _ _ _ (modify_eq _ _)) in Hrun.
  apply IH in Hrun. rewrite Hrun. reflexivity.
Qed.

Lemma initialize_volumes_int tile w r w' :
  initialize_volumes tile w = Ok r w' ->
  in_int (scale (_sgmParams (fst w)) * stepXY (_sgmParams (fst w))) = true.
Proof.
  unfold initialize_volumes. rewrite bind_get_engine. intros Hrun.
  apply bind_Ok_inv in Hrun as (ds & w1 & Hint & _).
  unfold int_op in Hint. destruct (in_int _); [reflexivity | discriminate].
Qed.

(** The fusion stage returns only on well formed inputs. *)
Lemma fuse_well_formed tile dl w w' :
  getDepths dl <> [] ->
  fuse tile dl w = Ok tt w' ->
  well_formed tile dl (fst w) = true.
Proof.
  intros Hd Hrun. unfold fuse in Hrun.
  apply bind_Ok_inv in Hrun as ([] & w1 & Hup & Hrun).
  rewrite (bind_Ok _ _ _ _ _ (modify_eq _ _)) in Hrun.
  apply bind_Ok_inv in Hrun as ([] & w3 & Hc & _).
  pose proof (steady_sgmParams _ _ (keeps_upload_depths _ _ _ _ _ Hup)) as Hp.
  destruct (upload_depths_fits _ 0 _ _ ltac:(lia) Hd Hup) as (n & h & Hsize & Hn & Hh).
  unfold computeSimilarityVolumes in Hc.
  apply bind_Ok_inv in Hc as (r & w4 & Hinit & Hc).
  pose proof (initialize_volumes_int _ _ _ _ Hinit) as Hint.
  cbn [fst set_depths_dmp _sgmParams] in Hint. rewrite Hp in Hint.
  rewrite bind_get_engine in Hc.
  apply bind_Ok_inv in Hc as (rcCam & w5 & _ & Hloop).
  apply similarity_loop_limits in Hloop.
  unfold well_formed, depths_fit. rewrite Hint, Hsize, Hloop.
  rewrite !andb_true_iff. repeat split; [apply Z.leb_le | apply Z.ltb_lt]; lia.
Qed.

(** Without a T camera or without a depth [sgmRc] throws at once. *)
Lemma sgmRc_no_inputs tile dl w :
  sgmTCams tile = [] \/ getDepths dl = [] ->
  sgmRc tile dl w = Thrown (NoDepthsOrNoTCams (getViewId (_mp (fst w)) (rc tile))) w.
Proof.
  intros Hempty. unfold sgmRc, check_inputs.
  unfold bind at 1. unfold bind at 1. unfold get_engine.
  destruct Hempty as [-> | ->]; [reflexivity|].
  destruct (sgmTCams tile); reflexivity.
Qed.

(** [sgmRc] returns exactly on non empty, well formed inputs. *)
Lemma sgmRc_Ok_iff tile dl w :
  (exists w', sgmRc tile dl w = Ok tt w')
  <-> (sgmTCams tile <> [] /\ getDepths dl <> []
       /\ well_formed tile dl (fst w) = true).
Proof.
  split.
  - intros [w' Hrun].
    assert (Htc : sgmTCams tile <> []).
    { intros Hc. rewrite sgmRc_no_inputs in Hrun by (left; exact Hc). discriminate. }
    assert (Hd : getDepths dl <> []).
    { intros Hc. rewrite sgmRc_no_inputs in Hrun by (right; exact Hc). discriminate. }
    split; [exact Htc|]. split; [exact Hd|].
    rewrite sgmRc_after_guard in Hrun by assumption.
    apply bind_Ok_inv in Hrun as ([] & w1 & Hfuse & _).
    eapply fuse_well_formed; eassumption.
  - intros (Htc & Hd & Hwf). apply sgmRc_defined; assumption.
Qed.

(** Past its guard [sgmRc] does not throw. *)
Lemma sgmRc_Thrown_inv tile dl w e w' :
  sgmRc tile dl w = Thrown e w' ->
  (sgmTCams tile = [] \/ getDepths dl = [])
  /\ e = NoDepthsOrNoTCams (getViewId (_mp (fst w)) (rc tile)) /\ w' = w.
Proof.
  intros Hrun.
  destruct (sgmTCams tile) as [|tc tcams] eqn:Htc.
  { rewrite sgmRc_no_inputs in Hrun by (left; exact Htc).
    inversion Hrun; subst. auto. }
  destruct (getDepths dl) as [|d depths] eqn:Hd.
  { rewrite sgmRc_no_inputs in Hrun by (right; exact Hd).
    inversion Hrun; subst. auto. }
  exfalso.
  rewrite sgmRc_after_guard in Hrun by (rewrite ?Htc, ?Hd; discriminate).
  revert Hrun.
  apply no_throw_bind; [apply no_throw_fuse | intros _].
  apply no_throw_bind; [apply no_throw_filter_volume | intros _].
  apply no_throw_extract.
Qed.

End Upload.

(** ** What a run issues *)




Section Issued.
Context `{DeviceKernels}.










End Issued.

(** ** Whole runs of [sgmRc] *)

Section WholeRuns.
Context `{DeviceKernels}.

(** The three stages of a run that returns. *)
Lemma sgmRc_stages tile dl w w' :
  sgmRc tile dl w = Ok tt w' ->
  exists w1 w2,
    fuse tile dl w = Ok tt w1
    /\ filter_volume tile dl w1 = Ok tt w2
    /\ extract tile dl w2 = Ok tt w'.
Proof.
  intros Hrun.
  destruct (proj1 (sgmRc_Ok_iff tile dl w) (ex_intro _ w' Hrun)) as (Htc & Hd & _).
  rewrite sgmRc_after_guard in Hrun by assumption.
  apply bind_Ok_inv in Hrun as ([] & w1 & Hfuse & Hrun).
  apply bind_Ok_inv in Hrun as ([] & w2 & Hfilter & Hextract).
  exists w1, w2. repeat split; assumption.
Qed.

(** What the fusion stage leaves in the two depth buffers. *)
Lemma fuse_depth_buffers tile dl w w1 :
  fuse tile dl w = Ok tt w1 ->
  b_data (_depths_hmh (fst w1))
  = staged 0 (getDepths dl) (b_data (_depths_hmh (fst w)))
  /\ b_data (_depths_dmp (fst w1)) = b_data (_depths_hmh (fst w1)).
Proof.
  unfold fuse. intros Hrun.
  apply bind_Ok_inv in Hrun as ([] & wa & Hup & Hrun).
  rewrite (bind_Ok _ _ _ _ _ (modify_eq _ _)) in Hrun.
  apply bind_Ok_inv in Hrun as ([] & wc & Hc & Hrun).
  apply upload_depths_data in Hup.
  assert (Hlast : _depths_hmh (fst w1) = _depths_hmh (fst wc)
                  /\ _depths_dmp (fst w1) = _depths_dmp (fst wc)).
  { unfold when in Hrun. destruct (_ <? _)%nat.
    - rewrite modify_eq in Hrun. inversion Hrun. split; reflexivity.
    - inversion Hrun. split; reflexivity. }
  destruct Hlast as [Hh Hd].
  pose proof (writes_only_computeSimilarityVolumes _ _ _ _ _ Hc depths_hmh
                ltac:(compute_done)) as Kh.
  pose proof (writes_only_computeSimilarityVolumes _ _ _ _ _ Hc depths_dmp
                ltac:(compute_done)) as Kd.
  cbn [member_kept fst set_depths_dmp _depths_hmh _depths_dmp] in Kh, Kd.
  rewrite Hh, Hd, Kh, Kd. split; [exact Hup | reflexivity].
Qed.

(** The state [after_sgmRc] is the one a run returns. *)
Lemma after_sgmRc_returned tile dl w :
  sgmTCams tile <> [] -> getDepths dl <> [] ->
  well_formed tile dl (fst w) = true ->
  sgmRc tile dl w = Ok tt (after_sgmRc tile dl w).
Proof.
  intros Htc Hd Hwf.
  destruct (sgmRc_defined tile dl w Htc Hd Hwf) as [w' Hrun].
  unfold after_sgmRc. rewrite Hrun. reflexivity.
Qed.

(** The consumption queries read the parameters and the shapes of the
    buffers only. *)
Lemma deviceBytes_layout e e' :
  _sgmParams e' = _sgmParams e -> layout e' = layout e ->
  deviceBytesPadded e' = deviceBytesPadded e
  /\ deviceBytesUnpadded e' = deviceBytesUnpadded e.
Proof.
  intros Hp Hl. unfold layout, shape in Hl. injection Hl. intros.
  unfold deviceBytesPadded, deviceBytesUnpadded, getBytesPadded, getBytesUnpadded,
    padded_bytes, unpadded_bytes.
  repeat match goal with
         | E : _ = _ |- _ => rewrite E; clear E
         end.
  split; reflexivity.
Qed.

(** The staging buffer of a built engine takes up to [maxDepths] depths. *)
Lemma well_formed_built tile dl mp tp p jD jM jS :
  valid_config tp p = true ->
  limits_ok (getDepthsTcLimits dl) 0 (length (sgmTCams tile)) = true ->
  well_formed tile dl (built mp tp p jD jM jS)
  = (Z.of_nat (length (getDepths dl)) <=? maxDepths p).
Proof.
  intros Hvalid Hlim.
  destruct (valid_config_inv _ _ Hvalid) as (_ & Hmd & _ & _).
  assert (Hint : in_int (scale p * stepXY p) = true).
  { unfold valid_config in Hvalid. rewrite !andb_true_iff in Hvalid. tauto. }
  assert (Hmd' : to_size_t (maxDepths p) = maxDepths p).
  { apply to_size_t_small. unfold int_max, size_t_modulus in *. lia. }
  unfold well_formed, built, depths_fit.
  cbn [_sgmParams _depths_hmh allocated b_size map].
  rewrite Hint, Hlim, Hmd'. change (to_size_t 1) with 1.
  rewrite andb_true_r. cbn [andb]. apply andb_true_r.
Qed.

End WholeRuns.

(** ** Allocations, at construction and while processing *)



Section Allocations.
Context `{DeviceKernels}.




End Allocations.



Section RunProperties.
Context `{DeviceKernels}.

(** X1.  On non empty, well formed inputs [sgmRc] returns with the depth
    list in the device depth buffer: cell (i, 0) holds the i-th depth of
    the tile.  Every other cell of the device buffer holds what the host
    staging buffer held there before the call (the whole staging buffer is
    copied, stale cells included), and at the end the staging buffer and
    the device buffer hold the same cells. *)
Theorem sgmRc_uploads_depths (tile : Tile) (dl : SgmDepthList) (w : World) :
  sgmTCams tile <> [] ->
  getDepths dl <> [] ->
  well_formed tile dl (fst w) = true ->
  exists w',
    sgmRc tile dl w = Ok tt w'
    /\ (forall i d, getDepths dl !! i = Some d ->
          b_data (_depths_dmp (fst w')) [Z.of_nat i; 0] = d)
    /\ (forall idx,
          (forall i, (i < length (getDepths dl))%nat -> idx <> [Z.of_nat i; 0]) ->
          b_data (_depths_dmp (fst w')) idx = b_data (_depths_hmh (fst w)) idx)
    /\ b_data (_depths_hmh (fst w')) = b_data (_depths_dmp (fst w')).
Proof.
  intros Htc Hd Hwf.
  destruct (sgmRc_defined tile dl w Htc Hd Hwf) as [w' Hrun].
  exists w'. split; [exact Hrun|].
  destruct (sgmRc_stages _ _ _ _ Hrun) as (w1 & w2 & Hfuse & Hfilter & Hextract).
  destruct (fuse_depth_buffers _ _ _ _ Hfuse) as [Hh Hdev].
  pose proof (writes_only_filter_volume _ _ _ _ _ Hfilter depths_hmh ltac:(compute_done)) as F1.
  pose proof (writes_only_filter_volume _ _ _ _ _ Hfilter depths_dmp ltac:(compute_done)) as F2.
  pose proof (writes_only_extract _ _ _ _ _ Hextract depths_hmh ltac:(compute_done)) as E1.
  pose proof (writes_only_extract _ _ _ _ _ Hextract depths_dmp ltac:(compute_done)) as E2.
  cbn [member_kept] in F1, F2, E1, E2.
  rewrite E1, E2, F1, F2, Hdev, Hh.
  split; [|split; [|reflexivity]].
  - intros i d Hi. apply (staged_hit (getDepths dl) 0 _ i d Hi).
  - intros idx Hmiss. apply staged_miss. intros k Hk. apply Hmiss. exact Hk.
Qed.

(** X3.  An engine built for a valid configuration processes, for a tile
    with T cameras and their limits, exactly the depth lists of 1 to
    [maxDepths] depths; on a longer list [sgmRc] stores past the end of
    the staging buffer. *)
Theorem built_engine_takes_maxDepths mp tp p jD jM jS d w
    (tile : Tile) (dl : SgmDepthList) :
  valid_config tp p = true ->
  construct mp tp p jD jM jS d = Ok tt w ->
  sgmTCams tile <> [] ->
  limits_ok (getDepthsTcLimits dl) 0 (length (sgmTCams tile)) = true ->
  ((exists w', sgmRc tile dl w = Ok tt w')
   <-> 1 <= Z.of_nat (length (getDepths dl)) <= maxDepths p)
  /\ (maxDepths p < Z.of_nat (length (getDepths dl)) -> sgmRc tile dl w = Undefined).
Proof.
  intros Hvalid Hbuilt Htc Hlim.
  destruct (construct_inv _ _ _ _ _ _ _ _ Hbuilt) as (_ & _ & He & _).
  pose proof (well_formed_built tile dl mp tp p jD jM jS Hvalid Hlim) as Hwf.
  rewrite <- He in Hwf.
  assert (Hlen : getDepths dl <> [] <-> 1 <= Z.of_nat (length (getDepths dl))).
  { destruct (getDepths dl); cbn [length]; split; intros Hx;
      try lia; try discriminate; contradiction. }
  split.
  - rewrite sgmRc_Ok_iff, Hwf, Z.leb_le. tauto.
  - intros Hlong.
    destruct (sgmRc tile dl w) as [[] w'|e w'|] eqn:Hrun; [| |reflexivity].
    + destruct (proj1 (sgmRc_Ok_iff tile dl w) (ex_intro _ w' Hrun)) as (_ & _ & Hwf').
      rewrite Hwf in Hwf'. apply Z.leb_le in Hwf'. lia.
    + destruct (sgmRc_Thrown_inv _ _ _ _ _ Hrun) as ([Hc | Hc] & _); [contradiction|].
      destruct (valid_config_inv _ _ Hvalid) as (_ & Hmd & _).
      rewrite Hc in Hlong. cbn [length] in Hlong. lia.
Qed.

(** X4.  What each stage writes.  [computeSimilarityVolumes] writes the
    two similarity volumes and no other buffer of the engine;
    [optimizeSimilarityVolume] the best volume and the three accumulation
    buffers; [retrieveBestDepth] the depth/sim map; and
    [exportVolumeInformation] none: every other member buffer is, cells
    included, what it was. *)
Theorem stages_write_only_their_outputs (tile : Tile) (dl : SgmDepthList)
    (v : Buffer TSim) (name : string) :
  writes_only [volumeBestSim_dmp; volumeSecBestSim_dmp] (computeSimilarityVolumes tile dl)
  /\ writes_only [volumeBestSim_dmp; volumeSliceAccA_dmp; volumeSliceAccB_dmp;
                  volumeAxisAcc_dmp] (optimizeSimilarityVolume tile dl)
  /\ writes_only [depthSimMap_dmp] (retrieveBestDepth tile dl)
  /\ writes_only [] (exportVolumeInformation v name).
Proof.
  split; [apply writes_only_computeSimilarityVolumes|].
  split; [apply writes_only_optimizeSimilarityVolume|].
  split; [apply writes_only_retrieveBestDepth | apply writes_only_exportVolumeInformation].
Qed.

(** X5.  With [doSgmOptimizeVolume] off a run of [sgmRc] never touches the
    two slice buffers and the axis buffer (which the constructor did not
    allocate): they are, cells included, what they were. *)
Theorem sgmRc_leaves_scratch_without_optimization (tile : Tile) (dl : SgmDepthList)
    (w w' : World) :
  doSgmOptimizeVolume (_sgmParams (fst w)) = false ->
  sgmRc tile dl w = Ok tt w' ->
  _volumeSliceAccA_dmp (fst w') = _volumeSliceAccA_dmp (fst w)
  /\ _volumeSliceAccB_dmp (fst w') = _volumeSliceAccB_dmp (fst w)
  /\ _volumeAxisAcc_dmp (fst w') = _volumeAxisAcc_dmp (fst w).
Proof.
  intros Hopt Hrun.
  destruct (sgmRc_stages _ _ _ _ Hrun) as (w1 & w2 & Hfuse & Hfilter & Hextract).
  pose proof (steady_sgmParams _ _ (keeps_fuse _ _ _ _ _ Hfuse)) as Hp1.
  destruct (filter_volume_passthrough tile dl w1) as [d' Hpass].
  { rewrite Hp1. exact Hopt. }
  rewrite Hpass in Hfilter. inversion Hfilter; subst w2. clear Hfilter.
  pose proof (writes_only_fuse _ _ _ _ _ Hfuse) as F.
  pose proof (writes_only_extract _ _ _ _ _ Hextract) as E.
  pose proof (F volumeSliceAccA_dmp ltac:(compute_done)) as FA.
  pose proof (F volumeSliceAccB_dmp ltac:(compute_done)) as FB.
  pose proof (F volumeAxisAcc_dmp ltac:(compute_done)) as FX.
  pose proof (E volumeSliceAccA_dmp ltac:(compute_done)) as EA.
  pose proof (E volumeSliceAccB_dmp ltac:(compute_done)) as EB.
  pose proof (E volumeAxisAcc_dmp ltac:(compute_done)) as EX.
  cbn [member_kept fst set_volumeBestSim_dmp _volumeSliceAccA_dmp _volumeSliceAccB_dmp
       _volumeAxisAcc_dmp] in FA, FB, FX, EA, EB, EX.
  rewrite EA, EB, EX. repeat split; assumption.
Qed.

(** X6.  Processing a tile does not change what the engine reports as its
    device memory: after a call of [sgmRc], returned or thrown, both
    consumption queries answer what they answered before. *)
Theorem consumption_unchanged_by_sgmRc (tile : Tile) (dl : SgmDepthList) (w w' : World) :
  (sgmRc tile dl w = Ok tt w' \/ exists e, sgmRc tile dl w = Thrown e w') ->
  getDeviceMemoryConsumption (fst w') = getDeviceMemoryConsumption (fst w)
  /\ getDeviceMemoryConsumptionUnpadded (fst w')
     = getDeviceMemoryConsumptionUnpadded (fst w).
Proof.
  intros [Hrun | [e Hrun]].
  - pose proof (keeps_sgmRc _ _ _ _ _ Hrun) as Hs.
    destruct (deviceBytes_layout _ _ (steady_sgmParams _ _ Hs) (steady_layout _ _ Hs))
      as [Hp Hu].
    unfold getDeviceMemoryConsumption, getDeviceMemoryConsumptionUnpadded.
    rewrite Hp, Hu. split; reflexivity.
  - destruct (sgmRc_Thrown_inv _ _ _ _ _ Hrun) as (_ & _ & ->). split; reflexivity.
Qed.


(** X8.  With exactly one T camera, on well formed inputs, the volume that
    [sgmRc] ends with in [_volumeBestSim_dmp], from which the depths are
    retrieved, is the best volume of the fusion stage: as it is when
    [doSgmOptimizeVolume] is off (the copy into the second best volume and
    the copy back cancel), regularized when it is on. *)
Theorem single_tc_final_volume (tile : Tile) (dl : SgmDepthList) (w : World) :
  length (sgmTCams tile) = 1%nat ->
  getDepths dl <> [] ->
  well_formed tile dl (fst w) = true ->
  exists fused w',
    fuse tile dl w = Ok tt fused
    /\ sgmRc tile dl w = Ok tt w'
    /\ b_data (_volumeBestSim_dmp (fst w'))
       = if doSgmOptimizeVolume (_sgmParams (fst w))
         then aggregate (b_data (_volumeBestSim_dmp (fst fused)))
                (mkDeviceCamera (rc tile) (scale (_sgmParams (fst w))))
                (_sgmParams (fst w)) (Z.of_nat (length (getDepths dl)))
                (downscaleROI (roi tile)
                   (scale (_sgmParams (fst w)) * stepXY (_sgmParams (fst w))))
         else b_data (_volumeBestSim_dmp (fst fused)).
Proof.
  intros Hone Hd Hwf.
  assert (Htc : sgmTCams tile <> []) by (destruct (sgmTCams tile); [discriminate Hone | discriminate]).
  destruct (sgmRc_defined tile dl w Htc Hd Hwf) as [w' Hrun].
  destruct (sgmRc_stages _ _ _ _ Hrun) as (w1 & w2 & Hfuse & Hfilter & Hextract).
  exists w1, w'. split; [exact Hfuse|]. split; [exact Hrun|].
  pose proof (steady_sgmParams _ _ (keeps_fuse _ _ _ _ _ Hfuse)) as Hp1.
  destruct (well_formed_inv _ _ _ Hwf) as (Hint & _ & _).
  (* the single T camera: second best is a copy of best *)
  assert (Hsec : b_data (_volumeSecBestSim_dmp (fst w1)) = b_data (_volumeBestSim_dmp (fst w1))).
  { unfold fuse in Hfuse.
    apply bind_Ok_inv in Hfuse as (? & wa & _ & Hfuse).
    apply bind_Ok_inv in Hfuse as (? & wb & _ & Hfuse).
    apply bind_Ok_inv in Hfuse as (? & wc & _ & Hfuse).
    rewrite Hone in Hfuse. cbn [Nat.ltb Nat.leb when] in Hfuse.
    rewrite modify_eq in Hfuse. inversion Hfuse; subst. reflexivity. }
  pose proof (writes_only_extract _ _ _ _ _ Hextract volumeBestSim_dmp
                ltac:(compute_done)) as Hbest.
  cbn [member_kept] in Hbest. rewrite Hbest.
  destruct (doSgmOptimizeVolume (_sgmParams (fst w))) eqn:Hopt.
  - destruct (filter_volume_optimized tile dl w1) as (wo & d' & Hopt_run & Hfilter').
    { rewrite Hp1. exact Hopt. }
    { rewrite Hp1. exact Hint. }
    rewrite Hfilter' in Hfilter. inversion Hfilter; subst w2. clear Hfilter.
    rewrite optimizeSimilarityVolume_eq in Hopt_run by (rewrite Hp1; exact Hint).
    inversion Hopt_run; subst wo. clear Hopt_run.
    unfold cuda_volumeOptimize. destruct (sweep_scratch _ _ _ _ _) as [[a b] x].
    cbn [fst set_volumeAxisAcc_dmp set_volumeSliceAccB_dmp set_volumeSliceAccA_dmp
         set_volumeBestSim_dmp _volumeBestSim_dmp set_data b_data].
    rewrite Hsec, Hp1. reflexivity.
  - destruct (filter_volume_passthrough tile dl w1) as [d' Hpass].
    { rewrite Hp1. exact Hopt. }
    rewrite Hpass in Hfilter. inversion Hfilter; subst w2. clear Hfilter.
    cbn [fst set_volumeBestSim_dmp _volumeBestSim_dmp copyFrom b_data].
    exact Hsec.
Qed.

(** X9.  Whether a tile can be processed does not depend on the tiles the
    engine processed before: after a run of [sgmRc] that returned, a call
    on a second tile returns, throws or leaves defined behaviour exactly
    as it would have on the engine before that run. *)
Theorem tile_outcome_independent_of_history (tile1 tile2 : Tile) (dl1 dl2 : SgmDepthList)
    (w w1 : World) :
  sgmRc tile1 dl1 w = Ok tt w1 ->
  ((exists w2, sgmRc tile2 dl2 w1 = Ok tt w2) <-> (exists w2, sgmRc tile2 dl2 w = Ok tt w2))
  /\ ((exists e w2, sgmRc tile2 dl2 w1 = Thrown e w2)
      <-> (exists e w2, sgmRc tile2 dl2 w = Thrown e w2))
  /\ (sgmRc tile2 dl2 w1 = Undefined <-> sgmRc tile2 dl2 w = Undefined).
Proof.
  intros Hrun.
  pose proof (well_formed_steady tile2 dl2 _ _ (keeps_sgmRc _ _ _ _ _ Hrun)) as Hwf.
  assert (Hok : (exists w2, sgmRc tile2 dl2 w1 = Ok tt w2)
                <-> (exists w2, sgmRc tile2 dl2 w = Ok tt w2)).
  { rewrite !sgmRc_Ok_iff, Hwf. reflexivity. }
  assert (Hthrow : forall v v', (exists e w2, sgmRc tile2 dl2 v = Thrown e w2) ->
                                exists e w2, sgmRc tile2 dl2 v' = Thrown e w2).
  { intros v v' (e & w2 & Ht).
    destruct (sgmRc_Thrown_inv _ _ _ _ _ Ht) as (Hempty & _).
    eexists _, _. apply sgmRc_no_inputs. exact Hempty. }
  split; [exact Hok|]. split; [split; apply Hthrow|].
  assert (Hundef : forall v v',
            ((exists w2, sgmRc tile2 dl2 v = Ok tt w2)
             <-> (exists w2, sgmRc tile2 dl2 v' = Ok tt w2)) ->
            sgmRc tile2 dl2 v = Undefined -> sgmRc tile2 dl2 v' = Undefined).
  { intros v v' Hiff Hu.
    assert (Hback : forall w2, sgmRc tile2 dl2 v' = Ok tt w2 -> False).
    { intros w2 Hw2. destruct (proj2 Hiff (ex_intro _ w2 Hw2)) as [w3 Hw3]. congruence. }
    clear Hiff.
    destruct (sgmRc tile2 dl2 v') as [[] w2|e w2|] eqn:Hv'; [| |reflexivity].
    - exfalso. exact (Hback w2 eq_refl).
    - destruct (Hthrow v' v (ex_intro _ e (ex_intro _ w2 Hv'))) as (e' & w3 & Hw3).
      congruence. }
  split; apply Hundef; [exact Hok | symmetry; exact Hok].
Qed.

End RunProperties.

(** X1 on the sample tile: the four depths of the sample list. *)
Lemma sgmRc_uploads_depths_sample :
  exists w',
    @sgmRc Sample.kernels (Sample.tile [1; 2]) Sample.depthList (Sample.world true 1)
    = Ok tt w'
    /\ (forall i d, getDepths Sample.depthList !! i = Some d ->
          b_data (_depths_dmp (fst w')) [Z.of_nat i; 0] = d)
    /\ (forall idx,
          (forall i, (i < 4)%nat -> idx <> [Z.of_nat i; 0]) ->
          b_data (_depths_dmp (fst w')) idx
          = b_data (_depths_hmh (fst (Sample.world true 1))) idx)
    /\ b_data (_depths_hmh (fst w')) = b_data (_depths_dmp (fst w')).
Proof.
  apply (@sgmRc_uploads_depths Sample.kernels (Sample.tile [1; 2]) Sample.depthList
           (Sample.world true 1)).
  - discriminate.
  - discriminate.
  - vm_compute. reflexivity.
Defined.

(** X3 on the sample engine, built for four depths. *)
Lemma built_engine_takes_maxDepths_sample :
  ((exists w', @sgmRc Sample.kernels (Sample.tile [1; 2]) Sample.depthList
                 (Sample.world true 1) = Ok tt w')
   <-> 1 <= Z.of_nat (length (getDepths Sample.depthList)) <= 4)
  /\ (4 < Z.of_nat (length (getDepths Sample.depthList)) ->
      @sgmRc Sample.kernels (Sample.tile [1; 2]) Sample.depthList (Sample.world true 1)
      = Undefined).
Proof.
  apply (@built_engine_takes_maxDepths Sample.kernels Sample.mp Sample.tileParams
           (Sample.sgmParams true 1) (fun _ => 0%Q) (fun _ => (0%Q, 0%Q)) (fun _ => 0)
           Sample.device (Sample.world true 1) (Sample.tile [1; 2]) Sample.depthList).
  - vm_compute. reflexivity.
  - apply (sample_world_constructed true 1);
      [reflexivity | discriminate | vm_compute; reflexivity | vm_compute; reflexivity
      | vm_compute; discriminate].
  - discriminate.
  - vm_compute. reflexivity.
Defined.

(** X5 on the sample engine built without optimization. *)
Lemma sgmRc_leaves_scratch_without_optimization_sample :
  let w := Sample.world false 1 in
  let w' := @after_sgmRc Sample.kernels (Sample.tile [1; 2]) Sample.depthList w in
  _volumeSliceAccA_dmp (fst w') = _volumeSliceAccA_dmp (fst w)
  /\ _volumeSliceAccB_dmp (fst w') = _volumeSliceAccB_dmp (fst w)
  /\ _volumeAxisAcc_dmp (fst w') = _volumeAxisAcc_dmp (fst w).
Proof.
  apply (@sgmRc_leaves_scratch_without_optimization Sample.kernels (Sample.tile [1; 2])
           Sample.depthList (Sample.world false 1)).
  - reflexivity.
  - apply after_sgmRc_returned; [discriminate | discriminate | vm_compute; reflexivity].
Defined.

(** X6 on the sample engine. *)
Lemma consumption_unchanged_by_sgmRc_sample :
  let w := Sample.world true 1 in
  let w' := @after_sgmRc Sample.kernels (Sample.tile [1; 2]) Sample.depthList w in
  getDeviceMemoryConsumption (fst w') = getDeviceMemoryConsumption (fst w)
  /\ getDeviceMemoryConsumptionUnpadded (fst w')
     = getDeviceMemoryConsumptionUnpadded (fst w).
Proof.
  apply (@consumption_unchanged_by_sgmRc Sample.kernels (Sample.tile [1; 2])
           Sample.depthList (Sample.world true 1)).
  left. apply after_sgmRc_returned; [discriminate | discriminate | vm_compute; reflexivity].
Defined.


(** X8 on the sample tile with the single T camera 1, optimization off. *)
Lemma single_tc_final_volume_sample :
  exists fused w',
    @fuse Sample.kernels (Sample.tile [1]) Sample.depthList (Sample.world false 1)
    = Ok tt fused
    /\ @sgmRc Sample.kernels (Sample.tile [1]) Sample.depthList (Sample.world false 1)
       = Ok tt w'
    /\ b_data (_volumeBestSim_dmp (fst w')) = b_data (_volumeBestSim_dmp (fst fused)).
Proof.
  apply (@single_tc_final_volume Sample.kernels (Sample.tile [1]) Sample.depthList
           (Sample.world false 1)).
  - reflexivity.
  - discriminate.
  - vm_compute. reflexivity.
Defined.

(** X9 on the sample engine: a list of five depths is out of bounds
    before and after a first tile was processed. *)
Lemma tile_outcome_independent_of_history_sample :
  let w := Sample.world true 1 in
  let w1 := @after_sgmRc Sample.kernels (Sample.tile [1; 2]) Sample.depthList w in
  let tile2 := Sample.tile [1] in
  let dl2 := mkSgmDepthList [1; 2; 3; 4; 5]%Q [(0, 2)] in
  ((exists w2, @sgmRc Sample.kernels tile2 dl2 w1 = Ok tt w2)
   <-> (exists w2, @sgmRc Sample.kernels tile2 dl2 w = Ok tt w2))
  /\ ((exists e w2, @sgmRc Sample.kernels tile2 dl2 w1 = Thrown e w2)
      <-> (exists e w2, @sgmRc Sample.kernels tile2 dl2 w = Thrown e w2))
  /\ (@sgmRc Sample.kernels tile2 dl2 w1 = Undefined
      <-> @sgmRc Sample.kernels tile2 dl2 w = Undefined).
Proof.
  apply (@tile_outcome_independent_of_history Sample.kernels (Sample.tile [1; 2])
           (Sample.tile [1]) Sample.depthList (mkSgmDepthList [1; 2; 3; 4; 5]%Q [(0, 2)])
           (Sample.world true 1)).
  apply after_sgmRc_returned; [discriminate | discriminate | vm_compute; reflexivity].
Defined.

Lemma megabytes_nonneg a : 0 <= a -> (0 <= megabytes a)%Q.
Proof.
  intros Ha. unfold megabytes, Qle, Qdiv, Qmult, Qinv, inject_Z. simpl. lia.
Qed.

Section Padding.
Context `{DeviceKernels}.

(** X10.  For an engine built for a valid configuration, on a device
    whose free memory is a [size_t], the unpadded consumption is never
    above the padded one, and neither is negative: rows are padded, never
    trimmed, and the byte counts do not wrap around. *)
Theorem unpadded_consumption_at_most_padded mp tp p jD jM jS d w' :
  valid_config tp p = true ->
  mem_free d < size_t_modulus ->
  construct mp tp p jD jM jS d = Ok tt w' ->
  (0 <= getDeviceMemoryConsumptionUnpadded (fst w'))%Q
  /\ (getDeviceMemoryConsumptionUnpadded (fst w') <= getDeviceMemoryConsumption (fst w'))%Q.
Proof.
  intros Hvalid Hmem Hrun.
  destruct (construct_inv _ _ _ _ _ _ _ _ Hrun) as (_ & _ & He & _ & _ & Hfit).
  destruct (construct_extents _ _ _ _ _ _ _ _ Hrun) as [Hiw Hih].
  pose proof (built_tight mp tp p jD jM jS Hvalid Hiw Hih) as Ht.
  rewrite He. clear He Hrun.
  remember (built mp tp p jD jM jS) as e eqn:Heq. clear Heq.
  destruct (deviceBytes_exact e Ht ltac:(lia)) as [Hp Hu].
  unfold getDeviceMemoryConsumption, getDeviceMemoryConsumptionUnpadded.
  rewrite Hp, Hu.
  destruct Ht as (T1 & T2 & T3 & T4 & T5 & T6 & T7). unfold tight in *.
  split.
  - apply megabytes_nonneg. destruct (doSgmOptimizeVolume (_sgmParams e)); lia.
  - apply megabytes_mono. destruct (doSgmOptimizeVolume (_sgmParams e)); lia.
Qed.

End Padding.

(** X10 on the sample engine: 1072 bytes of cells in 32768 bytes of padded
    rows. *)
Lemma unpadded_consumption_at_most_padded_sample :
  (0 <= getDeviceMemoryConsumptionUnpadded (fst (Sample.world true 1)))%Q
  /\ (getDeviceMemoryConsumptionUnpadded (fst (Sample.world true 1))
      <= getDeviceMemoryConsumption (fst (Sample.world true 1)))%Q.
Proof.
  apply (@unpadded_consumption_at_most_padded Sample.kernels Sample.mp
           Sample.tileParams (Sample.sgmParams true 1)
           (fun _ => 0%Q) (fun _ => (0%Q, 0%Q)) (fun _ => 0) Sample.device).
  - vm_compute. reflexivity.
  - vm_compute. reflexivity.
  - apply (sample_world_constructed true 1);
      [reflexivity | discriminate | vm_compute; reflexivity | vm_compute; reflexivity
      | vm_compute; discriminate].
Defined.

(** ** The depth limits a run reads *)

Lemma bind_cong {A B} (m m' : M A) (k k' : A -> M B) w :
  m' w = m w -> (forall a w1, k' a w1 = k a w1) -> bind m' k' w = bind m k w.
Proof.
  intros Hm Hk. unfold bind. rewrite Hm.
  destruct (m w); [apply Hk | reflexivity | reflexivity].
Qed.

Section Limits.
Context `{DeviceKernels}.

(** The loop reads the limits of its own T cameras only. *)
Lemma similarity_loop_limits_ext dl dl' rcCam r tcams : forall tci w,
  (forall k, (tci <= k < tci + length tcams)%nat ->
             getDepthsTcLimits dl' !! k = getDepthsTcLimits dl !! k) ->
  similarity_loop dl' rcCam r tci tcams w = similarity_loop dl rcCam r tci tcams w.
Proof.
  induction tcams as [|tc rest IH]; intros tci w Hlim; [reflexivity|].
  cbn [similarity_loop]. rewrite (Hlim tci) by (cbn [length]; lia).
  destruct (getDepthsTcLimits dl !! tci) as [[x y]|]; [|reflexivity].
  apply bind_cong; [reflexivity | intros lastDepth w1].
  rewrite !bind_get_engine.
  apply bind_cong; [reflexivity | intros tcCam w2].
  apply bind_cong; [reflexivity | intros [] w3].
  apply IH. intros k Hk. apply Hlim. cbn [length]. lia.
Qed.

(** X11.  [sgmRc] reads the depth limits of the tile's T cameras only:
    two depth lists with the same depths, whose limits agree on the first
    [sgmTCams.size()] entries, give the same outcome and the same state;
    surplus limits entries are ignored. *)
Theorem surplus_limits_are_ignored (tile : Tile) (dl dl' : SgmDepthList) (w : World) :
  getDepths dl' = getDepths dl ->
  take (length (sgmTCams tile)) (getDepthsTcLimits dl')
  = take (length (sgmTCams tile)) (getDepthsTcLimits dl) ->
  sgmRc tile dl' w = sgmRc tile dl w.
Proof.
  intros Hd Hl.
  assert (Hloop : forall rcCam r v,
            similarity_loop dl' rcCam r 0 (sgmTCams tile) v
            = similarity_loop dl rcCam r 0 (sgmTCams tile) v).
  { intros rcCam r v. apply similarity_loop_limits_ext. intros k Hk.
    rewrite <- (lookup_take_lt (getDepthsTcLimits dl') (length (sgmTCams tile)) k) by lia.
    rewrite <- (lookup_take_lt (getDepthsTcLimits dl) (length (sgmTCams tile)) k) by lia.
    rewrite Hl. reflexivity. }
  assert (Hfuse : forall v, fuse tile dl' v = fuse tile dl v).
  { intros v. unfold fuse. rewrite Hd.
    apply bind_cong; [reflexivity | intros [] v1].
    apply bind_cong; [reflexivity | intros [] v2].
    apply bind_cong; [|reflexivity].
    unfold computeSimilarityVolumes.
    apply bind_cong; [reflexivity | intros r v3].
    rewrite !bind_get_engine.
    apply bind_cong; [reflexivity | intros rcCam v4].
    apply Hloop. }
  assert (Hfilter : forall v, filter_volume tile dl' v = filter_volume tile dl v).
  { intros v. unfold filter_volume, optimizeSimilarityVolume. rewrite Hd. reflexivity. }
  assert (Hextract : forall v, extract tile dl' v = extract tile dl v).
  { intros v. unfold extract, retrieveBestDepth. rewrite Hd. reflexivity. }
  unfold sgmRc.
  apply bind_cong; [unfold check_inputs; rewrite Hd; reflexivity | intros [] v1].
  apply bind_cong; [apply Hfuse | intros [] v2].
  apply bind_cong; [apply Hfilter | intros [] v3].
  apply Hextract.
Qed.

End Limits.

(** X11 on the sample tile: a third limits entry, for no T camera. *)
Lemma surplus_limits_are_ignored_sample :
  @sgmRc Sample.kernels (Sample.tile [1; 2])
    (mkSgmDepthList [1; 2; 3; 4]%Q [(0, 2); (1, 2); (3, 1)]) (Sample.world true 1)
  = @sgmRc Sample.kernels (Sample.tile [1; 2]) Sample.depthList (Sample.world true 1).
Proof.
  apply (@surplus_limits_are_ignored Sample.kernels (Sample.tile [1; 2]) Sample.depthList
           (mkSgmDepthList [1; 2; 3; 4]%Q [(0, 2); (1, 2); (3, 1)]) (Sample.world true 1)).
  - reflexivity.
  - reflexivity.
Defined.

(** ** The sample tile, run *)

(** The sample tile with target cameras 1 and 2 at scale 2, through
    [sgmRc]: the cache keys requested, and the cell of pixel (0, 0) at
    depth index 1 (both cameras contribute), 0 (camera 1 only) and 3 (no
    camera) after the fusion stage. *)
Example sample_run :
  match @fuse Sample.kernels (Sample.tile [1; 2]) Sample.depthList (Sample.world true 2),
        @sgmRc Sample.kernels (Sample.tile [1; 2]) Sample.depthList (Sample.world true 2)
  with
  | Ok _ fused, Ok _ final =>
      requests (trace (snd final)) = [(0, 2); (1, 2); (2, 2); (0, 2); (0, 1)]
      /\ (b_data (_volumeBestSim_dmp (fst fused)) [0; 0; 1],
          b_data (_volumeSecBestSim_dmp (fst fused)) [0; 0; 1]) = (48, 85)
      /\ (b_data (_volumeBestSim_dmp (fst fused)) [0; 0; 0],
          b_data (_volumeSecBestSim_dmp (fst fused)) [0; 0; 0]) = (37, 255)
      /\ (b_data (_volumeBestSim_dmp (fst fused)) [0; 0; 3],
          b_data (_volumeSecBestSim_dmp (fst fused)) [0; 0; 3]) = (255, 255)
  | _, _ => False
  end.
Proof. vm_compute. repeat split; reflexivity. Qed.

(** An empty target camera list makes [sgmRc] throw, naming view 100, in
    the state it was called in. *)
Example sample_no_tcams :
  @sgmRc Sample.kernels (Sample.tile []) Sample.depthList (Sample.world true 1)
  = Thrown (NoDepthsOrNoTCams 100) (Sample.world true 1).
Proof. reflexivity. Qed.

(** Five depth hypotheses do not fit the four cells of the staging buffer. *)
Example sample_too_many_depths :
  @sgmRc Sample.kernels (Sample.tile [1])
    (mkSgmDepthList [1; 2; 3; 4; 5]%Q [(0, 2)]) (Sample.world true 1)
  = Undefined.
Proof. vm_compute. reflexivity. Qed.

(** A tile [INT_MAX] pixels wide: in single precision the extent is 2^31,
    which has no conversion to [int]. *)
Example sample_extent_out_of_int :
  ceil_div 2147483647 1 = 2147483648
  /\ @construct Sample.kernels Sample.mp (mkTileParams 2147483647 1)
       (Sample.sgmParams false 1) (fun _ => 0%Q) (fun _ => (0%Q, 0%Q)) (fun _ => 0)
       Sample.device
     = Undefined.
Proof. vm_compute. split; reflexivity. Qed.

(** A device with too little memory for the second volume makes the
    construction throw. *)
Example sample_allocation_failure :
  match @construct Sample.kernels Sample.mp Sample.tileParams (Sample.sgmParams true 1)
          (fun _ => 0%Q) (fun _ => (0%Q, 0%Q)) (fun _ => 0) (mkDevice 20000 [])
  with
  | Thrown e _ => e = AllocationFailure volumeSecBestSim_dmp
  | _ => False
  end.
Proof. vm_compute. reflexivity. Qed.
